(** * MichiMem: a shallow embedding of the memory store and its clients

    The development follows the layout of the TypeScript sources:
    - [types.ts]: the records [Memory], [MemoryInput], [CheckpointData],
      [MichiMemConfig];
    - [index-db.ts]: the class [IndexDB] over the SQLite table [memories];
    - [tiering.ts]: [buildL0] and [estimateTokens];
    - [compounding.ts]: [groupByOverlap], [extractWords], [computeOverlap];
    - [lifecycle.ts]: [runLifecycle] and [archiveMemory];
    - [checkpoint.ts]: [getLatestCheckpoint];
    - [extractor.ts]: [extractFromTranscript] and its helpers;
    - [handler.ts]: [handleStop];
    - [mcp/src/index.ts]: the tool [mem_store].

    Everything the sources obtain from outside the repository (the clock,
    [uuidv4], the FTS5 engine behind [MATCH], the file system, [JSON.parse],
    the regular-expression engine, the lower-case mapping of strings) is
    gathered in the record [Host] and passed explicitly.  JavaScript
    strings are modelled as byte strings, JavaScript numbers that hold
    counts as [nat] or [Z]. *)

From Stdlib Require Import Ascii QArith Qround.
From stdpp Require Import base list strings gmap sorting pretty.

Local Open Scope string_scope.
Local Open Scope Z_scope.
Local Open Scope list_scope.

Set Warnings "-clear-no-such-hyp,-level-tolerance".

(** ** String helpers standing for the JavaScript string methods *)

Module Str.

Definition newline : ascii := Ascii.ascii_of_nat 10.

(** [\w] of the regular expressions: [A-Za-z0-9_]. *)
Definition is_word (c : ascii) : bool :=
  let n := Ascii.nat_of_ascii c in
  ((Nat.leb 48 n && Nat.leb n 57) || (Nat.leb 65 n && Nat.leb n 90)
   || (Nat.leb 97 n && Nat.leb n 122) || Nat.eqb n 95)%bool.

(** White space removed by [trim]: space, tab, LF, VT, FF, CR. *)
Definition is_space (c : ascii) : bool :=
  let n := Ascii.nat_of_ascii c in
  (Nat.eqb n 32 || (Nat.leb 9 n && Nat.leb n 13))%bool.

Fixpoint trimStart (s : string) : string :=
  match s with
  | EmptyString => EmptyString
  | String c s' => if is_space c then trimStart s' else s
  end.

Definition trim (s : string) : string :=
  String.rev (trimStart (String.rev (trimStart s))).

(** [s.slice(a, b)] for [0 <= a] and [0 <= b]. *)
Definition slice (a b : nat) (s : string) : string :=
  String.substring a (b - a) s.

Definition includes (needle s : string) : bool :=
  match String.index 0 needle s with Some _ => true | None => false end.

Definition startsWith (pre s : string) : bool := String.prefix pre s.

Definition endsWith (suf s : string) : bool :=
  String.prefix (String.rev suf) (String.rev s).

(** [l.join(sep)]. *)
Definition join (sep : string) (l : list string) : string :=
  String.concat sep l.

(** [s.split(c)] for a one-character separator: the pieces between
    consecutive separators, empty pieces included. *)
Fixpoint split_go (sep : ascii) (cur : string) (s : string) : list string :=
  match s with
  | EmptyString => [String.rev cur]
  | String c s' =>
      if Ascii.eqb c sep then String.rev cur :: split_go sep EmptyString s'
      else split_go sep (String c cur) s'
  end.

Definition split (sep : ascii) (s : string) : list string :=
  split_go sep EmptyString s.

(** [s.split(/\W+/)]: the pieces between maximal runs of non-word
    characters; a leading or trailing run leaves an empty piece. *)
Fixpoint split_nonword_go (cur : string) (in_sep : bool) (s : string)
  : list string :=
  match s with
  | EmptyString => [String.rev cur]
  | String c s' =>
      if is_word c then split_nonword_go (String c cur) false s'
      else if in_sep then split_nonword_go cur true s'
      else String.rev cur :: split_nonword_go EmptyString true s'
  end.

Definition split_nonword (s : string) : list string :=
  split_nonword_go EmptyString false s.

(** [s.replace(/\n/g, " ")]. *)
Fixpoint replace_newlines (s : string) : string :=
  match s with
  | EmptyString => EmptyString
  | String c s' =>
      String (if Ascii.eqb c newline then " "%char else c) (replace_newlines s')
  end.

(** Insertion-ordered [new Set(l)] read back as an array. *)
Fixpoint set_of_list (seen : gset string) (l : list string) : list string :=
  match l with
  | [] => []
  | x :: l' =>
      if decide (x ∈ seen) then set_of_list seen l'
      else x :: set_of_list ({[x]} ∪ seen) l'
  end.

End Str.

(** ** [types.ts] *)

Inductive MemoryType := diary | insight | knowledge | shared.

Inductive Priority := P0 | P1 | P2.

#[global] Instance MemoryType_eq_dec : EqDecision MemoryType.
Proof. solve_decision. Defined.

#[global] Instance Priority_eq_dec : EqDecision Priority.
Proof. solve_decision. Defined.

Definition priority_number (p : Priority) : Z :=
  match p with P0 => 0 | P1 => 1 | P2 => 2 end.

Definition type_name (t : MemoryType) : string :=
  match t with
  | diary => "diary" | insight => "insight"
  | knowledge => "knowledge" | shared => "shared"
  end.

Record Memory := {
  id : string;
  type : MemoryType;
  priority : Priority;
  title : string;
  summary : string;
  content : string;
  tags : list string;
  agent_id : string;
  source_ids : list string;
  created_at : string;
  updated_at : string;
  expires_at : option string;
}.

#[global] Instance Memory_eq_dec : EqDecision Memory.
Proof. solve_decision. Defined.

(** [MemoryInput]: the optional members are options; [undefined] and
    [null] are both [None]. *)
Module MemoryInput.
Record t := {
  type : MemoryType;
  priority : Priority;
  title : string;
  summary : string;
  content : string;
  tags : option (list string);
  agent_id : option string;
  source_ids : option (list string);
  expires_at : option string;
}.
End MemoryInput.

Module SearchResult.
Record t := { memory : Memory; rank : Q }.
End SearchResult.

Module CheckpointData.
Record t := {
  session_id : string;
  timestamp : string;
  current_task : string;
  decisions : list string;
  files_modified : list string;
  corrections : list string;
  context_summary : string;
}.
End CheckpointData.

Record MichiMemConfig := {
  data_dir : string;
  ttl_diary_days : Z;
  ttl_insight_days : Z;
  tokens_l0_budget : Z;
  tokens_l1_budget : Z;
  tokens_checkpoint_budget : Z;
  compounding_diary_threshold : Z;
  compounding_insight_threshold : Z;
}.

(** A transcript line [{role, content, type?}].  [content] is [unknown] in
    the source; [extractText] distinguishes a string, an array whose blocks
    are strings, text blocks or anything else, and any other value. *)
Inductive Block :=
| BString (s : string)
| BText (text : string)
| BOther.

Inductive Content :=
| CString (s : string)
| CArray (blocks : list Block)
| COther.

Module TranscriptMessage.
Record t := { role : string; content : Content; type : option string }.
End TranscriptMessage.

(** What [JSON.parse] makes of a transcript line: [null], of which no
    property can be read ([m.role] throws a [TypeError]), or a value whose
    properties can be read, seen through [role], [content] and [type] (a
    [role] that is not a string is a string other than [user] and
    [assistant]). *)
Inductive Line :=
| LNull
| LMessage (m : TranscriptMessage.t).

Definition message_of (line : Line) : option TranscriptMessage.t :=
  match line with
  | LNull => None
  | LMessage m => Some m
  end.

(** The lines as messages; [None] when one of them is [null]. *)
Definition messages_of (lines : list Line)
  : option (list TranscriptMessage.t) :=
  mapM message_of lines.

(** A result of [RegExp.prototype.exec]: [match.index], [match[0]] and
    [match[1]]. *)
Module RegExpMatch.
Record t := { index : nat; whole : string; group1 : string }.
End RegExpMatch.

Record RegExp := { source : string; flags : string }.

#[global] Instance RegExp_eq_dec : EqDecision RegExp.
Proof. solve_decision. Defined.

(** Values stored in a metric payload. *)
Inductive JSON :=
| JNull
| JBool (b : bool)
| JNum (n : Z)
| JStr (s : string).

Record Metric := {
  event : string;
  data : list (string * JSON);
  metric_created_at : string;
}.

(** ** The host: what the sources take from outside the repository *)

Record Host := {
  (** [Date.now()] at the n-th reading of the clock. *)
  Date_now : nat → Z;
  (** [new Date(ms).toISOString()]. *)
  toISOString : Z → string;
  (** The n-th result of [uuidv4()]. *)
  uuidv4 : nat → string;
  (** [memories_fts MATCH q]: the FTS5 engine either rejects the expression
      [q] (SQLite raises an error) or selects indexed rows. *)
  fts_match : string → option (Memory → bool);
  (** The FTS5 [rank] of a selected row for a query over a table. *)
  fts_rank : string → list Memory → Memory → Q;
  path_join : string → string → string;
  existsSync : string → bool;
  readdirSync : string → list string;
  (** [fs.readFileSync(path, "utf-8")]; [None] when it throws. *)
  readFileSync : string → option string;
  (** Whether [fs.mkdirSync(dir, { recursive: true })] and
      [fs.writeFileSync(path, content)] succeed ([false]: they throw). *)
  mkdirSync : string → bool;
  writeFileSync : string → string → bool;
  (** [JSON.parse] of a transcript line and of a checkpoint file; [None]
      when it throws. *)
  JSON_parse_line : string → option Line;
  JSON_parse_checkpoint : string → option CheckpointData.t;
  JSON_stringify : Content → string;
  (** All successive matches of a global regular expression on a text. *)
  regex_exec_all : RegExp → string → list RegExpMatch.t;
  (** [s.toLowerCase()]: the lower-case mapping of JavaScript, which is
      Unicode's. *)
  toLowerCase : string → string;
}.


(** ** [index-db.ts]: the class [IndexDB]

    The table [memories] is the list of its rows in [rowid] order; list
    columns ([tags], [source_ids]) are kept as lists, the JSON text they are
    stored as being read back unchanged.  The FTS index mirrors the table
    through the three triggers of the schema, so [MATCH] is evaluated on the
    rows themselves. *)

(** The argument of [update]:
    [Partial<Pick<Memory, "title" | "summary" | "content" | "tags" |
    "priority" | "expires_at">>]; a member is [Some] when the key is
    present. *)
Module Fields.
Record t := {
  title : option string;
  summary : option string;
  content : option string;
  tags : option (list string);
  priority : option Priority;
  expires_at : option (option string);
}.

Definition empty : t :=
  {| title := None; summary := None; content := None; tags := None;
     priority := None; expires_at := None |}.
End Fields.

Module IndexDB.

Record t := { memories : list Memory; metrics : list Metric }.

Definition ids (db : t) : list string := id <$> memories db.

(** [rowToMemory]: [(row.expires_at as string) || null] turns an empty
    string into [null]. *)
Definition rowToMemory (row : Memory) : Memory :=
  {| id := id row; type := type row; priority := priority row;
     title := title row; summary := summary row; content := content row;
     tags := tags row; agent_id := agent_id row;
     source_ids := source_ids row;
     created_at := created_at row; updated_at := updated_at row;
     expires_at := match expires_at row with
                   | Some e => if decide (e = "") then None else Some e
                   | None => None
                   end |}.

(** [insert(input)], with the clock reading [now] and the identifier
    [uuid] it draws.  [id] is the primary key of the table: a second row
    with the same [id] is refused by SQLite and the call throws ([None]). *)
Definition insert (now uuid : string) (input : MemoryInput.t) (db : t)
  : option (Memory * t) :=
  let memory :=
    {| id := uuid;
       type := MemoryInput.type input;
       priority := MemoryInput.priority input;
       title := MemoryInput.title input;
       summary := MemoryInput.summary input;
       content := MemoryInput.content input;
       tags := default [] (MemoryInput.tags input);
       agent_id := default "" (MemoryInput.agent_id input);
       source_ids := default [] (MemoryInput.source_ids input);
       created_at := now;
       updated_at := now;
       expires_at := MemoryInput.expires_at input |} in
  if decide (uuid ∈ ids db) then None
  else Some (memory,
             {| memories := memories db ++ [memory]; metrics := metrics db |}).

Definition getById (i : string) (db : t) : option Memory :=
  rowToMemory <$> (snd <$> list_find (λ row, id row = i) (memories db)).

(** [ORDER BY rank]: ascending. *)
Definition by_rank : relation SearchResult.t :=
  λ a b, (SearchResult.rank a <= SearchResult.rank b)%Q.

#[global] Instance by_rank_dec : RelDecision by_rank.
Proof. intros a b. unfold by_rank, Qle. apply _. Defined.

(** [search(query, limit)]:
    [SELECT m.*, rank FROM memories_fts f JOIN memories m ON f.id = m.id
     WHERE memories_fts MATCH ? ORDER BY rank LIMIT ?]. *)
Definition search (h : Host) (query : string) (limit : nat) (db : t)
  : option (list SearchResult.t) :=
  selects ← fts_match h query;
  Some (take limit
          (merge_sort by_rank
             ((λ row, {| SearchResult.memory := rowToMemory row;
                         SearchResult.rank :=
                           fts_rank h query (memories db) row |})
                <$> filter (λ row, selects row = true) (memories db)))).

(** [ORDER BY updated_at DESC]; the columns are text and compare as byte
    strings. *)
Definition by_updated_desc : relation Memory :=
  λ a b, String.le (updated_at b) (updated_at a).

#[global] Instance by_updated_desc_dec : RelDecision by_updated_desc.
Proof. intros a b. unfold by_updated_desc. apply _. Defined.

Definition getByType (ty : MemoryType) (limit : nat) (db : t) : list Memory :=
  rowToMemory <$>
    take limit (merge_sort by_updated_desc
                  (filter (λ row, type row = ty) (memories db))).

Definition getByPriority (p : Priority) (limit : nat) (db : t) : list Memory :=
  rowToMemory <$>
    take limit (merge_sort by_updated_desc
                  (filter (λ row, priority row = p) (memories db))).

(** [expires_at IS NOT NULL AND expires_at < ?]. *)
Definition is_expired (now : string) (row : Memory) : Prop :=
  match expires_at row with
  | Some e => String.ltb e now = true
  | None => False
  end.

#[global] Instance is_expired_dec now row : Decision (is_expired now row).
Proof. unfold is_expired. destruct (expires_at row); apply _. Defined.

(** [getExpired()], with the clock reading [now] it takes. *)
Definition getExpired (now : string) (db : t) : list Memory :=
  rowToMemory <$> filter (is_expired now) (memories db).

(** The [SET] clause of [update] applied to one row. *)
Definition set_fields (now : string) (fields : Fields.t) (row : Memory)
  : Memory :=
  {| id := id row; type := type row;
     priority := default (priority row) (Fields.priority fields);
     title := default (title row) (Fields.title fields);
     summary := default (summary row) (Fields.summary fields);
     content := default (content row) (Fields.content fields);
     tags := default (tags row) (Fields.tags fields);
     agent_id := agent_id row;
     source_ids := source_ids row;
     created_at := created_at row;
     updated_at := now;
     expires_at := default (expires_at row) (Fields.expires_at fields) |}.

(** [update(id, fields)]: [UPDATE memories SET ..., updated_at = ? WHERE
    id = ?]; the result is [changes > 0]. *)
Definition update (now : string) (i : string) (fields : Fields.t) (db : t)
  : bool * t :=
  (bool_decide (i ∈ ids db),
   {| memories := (λ row, if decide (id row = i)
                          then set_fields now fields row else row)
                    <$> memories db;
      metrics := metrics db |}).

(** [delete(id)]: [DELETE FROM memories WHERE id = ?]. *)
Definition delete (i : string) (db : t) : bool * t :=
  (bool_decide (i ∈ ids db),
   {| memories := filter (λ row, id row ≠ i) (memories db);
      metrics := metrics db |}).

Definition recordMetric (now : string) (ev : string)
  (payload : list (string * JSON)) (db : t) : t :=
  {| memories := memories db;
     metrics := metrics db ++
                [{| event := ev; data := payload; metric_created_at := now |}] |}.

(** The ids named by the [source_ids] of the insights:
    [SELECT json_each.value FROM memories, json_each(memories.source_ids)
     WHERE memories.type = 'insight']. *)
Definition insight_source_ids (db : t) : list string :=
  concat (source_ids <$> filter (λ row, type row = insight) (memories db)).

(** [ORDER BY created_at ASC]. *)
Definition by_created_asc : relation Memory :=
  λ a b, String.le (created_at a) (created_at b).

#[global] Instance by_created_asc_dec : RelDecision by_created_asc.
Proof. intros a b. unfold by_created_asc. apply _. Defined.

(** [getUnprocessedDiaries(limit)]. *)
Definition getUnprocessedDiaries (limit : nat) (db : t) : list Memory :=
  rowToMemory <$>
    take limit
      (merge_sort by_created_asc
         (filter (λ row, type row = diary ∧ id row ∉ insight_source_ids db)
            (memories db))).

(** [SELECT key, COUNT( * ) as c FROM memories GROUP BY key] read into an
    object: one entry per value of the key that some row has. *)
Definition group_counts {K} `{EqDecision K} (key : Memory → K)
  (name : K → string) (rows : list Memory) : gmap string nat :=
  list_to_map
    ((λ k, (name k, length (filter (λ row, key row = k) rows)))
       <$> remove_dups (key <$> rows)).

Record Stats := {
  total : nat;
  by_type : gmap string nat;
  by_priority : gmap string nat;
  expired : nat;
}.

(** [stats()], with the clock reading [now] of its last query. *)
Definition stats (now : string) (db : t) : Stats :=
  {| total := length (memories db);
     by_type := group_counts type type_name (memories db);
     by_priority :=
       group_counts priority
         (λ p, "P" +:+ pretty (priority_number p)) (memories db);
     expired := length (filter (is_expired now) (memories db)) |}.

End IndexDB.


(** ** Running code against the host

    A handler runs in a world: the database, the number of clock readings
    and of identifiers drawn so far, and the files written.  A run either
    returns or throws; what was done before the throw stays done. *)

Module World.
Record t := {
  db : IndexDB.t;
  clock_reads : nat;
  uuid_draws : nat;
  written : list (string * string);
}.

Definition with_db (d : IndexDB.t) (w : t) : t :=
  {| db := d; clock_reads := clock_reads w; uuid_draws := uuid_draws w;
     written := written w |}.
End World.

Inductive Outcome (A : Type) :=
| Returned (a : A) (w : World.t)
| Thrown (w : World.t).

Arguments Returned {A} a w.
Arguments Thrown {A} w.

Definition Run (A : Type) : Type := World.t → Outcome A.

#[global] Instance Run_ret : MRet Run := λ A a w, Returned a w.

#[global] Instance Run_bind : MBind Run := λ A B f m w,
  match m w with
  | Returned a w' => f a w'
  | Thrown w' => Thrown w'
  end.

Definition throw {A} : Run A := λ w, Thrown w.

Definition world_of {A} (o : Outcome A) : World.t :=
  match o with Returned _ w => w | Thrown w => w end.

(** [Date.now()]. *)
Definition now_ms (h : Host) : Run Z := λ w,
  Returned (Date_now h (World.clock_reads w))
    {| World.db := World.db w; World.clock_reads := S (World.clock_reads w);
       World.uuid_draws := World.uuid_draws w;
       World.written := World.written w |}.

(** [new Date().toISOString()]. *)
Definition now_iso (h : Host) : Run string :=
  ms ← now_ms h; mret (toISOString h ms).

Definition draw_uuid (h : Host) : Run string := λ w,
  Returned (uuidv4 h (World.uuid_draws w))
    {| World.db := World.db w; World.clock_reads := World.clock_reads w;
       World.uuid_draws := S (World.uuid_draws w);
       World.written := World.written w |}.

Definition get_db : Run IndexDB.t := λ w, Returned (World.db w) w.

Definition put_db (d : IndexDB.t) : Run unit := λ w,
  Returned tt (World.with_db d w).

(** The methods of [IndexDB] as the handlers call them. *)
Definition db_insert (h : Host) (input : MemoryInput.t) : Run Memory :=
  now ← now_iso h;
  uuid ← draw_uuid h;
  d ← get_db;
  match IndexDB.insert now uuid input d with
  | Some (memory, d') => _ ← put_db d'; mret memory
  | None => throw
  end.

Definition db_search (h : Host) (query : string) (limit : nat)
  : Run (list SearchResult.t) :=
  d ← get_db;
  match IndexDB.search h query limit d with
  | Some results => mret results
  | None => throw
  end.


Definition db_delete (i : string) : Run bool :=
  d ← get_db;
  let '(changed, d') := IndexDB.delete i d in
  _ ← put_db d'; mret changed.

Definition db_getExpired (h : Host) : Run (list Memory) :=
  now ← now_iso h;
  d ← get_db;
  mret (IndexDB.getExpired now d).

Definition db_recordMetric (h : Host) (ev : string)
  (payload : list (string * JSON)) : Run unit :=
  now ← now_iso h;
  d ← get_db;
  put_db (IndexDB.recordMetric now ev payload d).


(** ** [tiering.ts] *)

Module TieredResult.
Record t := {
  id : string;
  title : string;
  type : string;
  priority : Z;
  text : string;
}.
End TieredResult.

Definition toTiered (m : Memory) (text : string) : TieredResult.t :=
  {| TieredResult.id := id m;
     TieredResult.title := title m;
     TieredResult.type := type_name (type m);
     TieredResult.priority := priority_number (priority m);
     TieredResult.text := text |}.

(** [Math.ceil(text.length / 4)]. *)
Definition estimateTokens (text : string) : Z :=
  Qceiling (inject_Z (Z.of_nat (String.length text)) / 4).

(** One of the three loops of [buildL0], started with the results and the
    token estimate reached so far; [break] leaves both as they are. *)
Fixpoint buildL0_stream (budget : Z) (ms : list Memory)
  (results : list TieredResult.t) (tokenEstimate : Z)
  : list TieredResult.t * Z :=
  match ms with
  | [] => (results, tokenEstimate)
  | m :: rest =>
      let line := title m +:+ ": " +:+ summary m in
      let tokens := estimateTokens line in
      if decide (tokenEstimate + tokens > budget) then (results, tokenEstimate)
      else buildL0_stream budget rest
             (results ++ [toTiered m line]) (tokenEstimate + tokens)
  end.

Definition buildL0 (db : IndexDB.t) (config : MichiMemConfig)
  : list TieredResult.t :=
  let budget := tokens_l0_budget config in
  let knowledge := IndexDB.getByPriority P0 20 db in
  let '(results, tokenEstimate) := buildL0_stream budget knowledge [] 0 in
  let insights := IndexDB.getByType insight 10 db in
  let '(results, tokenEstimate) :=
    buildL0_stream budget insights results tokenEstimate in
  let shared := IndexDB.getByType shared 5 db in
  let '(results, tokenEstimate) :=
    buildL0_stream budget shared results tokenEstimate in
  results.

(** The running token estimate after each emitted entry, recomputed from
    the entries' texts. *)
Fixpoint running_estimates (start : Z) (results : list TieredResult.t)
  : list Z :=
  match results with
  | [] => []
  | r :: rest =>
      let next := start + estimateTokens (TieredResult.text r) in
      next :: running_estimates next rest
  end.

(** The sum of the token estimates of the entries. *)
Fixpoint total_estimate (results : list TieredResult.t) : Z :=
  match results with
  | [] => 0
  | r :: rest => estimateTokens (TieredResult.text r) + total_estimate rest
  end.

(** ** [compounding.ts]: clustering by word overlap *)

Definition extractWords (h : Host) (mem : Memory) : gset string :=
  let text :=
    toLowerCase h
      (title mem +:+ " " +:+ summary mem +:+ " " +:+ Str.join " " (tags mem)) in
  let words :=
    filter (λ w, (3 < String.length w)%nat) (Str.split_nonword text) in
  list_to_set words.

(** [intersection / Math.min(a.size, b.size)], as an exact fraction. *)
Definition computeOverlap (a b : gset string) : Q :=
  if decide (size a = 0%nat ∨ size b = 0%nat) then 0%Q
  else
    let intersection := size (filter (λ word, word ∈ b) a) in
    (inject_Z (Z.of_nat intersection)
     / inject_Z (Z.of_nat (Nat.min (size a) (size b))))%Q.

(** [overlap >= 0.15]. *)
Definition overlaps (a b : gset string) : bool :=
  Qle_bool (15 # 100) (computeOverlap a b).

(** The inner loop of [groupByOverlap] for the seed whose words are
    [memWords]. *)
Fixpoint groupByOverlap_inner (h : Host) (memWords : gset string)
  (others : list Memory)
  (group : list Memory) (assigned : gset string)
  : list Memory * gset string :=
  match others with
  | [] => (group, assigned)
  | other :: rest =>
      if decide (id other ∈ assigned)
      then groupByOverlap_inner h memWords rest group assigned
      else if overlaps memWords (extractWords h other)
      then groupByOverlap_inner h memWords rest
             (group ++ [other]) ({[id other]} ∪ assigned)
      else groupByOverlap_inner h memWords rest group assigned
  end.

(** The outer loop over the memories still to visit. *)
Fixpoint groupByOverlap_outer (h : Host) (memories : list Memory)
  (todo : list Memory)
  (groups : list (list Memory)) (assigned : gset string)
  : list (list Memory) :=
  match todo with
  | [] => groups
  | mem :: rest =>
      if decide (id mem ∈ assigned)
      then groupByOverlap_outer h memories rest groups assigned
      else
        let '(group, assigned') :=
          groupByOverlap_inner h (extractWords h mem) memories
            [mem] ({[id mem]} ∪ assigned) in
        groupByOverlap_outer h memories rest (groups ++ [group]) assigned'
  end.

Definition groupByOverlap (h : Host) (memories : list Memory)
  : list (list Memory) :=
  if decide (length memories = 0%nat) then []
  else groupByOverlap_outer h memories memories [] ∅.

(** ** [lifecycle.ts] *)

Module LifecycleResult.
Record t := { expired : nat; archived : nat }.
End LifecycleResult.

Definition nl : string := String Str.newline "".

(** The markdown text [archiveMemory] writes, [expired_now] being the
    clock reading of its [Expired] line. *)
Definition archive_text (mem : Memory) (expired_now : string) : string :=
  Str.join nl
    [ "# " +:+ title mem;
      "";
      "- Type: " +:+ type_name (type mem);
      "- Priority: P" +:+ pretty (priority_number (priority mem));
      "- Tags: " +:+ (let joined := Str.join ", " (tags mem) in
                      if decide (joined = "") then "none" else joined);
      "- Created: " +:+ created_at mem;
      "- Expired: " +:+ expired_now;
      "";
      "## Summary";
      summary mem;
      "";
      "## Content";
      content mem ].

Definition record_write (path text : string) : Run unit := λ w,
  Returned tt
    {| World.db := World.db w; World.clock_reads := World.clock_reads w;
       World.uuid_draws := World.uuid_draws w;
       World.written := World.written w ++ [(path, text)] |}.

(** [archiveMemory]: whatever is thrown inside is caught and gives
    [false]. *)
Definition archiveMemory (h : Host) (mem : Memory) (config : MichiMemConfig)
  : Run bool :=
  let archiveDir := path_join h (data_dir config) "archive" in
  if mkdirSync h archiveDir then
    let datePrefix := Str.slice 0 10 (created_at mem) in
    let filename := datePrefix +:+ "-" +:+ Str.slice 0 8 (id mem) +:+ ".md" in
    let filepath := path_join h archiveDir filename in
    expired_now ← now_iso h;
    let text := archive_text mem expired_now in
    if writeFileSync h filepath text
    then _ ← record_write filepath text; mret true
    else mret false
  else mret false.

(** The body of the loop of [runLifecycle]. *)
Definition runLifecycle_step (h : Host) (config : MichiMemConfig)
  (result : LifecycleResult.t) (mem : Memory) : Run LifecycleResult.t :=
  archived ← archiveMemory h mem config;
  _ ← db_delete (id mem);
  let result :=
    {| LifecycleResult.expired := S (LifecycleResult.expired result);
       LifecycleResult.archived :=
         if (archived : bool) then S (LifecycleResult.archived result)
         else LifecycleResult.archived result |} in
  _ ← db_recordMetric h "lifecycle_expire"
        [("id", JStr (id mem)); ("type", JStr (type_name (type mem)));
         ("priority", JNum (priority_number (priority mem)))];
  mret result.

Fixpoint runLifecycle_loop (h : Host) (config : MichiMemConfig)
  (expired : list Memory) (result : LifecycleResult.t)
  : Run LifecycleResult.t :=
  match expired with
  | [] => mret result
  | mem :: rest =>
      result' ← runLifecycle_step h config result mem;
      runLifecycle_loop h config rest result'
  end.

Definition runLifecycle (h : Host) (config : MichiMemConfig)
  : Run LifecycleResult.t :=
  expired ← db_getExpired h;
  runLifecycle_loop h config expired
    {| LifecycleResult.expired := 0; LifecycleResult.archived := 0 |}.

(** ** [checkpoint.ts] *)

Definition getLatestCheckpoint (h : Host) (config : MichiMemConfig)
  (sessionId : string) : option CheckpointData.t :=
  let checkpointDir := path_join h (data_dir config) "checkpoints" in
  if negb (existsSync h checkpointDir) then None
  else
    let files :=
      reverse
        (merge_sort String.le
           (filter (λ f, Str.startsWith sessionId f = true
                         ∧ Str.endsWith ".json" f = true)
              (readdirSync h checkpointDir))) in
    match files with
    | [] => None
    | latest :: _ =>
        match readFileSync h (path_join h checkpointDir latest) with
        | Some raw => JSON_parse_checkpoint h raw
        | None => None
        end
    end.


(** ** [extractor.ts] *)

Module ExtractedMemories.
Record t := {
  diary : option MemoryInput.t;
  corrections : list MemoryInput.t;
  preferences : list MemoryInput.t;
}.

(** [{ diary: null, corrections: [], preferences: [] }]. *)
Definition empty : t :=
  {| diary := None; corrections := []; preferences := [] |}.
End ExtractedMemories.

Definition gi (src : string) : RegExp := {| source := src; flags := "gi" |}.

Definition extractText (content : Content) : string :=
  match content with
  | CString s => s
  | CArray blocks =>
      Str.join " "
        ((λ block, match block with
                   | BString s => s
                   | BText text => text
                   | BOther => ""
                   end) <$> blocks)
  | COther => ""
  end.

Definition user_messages (messages : list TranscriptMessage.t)
  : list TranscriptMessage.t :=
  filter (λ m, TranscriptMessage.role m = "user") messages.

(** [dedup]: keeps the first record of each lower-cased title. *)
Fixpoint dedup_from (h : Host) (seen : gset string)
  (memories : list MemoryInput.t)
  : list MemoryInput.t :=
  match memories with
  | [] => []
  | m :: rest =>
      let key := toLowerCase h (MemoryInput.title m) in
      if decide (key ∈ seen) then dedup_from h seen rest
      else m :: dedup_from h ({[key]} ∪ seen) rest
  end.

Definition dedup (h : Host) (memories : list MemoryInput.t)
  : list MemoryInput.t :=
  dedup_from h ∅ memories.

Definition correction_patterns : list (RegExp * string) :=
  [ (gi "(?:actually|no,\s*|wrong|instead|correction)[,:]?\s+(.{15,150})",
     "correction");
    (gi "(?:don't|do not|never|stop)\s+([\w\s]{10,80})",
     "negative_preference") ].

(** The record pushed for one match, if it is not skipped. *)
Definition correction_of (text ty : string) (m : RegExpMatch.t)
  : option MemoryInput.t :=
  let extracted := Str.trim (RegExpMatch.group1 m) in
  if decide (String.length extracted < 15)%nat then None
  else
    let index := RegExpMatch.index m in
    Some {| MemoryInput.type := knowledge;
            MemoryInput.priority := P0;
            MemoryInput.title := "Correction: " +:+ Str.slice 0 60 extracted;
            MemoryInput.summary := Str.slice 0 150 extracted;
            MemoryInput.content :=
              "Source: user correction (" +:+ ty +:+ ")" +:+ nl
              +:+ "Context: "
              +:+ Str.slice (index - 50)
                    (index + String.length (RegExpMatch.whole m) + 50) text;
            MemoryInput.tags := Some ["correction"; ty];
            MemoryInput.agent_id := None;
            MemoryInput.source_ids := None;
            MemoryInput.expires_at := None |}.

Definition extractCorrections (h : Host) (messages : list TranscriptMessage.t)
  : list MemoryInput.t :=
  dedup h
    (concat
       ((λ msg,
          let text := extractText (TranscriptMessage.content msg) in
          concat
            ((λ '(regex, ty),
               omap (correction_of text ty) (regex_exec_all h regex text))
               <$> correction_patterns))
          <$> user_messages messages)).

Definition preference_patterns : list RegExp :=
  [ gi "(?:always|prefer|I like|I want|I use|please always)\s+(.{10,100})";
    gi "(?:my preferred|my favorite|I typically|I usually)\s+(.{10,100})" ].

Definition preference_of (text : string) (m : RegExpMatch.t)
  : option MemoryInput.t :=
  let extracted := Str.trim (RegExpMatch.group1 m) in
  if decide (String.length extracted < 10)%nat then None
  else
    let index := RegExpMatch.index m in
    Some {| MemoryInput.type := knowledge;
            MemoryInput.priority := P0;
            MemoryInput.title := "Preference: " +:+ Str.slice 0 60 extracted;
            MemoryInput.summary := Str.slice 0 150 extracted;
            MemoryInput.content :=
              "Source: user preference" +:+ nl
              +:+ "Full context: "
              +:+ Str.slice (index - 30)
                    (index + String.length (RegExpMatch.whole m) + 30) text;
            MemoryInput.tags := Some ["preference"];
            MemoryInput.agent_id := None;
            MemoryInput.source_ids := None;
            MemoryInput.expires_at := None |}.

Definition extractPreferences (h : Host) (messages : list TranscriptMessage.t)
  : list MemoryInput.t :=
  dedup h
    (concat
       ((λ msg,
          let text := extractText (TranscriptMessage.content msg) in
          concat
            ((λ pattern, omap (preference_of text) (regex_exec_all h pattern text))
               <$> preference_patterns))
          <$> user_messages messages)).

Definition topicPatterns : list RegExp :=
  [ gi "(?:working on|implementing|building|fixing|debugging|creating)\s+([\w\s-]{5,30})";
    gi "(?:the\s+)([\w-]+(?:\s+[\w-]+){0,2})\s+(?:module|service|component|function|class|file)" ].

Definition extractTopics (h : Host) (messages : list TranscriptMessage.t)
  : list string :=
  let found :=
    concat
      ((λ msg,
         let text := extractText (TranscriptMessage.content msg) in
         concat
           ((λ pattern,
              (λ m, toLowerCase h (Str.trim (RegExpMatch.group1 m)))
                <$> regex_exec_all h pattern text)
              <$> topicPatterns))
         <$> take 10 messages) in
  take 5 (Str.set_of_list ∅ found).

Definition fileRefPattern : RegExp :=
  {| source := "(?:[\w/.-]+\/)?[\w.-]+\.\w{1,6}"; flags := "g" |}.

Definition extractFileRefs (h : Host) (messages : list TranscriptMessage.t)
  : list string :=
  let found :=
    concat
      ((λ msg,
         let text := JSON_stringify h (TranscriptMessage.content msg) in
         filter (λ f, Str.includes "/" f = true
                      ∧ Str.startsWith "http" f = false
                      ∧ Str.includes "node_modules" f = false)
           (RegExpMatch.whole <$> regex_exec_all h fileRefPattern text))
         <$> messages) in
  take 10 (Str.set_of_list ∅ found).

(** The body of [buildDiary] once the [role] of every line has been
    read. *)
Definition buildDiary_on (h : Host) (messages : list TranscriptMessage.t)
  (config : MichiMemConfig) : Run MemoryInput.t :=
  let userMessages := user_messages messages in
  let assistantMessages :=
    filter (λ m, TranscriptMessage.role m = "assistant") messages in
  let firstUserMsg :=
    Str.slice 0 100
      (extractText (match userMessages with
                    | m :: _ => TranscriptMessage.content m
                    | [] => COther
                    end)) in
  let topics := extractTopics h messages in
  let filesModified := extractFileRefs h messages in
  diary_title ←
    (if decide (firstUserMsg = "")
     then today ← now_iso h; mret ("Session diary " +:+ Str.slice 0 10 today)
     else mret ("Session: " +:+ Str.trim (Str.replace_newlines firstUserMsg)));
  let diary_summary :=
    Str.join " "
      ((pretty (length userMessages) +:+ " user msgs, "
        +:+ pretty (length assistantMessages) +:+ " assistant msgs.")
       :: (if decide (0 < length topics)%nat
           then ["Topics: " +:+ Str.join ", " topics] else [])) in
  let contentParts :=
    omap (λ msg,
            let text := extractText (TranscriptMessage.content msg) in
            if decide (0 < String.length text)%nat
            then Some ((if decide (TranscriptMessage.role msg = "user")
                        then "**User**" else "**Assistant**")
                       +:+ ": " +:+ Str.slice 0 200 text)
            else None)
      (drop (length messages - 20) messages)
    ++ (if decide (0 < length filesModified)%nat
        then [nl +:+ "Files referenced: " +:+ Str.join ", " filesModified]
        else []) in
  ms ← now_ms h;
  let expiresAt := toISOString h (ms + ttl_diary_days config * 86400000) in
  mret {| MemoryInput.type := diary;
          MemoryInput.priority := P2;
          MemoryInput.title := diary_title;
          MemoryInput.summary := diary_summary;
          MemoryInput.content := Str.join nl contentParts;
          MemoryInput.tags := Some (take 5 topics);
          MemoryInput.agent_id := None;
          MemoryInput.source_ids := None;
          MemoryInput.expires_at := Some expiresAt |}.

(** [messages.filter((m) => m.role === ...)], the first statement of
    [buildDiary], of [extractCorrections], of [extractPreferences] and of
    [extractCurrentTask], reads [role] on every line: a [null] line throws
    a [TypeError], which no [try] of the callers catches. *)
Definition as_messages (lines : list Line) : Run (list TranscriptMessage.t) :=
  match messages_of lines with
  | Some messages => mret messages
  | None => throw
  end.

Definition buildDiary (h : Host) (lines : list Line) (config : MichiMemConfig)
  : Run MemoryInput.t :=
  messages ← as_messages lines;
  buildDiary_on h messages config.

(** The [try] block of [extractFromTranscript]: [None] when reading the
    file or parsing one of its non-empty lines throws. *)
Definition readMessages (h : Host) (transcriptPath : string)
  : option (list Line) :=
  raw ← readFileSync h transcriptPath;
  mapM (JSON_parse_line h)
    (filter (λ line, line ≠ "") (Str.split Str.newline raw)).

Definition extractFromTranscript (h : Host) (transcriptPath : string)
  (config : MichiMemConfig) : Run ExtractedMemories.t :=
  match readMessages h transcriptPath with
  | None => mret ExtractedMemories.empty
  | Some lines =>
      if decide (length lines < 4)%nat then mret ExtractedMemories.empty
      else
        d ← buildDiary h lines config;
        messages ← as_messages lines;
        mret {| ExtractedMemories.diary := Some d;
                ExtractedMemories.corrections := extractCorrections h messages;
                ExtractedMemories.preferences := extractPreferences h messages |}
  end.

(** ** [handler.ts]: the [Stop] hook *)

Module HookInput.
Record t := {
  session_id : string;
  transcript_path : string;
  cwd : string;
  hook_event_name : string;
  source : option string;
  trigger : option string;
  stop_hook_active : option bool;
  reason : option string;
}.
End HookInput.

(** One of the two loops of [handleStop]:
    [for (const c of candidates) { const existing = db.search(c.title, 1);
       if (existing.length === 0) db.insert(c); }]. *)
Definition insert_unless_found (h : Host) (candidate : MemoryInput.t)
  : Run unit :=
  existing ← db_search h (MemoryInput.title candidate) 1;
  if decide (length existing = 0)%nat
  then _ ← db_insert h candidate; mret tt
  else mret tt.

Fixpoint insert_candidates (h : Host) (candidates : list MemoryInput.t)
  : Run unit :=
  match candidates with
  | [] => mret tt
  | candidate :: rest =>
      _ ← insert_unless_found h candidate;
      insert_candidates h rest
  end.

(** [handleStop]; returning is [process.exit(0)], a throw leaves through
    [finally] and ends in [main().catch]. *)
Definition handleStop (h : Host) (input : HookInput.t)
  (config : MichiMemConfig) : Run unit :=
  if decide (HookInput.stop_hook_active input = Some true) then mret tt
  else
    extracted ← extractFromTranscript h (HookInput.transcript_path input) config;
    _ ← match ExtractedMemories.diary extracted with
        | Some d => _ ← db_insert h d; mret tt
        | None => mret tt
        end;
    _ ← insert_candidates h (ExtractedMemories.corrections extracted);
    _ ← insert_candidates h (ExtractedMemories.preferences extracted);
    db_recordMetric h "stop_extract"
      [("session_id", JStr (HookInput.session_id input));
       ("diary", JBool (bool_decide
                          (is_Some (ExtractedMemories.diary extracted))));
       ("corrections",
        JNum (Z.of_nat (length (ExtractedMemories.corrections extracted))));
       ("preferences",
        JNum (Z.of_nat (length (ExtractedMemories.preferences extracted))))].

(** ** [mcp/src/index.ts]: the tool [mem_store] *)

Definition same_title_and_type (h : Host) (new_title : string)
  (ty : MemoryType)
  (r : SearchResult.t) : Prop :=
  toLowerCase h (title (SearchResult.memory r)) = toLowerCase h new_title
  ∧ type (SearchResult.memory r) = ty.

#[global] Instance same_title_and_type_dec h t ty r :
  Decision (same_title_and_type h t ty r).
Proof. unfold same_title_and_type. apply _. Defined.



(** ** [tiering.ts], [injector.ts]: the other views *)

(** The paragraph of [buildL1]; [filter(Boolean)] drops the [null] of a
    memory without tags and an empty summary. *)
Definition buildL1_paragraph (m : Memory) : string :=
  Str.join nl
    (filter (λ line, line ≠ "")
       [ "**" +:+ title m +:+ "** (" +:+ type_name (type m) +:+ "/P"
         +:+ pretty (priority_number (priority m)) +:+ ") [id:" +:+ id m
         +:+ "]";
         summary m ]
     ++ (if decide (0 < length (tags m))%nat
         then ["Tags: " +:+ Str.join ", " (tags m)] else [])).

Fixpoint buildL1_loop (budget : Z) (memories : list Memory)
  (results : list TieredResult.t) (tokenEstimate : Z)
  : list TieredResult.t :=
  match memories with
  | [] => results
  | m :: rest =>
      let paragraph := buildL1_paragraph m in
      let tokens := estimateTokens paragraph in
      if decide (tokenEstimate + tokens > budget) then results
      else buildL1_loop budget rest
             (results ++ [toTiered m paragraph]) (tokenEstimate + tokens)
  end.

Definition buildL1 (memories : list Memory) (config : MichiMemConfig)
  : list TieredResult.t :=
  buildL1_loop (tokens_l1_budget config) memories [] 0.

(** The lines of [buildL2]; [filter((l) => l !== null)] drops only the
    [Expires] line of a memory whose [expires_at] is [null] or empty. *)
Definition buildL2_lines (memory : Memory) : list string :=
  [ "# " +:+ title memory;
    "Type: " +:+ type_name (type memory) +:+ " | Priority: P"
    +:+ pretty (priority_number (priority memory));
    "Tags: " +:+ (let joined := Str.join ", " (tags memory) in
                  if decide (joined = "") then "none" else joined);
    "Created: " +:+ created_at memory +:+ " | Updated: "
    +:+ updated_at memory ]
  ++ match expires_at memory with
     | Some e => if decide (e = "") then [] else ["Expires: " +:+ e]
     | None => []
     end
  ++ [ ""; content memory ].

Definition buildL2 (memory : Memory) : TieredResult.t :=
  toTiered memory (Str.join nl (buildL2_lines memory)).

(** The lines [buildL0Context] puts between its two tags, from the items
    of [buildL0]. *)
Definition buildL0Context_lines (items : list TieredResult.t) : list string :=
  let knowledgeItems := filter (λ i, TieredResult.priority i = 0) items in
  let insightItems := filter (λ i, TieredResult.type i = "insight") items in
  let sharedItems := filter (λ i, TieredResult.type i = "shared") items in
  (if decide (0 < length knowledgeItems)%nat
   then "## Core Knowledge"
        :: ((λ i, "- " +:+ TieredResult.text i) <$> knowledgeItems)
   else [])
  ++ (if decide (0 < length insightItems)%nat
      then "## Recent Insights"
           :: ((λ i, "- " +:+ TieredResult.text i) <$> insightItems)
      else [])
  ++ (if decide (0 < length sharedItems)%nat
      then "## Shared Memories"
           :: ((λ i, "- " +:+ TieredResult.text i) <$> sharedItems)
      else []).

Definition buildL0Context (db : IndexDB.t) (config : MichiMemConfig)
  : string :=
  let items := buildL0 db config in
  if decide (length items = 0)%nat then ""
  else
    Str.join nl
      ([ "<michimem-context>" ]
       ++ buildL0Context_lines items
       ++ [ "";
            "Use `mem_search` to find detailed memories. Use `mem_recall <id>` for full content.";
            "</michimem-context>" ]).

(** ** [compounding.ts]: synthesis *)

Module SynthesizedMemory.
Record t := {
  title : string;
  summary : string;
  content : string;
  tags : list string;
}.
End SynthesizedMemory.

Definition synthesizeInsight (diaries : list Memory)
  : option SynthesizedMemory.t :=
  match diaries with
  | [] => None
  | first :: _ =>
      let allTags := Str.set_of_list ∅ (concat (tags <$> diaries)) in
      let contentParts :=
        (λ d, "- " +:+ title d +:+ ": " +:+ summary d) <$> diaries in
      let commonTopics := take 5 allTags in
      let topicStr :=
        if decide (0 < length commonTopics)%nat
        then Str.join ", " commonTopics else "general" in
      let n := pretty (length diaries) in
      Some {| SynthesizedMemory.title :=
                "Pattern: " +:+ topicStr +:+ " (from " +:+ n +:+ " sessions)";
              SynthesizedMemory.summary :=
                "Recurring pattern across " +:+ n +:+ " sessions involving "
                +:+ topicStr;
              SynthesizedMemory.content :=
                Str.join nl
                  ([ "Synthesized from " +:+ n +:+ " session diaries:"; "" ]
                   ++ contentParts
                   ++ [ "";
                        "Date range: " +:+ Str.slice 0 10 (created_at first)
                        +:+ " to "
                        +:+ Str.slice 0 10
                              (created_at (default first (last diaries))) ]);
              SynthesizedMemory.tags := commonTopics ++ ["auto-insight"] |}
  end.

Definition synthesizeKnowledge (insights : list Memory)
  : option SynthesizedMemory.t :=
  match insights with
  | [] => None
  | _ :: _ =>
      let allTags := Str.set_of_list ∅ (concat (tags <$> insights)) in
      let contentParts :=
        (λ i, "- " +:+ title i +:+ ": " +:+ summary i) <$> insights in
      let topics := take 5 (filter (λ t, t ≠ "auto-insight") allTags) in
      let topicStr :=
        if decide (0 < length topics)%nat
        then Str.join ", " topics else "general" in
      let n := pretty (length insights) in
      Some {| SynthesizedMemory.title := "Knowledge: " +:+ topicStr;
              SynthesizedMemory.summary :=
                "Accumulated knowledge from " +:+ n +:+ " insights about "
                +:+ topicStr;
              SynthesizedMemory.content :=
                Str.join nl
                  ([ "Promoted from " +:+ n +:+ " insights:"; "" ]
                   ++ contentParts
                   ++ [ "";
                        "This knowledge is permanent (P0) and will be included in L0 context injection." ]);
              SynthesizedMemory.tags := topics ++ ["auto-knowledge"] |}
  end.

Module CreatedInsight.
Record t := { id : string; sourceCount : nat }.
End CreatedInsight.

(** The input [compoundDiariesToInsights] gives to [db.insert] for a
    group. *)
Definition insight_input (synth : SynthesizedMemory.t) (group : list Memory)
  (expiresAt : string) : MemoryInput.t :=
  {| MemoryInput.type := insight;
     MemoryInput.priority := P1;
     MemoryInput.title := SynthesizedMemory.title synth;
     MemoryInput.summary := SynthesizedMemory.summary synth;
     MemoryInput.content := SynthesizedMemory.content synth;
     MemoryInput.tags := Some (SynthesizedMemory.tags synth);
     MemoryInput.agent_id := None;
     MemoryInput.source_ids := Some (id <$> group);
     MemoryInput.expires_at := Some expiresAt |}.

(** The loop of [compoundDiariesToInsights] over the groups. *)
Fixpoint compoundDiaries_loop (h : Host) (config : MichiMemConfig)
  (groups : list (list Memory)) (created : list CreatedInsight.t)
  : Run (list CreatedInsight.t) :=
  match groups with
  | [] => mret created
  | group :: rest =>
      if decide (Z.of_nat (length group) < compounding_diary_threshold config)
      then compoundDiaries_loop h config rest created
      else
        match synthesizeInsight group with
        | None => compoundDiaries_loop h config rest created
        | Some synth =>
            ms ← now_ms h;
            let expiresAt :=
              toISOString h (ms + ttl_insight_days config * 86400000) in
            memory ← db_insert h (insight_input synth group expiresAt);
            compoundDiaries_loop h config rest
              (created ++ [{| CreatedInsight.id := id memory;
                              CreatedInsight.sourceCount := length group |}])
        end
  end.

Definition compoundDiariesToInsights (h : Host) (config : MichiMemConfig)
  : Run (list CreatedInsight.t) :=
  d ← get_db;
  let unprocessed := IndexDB.getUnprocessedDiaries 50 d in
  if decide (Z.of_nat (length unprocessed) < compounding_diary_threshold config)
  then mret []
  else compoundDiaries_loop h config (groupByOverlap h unprocessed) [].

Definition knowledge_input (synth : SynthesizedMemory.t) (group : list Memory)
  : MemoryInput.t :=
  {| MemoryInput.type := knowledge;
     MemoryInput.priority := P0;
     MemoryInput.title := SynthesizedMemory.title synth;
     MemoryInput.summary := SynthesizedMemory.summary synth;
     MemoryInput.content := SynthesizedMemory.content synth;
     MemoryInput.tags := Some (SynthesizedMemory.tags synth);
     MemoryInput.agent_id := None;
     MemoryInput.source_ids := Some (id <$> group);
     MemoryInput.expires_at := None |}.

Fixpoint compoundInsights_loop (h : Host) (config : MichiMemConfig)
  (groups : list (list Memory)) (created : list Memory)
  : Run (list Memory) :=
  match groups with
  | [] => mret created
  | group :: rest =>
      if decide (Z.of_nat (length group) < compounding_insight_threshold config)
      then compoundInsights_loop h config rest created
      else
        match synthesizeKnowledge group with
        | None => compoundInsights_loop h config rest created
        | Some synth =>
            memory ← db_insert h (knowledge_input synth group);
            compoundInsights_loop h config rest (created ++ [memory])
        end
  end.

Definition compoundInsightsToKnowledge (h : Host) (config : MichiMemConfig)
  : Run (list Memory) :=
  d ← get_db;
  let insights := IndexDB.getByType insight 50 d in
  if decide (Z.of_nat (length insights) < compounding_insight_threshold config)
  then mret []
  else compoundInsights_loop h config (groupByOverlap h insights) [].

Module CompoundingResult.
Record t := {
  insights_created : nat;
  knowledge_created : nat;
  diaries_processed : nat;
}.
End CompoundingResult.

Definition runCompounding (h : Host) (config : MichiMemConfig)
  : Run CompoundingResult.t :=
  insightsFromDiaries ← compoundDiariesToInsights h config;
  knowledgeFromInsights ← compoundInsightsToKnowledge h config;
  let result :=
    {| CompoundingResult.insights_created := length insightsFromDiaries;
       CompoundingResult.knowledge_created := length knowledgeFromInsights;
       CompoundingResult.diaries_processed :=
         foldl (λ sum i, (sum + CreatedInsight.sourceCount i)%nat) 0%nat
           insightsFromDiaries |} in
  _ ← db_recordMetric h "compounding"
        [("insights_created",
          JNum (Z.of_nat (CompoundingResult.insights_created result)));
         ("knowledge_created",
          JNum (Z.of_nat (CompoundingResult.knowledge_created result)));
         ("diaries_processed",
          JNum (Z.of_nat (CompoundingResult.diaries_processed result)))];
  mret result.

(** ** [checkpoint.ts]: writing a checkpoint *)

Definition dquote : string := String (Ascii.ascii_of_nat 34) "".

Module Checkpoint.

Definition extractCurrentTask (messages : list TranscriptMessage.t) : string :=
  let recentUser :=
    drop (length (user_messages messages) - 3) (user_messages messages) in
  match list_find (λ text, (10 < String.length text)%nat)
          ((λ msg, extractText (TranscriptMessage.content msg))
             <$> reverse recentUser) with
  | Some (_, text) => Str.slice 0 200 text
  | None => ""
  end.

Definition decisionPatterns : list RegExp :=
  [ gi "(?:decided|choosing|going with|using|picked|selected)\s+(.{10,80})";
    gi "(?:approach|strategy|plan):\s*(.{10,80})" ].

(** The loops shared by [extractDecisions] and [extractCorrections]: for
    each message, each pattern and each match, the trimmed first group. *)
Definition trimmed_groups (h : Host) (patterns : list RegExp)
  (messages : list TranscriptMessage.t) : list string :=
  concat
    ((λ msg,
       let text := extractText (TranscriptMessage.content msg) in
       concat
         ((λ pattern,
            (λ m, Str.trim (RegExpMatch.group1 m))
              <$> regex_exec_all h pattern text)
            <$> patterns))
       <$> messages).

Definition extractDecisions (h : Host) (messages : list TranscriptMessage.t)
  : list string :=
  let decisions :=
    trimmed_groups h decisionPatterns
      (filter (λ m, TranscriptMessage.role m = "assistant") messages) in
  drop (length decisions - 5) decisions.

Definition filePatterns : list RegExp :=
  [ gi ("(?:edited|wrote|created|modified|updated)\s+[`" +:+ dquote
        +:+ "]?([/\w.-]+\.\w+)[`" +:+ dquote +:+ "]?");
    gi ("file_path['" +:+ dquote +:+ ":\s]+([/\w.-]+\.\w+)") ].

Definition extractFilesModified (h : Host)
  (messages : list TranscriptMessage.t) : list string :=
  let found :=
    concat
      ((λ msg,
         let text := JSON_stringify h (TranscriptMessage.content msg) in
         concat
           ((λ pattern, RegExpMatch.group1 <$> regex_exec_all h pattern text)
              <$> filePatterns))
         <$> messages) in
  let files := Str.set_of_list ∅ found in
  drop (length files - 10) files.

Definition correctionPatterns : list RegExp :=
  [ gi "(?:actually|no,|wrong|instead|correction|fix|should be)\s+(.{10,100})";
    gi "(?:don't|do not|never|always|prefer|avoid)\s+(.{10,80})" ].

Definition extractCorrections (h : Host) (messages : list TranscriptMessage.t)
  : list string :=
  let corrections :=
    trimmed_groups h correctionPatterns (user_messages messages) in
  drop (length corrections - 5) corrections.

Definition buildContextSummary (messages : list TranscriptMessage.t)
  : string :=
  let recentMessages := drop (length messages - 10) messages in
  let parts :=
    omap (λ msg,
            let text := extractText (TranscriptMessage.content msg) in
            if decide (0 < String.length text)%nat
            then Some ((if decide (TranscriptMessage.role msg = "user")
                        then "U" else "A")
                       +:+ ": " +:+ Str.slice 0 100 text)
            else None)
      recentMessages in
  Str.slice 0 500 (Str.join nl parts).

(** The object [createCheckpoint] serializes, [timestamp] being the clock
    reading it takes first. *)
Definition checkpoint_of (h : Host) (sessionId timestamp : string)
  (messages : list TranscriptMessage.t) : CheckpointData.t :=
  {| CheckpointData.session_id := sessionId;
     CheckpointData.timestamp := timestamp;
     CheckpointData.current_task := extractCurrentTask messages;
     CheckpointData.decisions := extractDecisions h messages;
     CheckpointData.files_modified := extractFilesModified h messages;
     CheckpointData.corrections := extractCorrections h messages;
     CheckpointData.context_summary := buildContextSummary messages |}.

(** [createCheckpoint]; [stringify] is [JSON.stringify(checkpoint, null, 2)].
    Reading the transcript is inside a [try].  The members of the
    checkpoint are evaluated in order: the clock is read for [timestamp],
    then [extractCurrentTask] reads the [role] of every line, which throws
    on a [null] line.  [mkdirSync] and [writeFileSync] are not inside a
    [try] either, and their failure is thrown. *)
Definition createCheckpoint (h : Host) (stringify : CheckpointData.t → string)
  (config : MichiMemConfig) (sessionId transcriptPath : string)
  : Run (option string) :=
  match readMessages h transcriptPath with
  | None => mret None
  | Some lines =>
      timestamp ← now_iso h;
      messages ← as_messages lines;
      let checkpoint := checkpoint_of h sessionId timestamp messages in
      let checkpointDir := path_join h (data_dir config) "checkpoints" in
      if mkdirSync h checkpointDir then
        ms ← now_ms h;
        let filename := sessionId +:+ "-" +:+ pretty ms +:+ ".json" in
        let filepath := path_join h checkpointDir filename in
        let text := stringify checkpoint in
        if writeFileSync h filepath text
        then _ ← record_write filepath text; mret (Some filepath)
        else throw
      else throw
  end.

End Checkpoint.

(** ** [handler.ts]: the [PreCompact] hook *)

Definition handlePreCompact (h : Host) (stringify : CheckpointData.t → string)
  (input : HookInput.t) (config : MichiMemConfig) : Run unit :=
  result ← Checkpoint.createCheckpoint h stringify config
             (HookInput.session_id input) (HookInput.transcript_path input);
  db_recordMetric h "precompact"
    ([("session_id", JStr (HookInput.session_id input))]
     ++ match HookInput.trigger input with
        | Some t => [("trigger", JStr t)]
        | None => []
        end
     ++ [("checkpoint_created", JBool (bool_decide (is_Some result)))]).

(** ** [mcp/src/index.ts]: the tools [mem_search] and [mem_recall] *)

Module ToolReply.
Record t := { text : string; isError : bool }.
End ToolReply.

Definition mem_search (h : Host) (query : string) (limit : nat)
  : Run ToolReply.t :=
  start ← now_ms h;
  results ← db_search h query limit;
  finish ← now_ms h;
  _ ← db_recordMetric h "search"
        [("query", JStr query);
         ("results", JNum (Z.of_nat (length results)));
         ("latency_ms", JNum (finish - start))];
  if decide (length results = 0)%nat
  then mret {| ToolReply.text := "No memories found.";
               ToolReply.isError := false |}
  else
    mret {| ToolReply.text :=
              Str.join (nl +:+ nl)
                ((λ r,
                   let m := SearchResult.memory r in
                   "**" +:+ title m +:+ "** (" +:+ type_name (type m)
                   +:+ "/P" +:+ pretty (priority_number (priority m))
                   +:+ ") [id:" +:+ id m +:+ "]" +:+ nl +:+ summary m)
                   <$> results);
            ToolReply.isError := false |}.

(** The text of [mem_recall]; [filter(Boolean)] drops the [null] of a
    missing expiry and every empty line. *)
Definition mem_recall_text (memory : Memory) : string :=
  Str.join nl
    (filter (λ line, line ≠ "")
       ([ "# " +:+ title memory;
          "Type: " +:+ type_name (type memory) +:+ " | Priority: P"
          +:+ pretty (priority_number (priority memory));
          "Tags: " +:+ (let joined := Str.join ", " (tags memory) in
                        if decide (joined = "") then "none" else joined);
          "Created: " +:+ created_at memory +:+ " | Updated: "
          +:+ updated_at memory ]
        ++ match expires_at memory with
           | Some e => if decide (e = "") then [] else ["Expires: " +:+ e]
           | None => []
           end
        ++ [ ""; content memory ])).

Definition mem_recall (h : Host) (i : string) : Run ToolReply.t :=
  d ← get_db;
  match IndexDB.getById i d with
  | None => mret {| ToolReply.text := "Memory not found: " +:+ i;
                    ToolReply.isError := true |}
  | Some memory =>
      _ ← db_recordMetric h "recall" [("id", JStr i)];
      mret {| ToolReply.text := mem_recall_text memory;
              ToolReply.isError := false |}
  end.

(** ** A concrete host for the examples

    The examples below run the code on one host.  Its clock starts at
    2024-01-01T00:00:00.000Z and advances by one millisecond per reading;
    its FTS engine accepts every query as a conjunction of bare words looked
    up in the four indexed columns and ranks shorter rows first; its JSON and
    regular-expression functions are tabulated on the texts the examples
    use; its lower-case mapping is the one of ASCII letters, the texts of
    the examples having no other.  A second host differs in its FTS engine only, which rejects a
    query that holds a character other than bareword characters and white
    space, as the FTS5 query syntax does for the colon of a title such as
    [Preference: ...]. *)

Module Sample.

Definition dq : string := String (Ascii.ascii_of_nat 34) "".

Definition epoch_2024 : Z := 1704067200000.

Definition day_ms : Z := 86400000.

Definition pad (width : nat) (s : string) : string :=
  Str.join "" (replicate (width - String.length s) "0") +:+ s.

Definition iso_on (date : string) (ms_of_day : Z) : string :=
  date +:+ "T00:00:00." +:+ pad 3 (pretty ms_of_day) +:+ "Z".

Definition sample_toISOString (ms : Z) : string :=
  let d := ms - epoch_2024 in
  if decide (0 ≤ d < 1000) then iso_on "2024-01-01" d
  else if decide (30 * day_ms ≤ d < 30 * day_ms + 1000)
  then iso_on "2024-01-31" (d - 30 * day_ms)
  else if decide (90 * day_ms ≤ d < 90 * day_ms + 1000)
  then iso_on "2024-03-31" (d - 90 * day_ms)
  else "9999-12-31T23:59:59.999Z".

Definition sample_uuidv4 (n : nat) : string :=
  "00000000-0000-4000-8000-" +:+ pad 12 (pretty n).

Definition lower_ascii (c : ascii) : ascii :=
  let n := Ascii.nat_of_ascii c in
  if (Nat.leb 65 n && Nat.leb n 90)%bool then Ascii.ascii_of_nat (n + 32) else c.

(** The folding of the sample host: [toLowerCase] on texts of ASCII
    characters, which all the texts of the examples are. *)
Fixpoint sample_toLowerCase (s : string) : string :=
  match s with
  | EmptyString => EmptyString
  | String c s' => String (lower_ascii c) (sample_toLowerCase s')
  end.

Definition words_of (s : string) : list string :=
  filter (λ w, w ≠ "") (Str.split_nonword (sample_toLowerCase s)).

Definition indexed_words (row : Memory) : list string :=
  words_of (title row) ++ words_of (summary row) ++ words_of (content row)
  ++ concat (words_of <$> tags row).

Definition sample_fts_match (query : string) : option (Memory → bool) :=
  Some (λ row, bool_decide (Forall (λ w, w ∈ indexed_words row)
                              (words_of query))).

Fixpoint plain_query (query : string) : bool :=
  match query with
  | EmptyString => true
  | String c rest => (Str.is_word c || Str.is_space c) && plain_query rest
  end.

Definition strict_fts_match (query : string) : option (Memory → bool) :=
  if plain_query query then sample_fts_match query else None.

Definition sample_fts_rank (query : string) (table : list Memory)
  (row : Memory) : Q :=
  inject_Z (Z.of_nat (String.length (title row +:+ summary row +:+ content row))).

Definition sample_path_join (a b : string) : string := a +:+ "/" +:+ b.

(** A transcript line [{"role":"<role>","content":"<text>"}]. *)
Definition message_line (role text : string) : string :=
  "{" +:+ dq +:+ "role" +:+ dq +:+ ":" +:+ dq +:+ role +:+ dq +:+ ","
  +:+ dq +:+ "content" +:+ dq +:+ ":" +:+ dq +:+ text +:+ dq +:+ "}".

Definition message (role text : string) : TranscriptMessage.t :=
  {| TranscriptMessage.role := role;
     TranscriptMessage.content := CString text;
     TranscriptMessage.type := None |}.

Definition tabs_text : string := "I prefer tabs over spaces always".

Definition known_messages : list (string * string) :=
  [ ("user", tabs_text); ("assistant", "Understood");
    ("user", "thanks"); ("assistant", "Done") ].

(** [JSON.parse] on the lines of the examples: the four messages and the
    line [null]. *)
Definition sample_parse_line (line : string) : option Line :=
  if decide (line = "null") then Some LNull
  else
    (λ '(_, (role, text)), LMessage (message role text))
      <$> list_find (λ '(role, text), message_line role text = line)
            known_messages.

(** The transcript of a four-message session. *)
Definition transcript4 : string :=
  Str.join nl ((λ '(role, text), message_line role text) <$> known_messages).

(** The transcript of its first message alone. *)
Definition transcript1 : string := message_line "user" tabs_text.

(** The four messages followed by a line that is cut off. *)
Definition transcript_broken : string :=
  transcript4 +:+ nl +:+ "{" +:+ dq +:+ "role".

(** The four messages followed by a line [null]. *)
Definition transcript_null : string := transcript4 +:+ nl +:+ "null".

Definition checkpoint_abc : CheckpointData.t :=
  {| CheckpointData.session_id := "abc";
     CheckpointData.timestamp := "2024-01-01T00:00:00.000Z";
     CheckpointData.current_task := "fix login";
     CheckpointData.decisions := [];
     CheckpointData.files_modified := [];
     CheckpointData.corrections := [];
     CheckpointData.context_summary := "" |}.

Definition string_field (k v : string) : string :=
  dq +:+ k +:+ dq +:+ ":" +:+ dq +:+ v +:+ dq.

(** [JSON.stringify(checkpoint_abc)]. *)
Definition checkpoint_abc_text : string :=
  "{" +:+ string_field "session_id" "abc" +:+ ","
  +:+ string_field "timestamp" "2024-01-01T00:00:00.000Z" +:+ ","
  +:+ string_field "current_task" "fix login" +:+ ","
  +:+ dq +:+ "decisions" +:+ dq +:+ ":[],"
  +:+ dq +:+ "files_modified" +:+ dq +:+ ":[],"
  +:+ dq +:+ "corrections" +:+ dq +:+ ":[],"
  +:+ string_field "context_summary" "" +:+ "}".

Definition sample_parse_checkpoint (raw : string) : option CheckpointData.t :=
  if decide (raw = checkpoint_abc_text) then Some checkpoint_abc else None.

Definition sample_stringify (c : Content) : string :=
  match c with
  | CString s => dq +:+ s +:+ dq
  | CArray _ => "[]"
  | COther => "null"
  end.

(** The only match of the seven patterns of the extractor on the texts of
    [known_messages]: the first preference pattern finds [prefer] at
    index 2 of [tabs_text] and captures the rest of the line. *)
Definition sample_regex (re : RegExp) (text : string) : list RegExpMatch.t :=
  if decide (Some re = head preference_patterns ∧ text = tabs_text)
  then [ {| RegExpMatch.index := 2;
            RegExpMatch.whole := "prefer tabs over spaces always";
            RegExpMatch.group1 := "tabs over spaces always" |} ]
  else [].

Definition files : list (string * string) :=
  [ ("/tmp/session.jsonl", transcript4);
    ("/tmp/short.jsonl", transcript1);
    ("/tmp/broken.jsonl", transcript_broken);
    ("/tmp/null.jsonl", transcript_null);
    ("/data/checkpoints/abc-1704067200000.json", checkpoint_abc_text);
    ("/data/checkpoints/abc-1704067200500.json", "{") ].

Definition sample_readFileSync (path : string) : option string :=
  snd <$> (snd <$> list_find (λ '(p, _), p = path) files).

Definition sample_readdirSync (dir : string) : list string :=
  if decide (dir = "/data/checkpoints")
  then ["abc-1704067200000.json"; "abc-1704067200500.json"]
  else [].

(** The archive directory cannot be written when the data directory is
    [/readonly]. *)
Definition host_with (engine : string → option (Memory → bool)) : Host :=
  {| Date_now := λ n, epoch_2024 + Z.of_nat n;
     toISOString := sample_toISOString;
     uuidv4 := sample_uuidv4;
     fts_match := engine;
     fts_rank := sample_fts_rank;
     path_join := sample_path_join;
     existsSync := λ dir, bool_decide (dir = "/data/checkpoints");
     readdirSync := sample_readdirSync;
     readFileSync := sample_readFileSync;
     mkdirSync := λ _, true;
     writeFileSync := λ path _, negb (Str.startsWith "/readonly/" path);
     JSON_parse_line := sample_parse_line;
     JSON_parse_checkpoint := sample_parse_checkpoint;
     JSON_stringify := sample_stringify;
     regex_exec_all := sample_regex;
     toLowerCase := sample_toLowerCase |}.

Definition host : Host := host_with sample_fts_match.

Definition strict_host : Host := host_with strict_fts_match.

Definition config : MichiMemConfig :=
  {| data_dir := "/data";
     ttl_diary_days := 30; ttl_insight_days := 90;
     tokens_l0_budget := 200; tokens_l1_budget := 500;
     tokens_checkpoint_budget := 500;
     compounding_diary_threshold := 5; compounding_insight_threshold := 3 |}.

Definition row (i : string) (ty : MemoryType) (p : Priority)
  (t s c : string) (tg : list string) (updated : string)
  (expires : option string) : Memory :=
  {| id := i; type := ty; priority := p; title := t; summary := s;
     content := c; tags := tg; agent_id := ""; source_ids := [];
     created_at := "2023-11-01T00:00:00.000Z"; updated_at := updated;
     expires_at := expires |}.

Definition world_of_rows (rows : list Memory) : World.t :=
  {| World.db := {| IndexDB.memories := rows; IndexDB.metrics := [] |};
     World.clock_reads := 0; World.uuid_draws := 0; World.written := [] |}.

Definition stop_input (path : string) : HookInput.t :=
  {| HookInput.session_id := "abc";
     HookInput.transcript_path := path;
     HookInput.cwd := "/work";
     HookInput.hook_event_name := "Stop";
     HookInput.source := None;
     HookInput.trigger := None;
     HookInput.stop_hook_active := Some false;
     HookInput.reason := None |}.

End Sample.


(** ** Notions used in the statements *)

Definition tick_clock (w : World.t) : World.t :=
  {| World.db := World.db w; World.clock_reads := S (World.clock_reads w);
     World.uuid_draws := World.uuid_draws w;
     World.written := World.written w |}.

Definition tick_uuid (w : World.t) : World.t :=
  {| World.db := World.db w; World.clock_reads := World.clock_reads w;
     World.uuid_draws := S (World.uuid_draws w);
     World.written := World.written w |}.

(** The clock reading a method takes when it starts in [w]. *)
Definition reading (h : Host) (w : World.t) : string :=
  toISOString h (Date_now h (World.clock_reads w)).

(** What one loop of [buildL0] preserves: the estimate is the sum over the
    entries emitted, every running estimate is within the budget, and the
    entries emitted so far stay in front. *)
Definition within_budget (budget : Z) (results : list TieredResult.t)
  (tokenEstimate : Z) : Prop :=
  tokenEstimate = total_estimate results
  ∧ Forall (λ e, e ≤ budget) (running_estimates 0 results).

(** What the outer loop maintains. *)
Record grouping (h : Host) (memories : list Memory)
  (groups : list (list Memory))
  (assigned : gset string) : Prop := {
  grouping_assigned : assigned = list_to_set (id <$> concat groups);
  grouping_NoDup : NoDup (id <$> concat groups);
  grouping_members : ∀ x, x ∈ concat groups → x ∈ memories;
  grouping_seeds :
    ∀ g, g ∈ groups →
         ∃ seed rest, g = seed :: rest
           ∧ ∀ x, x ∈ rest →
                  overlaps (extractWords h seed) (extractWords h x) = true;
}.

(** The filenames of a session as the specification names them: prefix
    [<session_id>-], suffix [.json]. *)
Definition session_files (h : Host) (config : MichiMemConfig)
  (sessionId : string) : list string :=
  filter (λ f, Str.startsWith (sessionId +:+ "-") f = true
               ∧ Str.endsWith ".json" f = true)
    (readdirSync h (path_join h (data_dir config) "checkpoints")).

(** No other session's name extends this one's: a listed [.json] file that
    starts with the session id continues with [-]. *)
Definition no_longer_session (h : Host) (config : MichiMemConfig)
  (sessionId : string) : Prop :=
  Forall (λ f, Str.startsWith sessionId f = true →
               Str.endsWith ".json" f = true →
               Str.startsWith (sessionId +:+ "-") f = true)
    (readdirSync h (path_join h (data_dir config) "checkpoints")).

(** The hits of a search before [LIMIT], in rank order. *)
Definition ranked_hits (h : Host) (query : string)
  (selects : Memory → bool) (db : IndexDB.t) : list SearchResult.t :=
  merge_sort IndexDB.by_rank
    ((λ row, {| SearchResult.memory := IndexDB.rowToMemory row;
                SearchResult.rank :=
                  fts_rank h query (IndexDB.memories db) row |})
       <$> filter (λ row, selects row = true) (IndexDB.memories db)).

(** The candidates [handleStop] takes one after the other: the
    corrections, then the preferences of the Extractor. *)
Definition stop_candidates (h : Host) (input : HookInput.t)
  (config : MichiMemConfig) (w : World.t) : list MemoryInput.t :=
  match extractFromTranscript h (HookInput.transcript_path input) config w with
  | Returned extracted _ =>
      ExtractedMemories.corrections extracted
      ++ ExtractedMemories.preferences extracted
  | Thrown _ => []
  end.

(** A row has the title (compared in lower case) and the type that
    [mem_store] looks for. *)
Definition same_key (h : Host) (t : string) (ty : MemoryType) (row : Memory)
  : Prop :=
  toLowerCase h (title row) = toLowerCase h t ∧ type row = ty.

#[global] Instance same_key_dec h t ty row : Decision (same_key h t ty row).
Proof. unfold same_key. apply _. Defined.

(** ** Worlds of the examples *)

Definition editor_note : Memory :=
  Sample.row "k1" knowledge P0 "Editor setup" "indentation"
    "team preference is tabs over spaces always" []
    "2023-11-01T00:00:00.000Z" None.

Definition auth_rows : list Memory :=
  [ Sample.row "d1" diary P2 "Auth flow" "" "" []
      "2023-11-01T00:00:00.000Z" None;
    Sample.row "k1" knowledge P0 "Auth flow" "" "" []
      "2023-11-02T00:00:00.000Z" None;
    Sample.row "s1" shared P0 "Auth flow" "" "" []
      "2023-11-03T00:00:00.000Z" None ].

Definition three_memories : list Memory :=
  [ Sample.row "a" diary P2 "Deployment pipeline fails" "deployment notes" ""
      ["deployment"] "2024-01-01T00:00:00.000Z" None;
    Sample.row "b" diary P2 "ok" "" "" [] "2024-01-02T00:00:00.000Z" None;
    Sample.row "c" diary P2 "Fixing deployment scripts" "scripts" ""
      [] "2024-01-03T00:00:00.000Z" None ].


(** ** Notions and worlds of the statements about the rest of the code *)

Definition tabs_input : MemoryInput.t :=
  {| MemoryInput.type := knowledge; MemoryInput.priority := P0;
     MemoryInput.title := "Use tabs"; MemoryInput.summary := "prefer tabs";
     MemoryInput.content := "tabs over spaces"; MemoryInput.tags := None;
     MemoryInput.agent_id := None; MemoryInput.source_ids := None;
     MemoryInput.expires_at := None |}.

(** The entry [buildL0] emits for a memory. *)
Definition L0_entry (m : Memory) : TieredResult.t :=
  toTiered m (title m +:+ ": " +:+ summary m).

(** The entry [buildL1] emits for a memory. *)
Definition L1_entry (m : Memory) : TieredResult.t :=
  toTiered m (buildL1_paragraph m).

(** A greedy loop emits the entries of the first [k] memories: they fit,
    and the next memory, if there is one, does not. *)
Definition greedy_prefix (entry : Memory → TieredResult.t) (budget : Z)
  (start : Z) (ms : list Memory) (k : nat) : Prop :=
  (k ≤ length ms)%nat
  ∧ Forall (λ e, e ≤ budget) (running_estimates start (entry <$> take k ms))
  ∧ ∀ m, ms !! k = Some m →
         start + total_estimate (entry <$> take k ms)
         + estimateTokens (TieredResult.text (entry m)) > budget.


(** A run that leaves every row of the table in place, appends only rows
    satisfying [P], and writes no file, whether it returns or throws. *)
Definition appends_only {A} (P : Memory → Prop) (m : Run A) : Prop :=
  ∀ w, ∃ added,
    IndexDB.memories (World.db (world_of (m w)))
    = IndexDB.memories (World.db w) ++ added
    ∧ Forall P added
    ∧ World.written (world_of (m w)) = World.written w.

(** The two kinds of rows the [Stop] hook stores. *)
Definition stop_row (row : Memory) : Prop :=
  (type row = diary ∧ priority row = P2 ∧ is_Some (expires_at row))
  ∨ (type row = knowledge ∧ priority row = P0 ∧ expires_at row = None).

(** What every candidate of the extractor is: a permanent knowledge record
    whose title is [label] followed by at least [least] and at most 60
    characters of the match, with a summary of at most 150. *)
Definition candidate_shape (label : string) (least : nat)
  (c : MemoryInput.t) : Prop :=
  MemoryInput.type c = knowledge ∧ MemoryInput.priority c = P0
  ∧ MemoryInput.expires_at c = None
  ∧ MemoryInput.source_ids c = None
  ∧ (∃ body, MemoryInput.title c = label +:+ body
             ∧ (least ≤ String.length body ≤ 60)%nat)
  ∧ (least ≤ String.length (MemoryInput.summary c) ≤ 150)%nat.


(** The candidate is cut from a match of one of the [patterns] on the
    text of a user message: its title is [label] followed by the first 60
    characters of the trimmed first group, its summary the first 150. *)
Definition cut_from_match (h : Host) (patterns : list RegExp)
  (label : string) (messages : list TranscriptMessage.t)
  (c : MemoryInput.t) : Prop :=
  ∃ msg pattern m,
    msg ∈ messages ∧ TranscriptMessage.role msg = "user"
    ∧ pattern ∈ patterns
    ∧ m ∈ regex_exec_all h pattern
            (extractText (TranscriptMessage.content msg))
    ∧ MemoryInput.title c
      = label +:+ Str.slice 0 60 (Str.trim (RegExpMatch.group1 m))
    ∧ MemoryInput.summary c
      = Str.slice 0 150 (Str.trim (RegExpMatch.group1 m)).

(** The groups for which a loop of the compounding inserts a record: those
    that reach the threshold and from which a record is synthesized. *)
Definition promoted (threshold : Z) (groups : list (list Memory))
  : list (list Memory) :=
  filter (λ g, ¬ Z.of_nat (length g) < threshold ∧ g ≠ []) groups.

(** What [compoundDiariesToInsights] returns for an inserted row. *)
Definition created_of (row : Memory) : CreatedInsight.t :=
  {| CreatedInsight.id := id row;
     CreatedInsight.sourceCount := length (source_ids row) |}.

(** The row inserted for a group of diaries, and for a group of insights. *)
Definition insight_row (g : list Memory) (row : Memory) : Prop :=
  type row = insight ∧ priority row = P1 ∧ is_Some (expires_at row)
  ∧ source_ids row = id <$> g
  ∧ ∃ s, synthesizeInsight g = Some s ∧ tags row = SynthesizedMemory.tags s.

Definition knowledge_row (g : list Memory) (row : Memory) : Prop :=
  type row = knowledge ∧ priority row = P0 ∧ expires_at row = None
  ∧ source_ids row = id <$> g
  ∧ ∃ s, synthesizeKnowledge g = Some s ∧ tags row = SynthesizedMemory.tags s.

(** Between [w] and [w'] exactly one metric was recorded, of event
    [precompact], for the session and with this [checkpoint_created]. *)
Definition precompact_recorded (sessionId : string) (created : bool)
  (w w' : World.t) : Prop :=
  ∃ metric,
    IndexDB.metrics (World.db w') = IndexDB.metrics (World.db w) ++ [metric]
    ∧ event metric = "precompact"
    ∧ ("checkpoint_created", JBool created) ∈ data metric
    ∧ ("session_id", JStr sessionId) ∈ data metric.


(** A table with one record past its expiry and two that are not. *)
Definition stale_and_fresh : list Memory :=
  [ Sample.row "d1" diary P2 "Old session" "" "" []
      "2023-11-01T00:00:00.000Z" (Some "2023-12-01T00:00:00.000Z");
    Sample.row "k1" knowledge P0 "Use tabs" "" "" []
      "2023-11-02T00:00:00.000Z" None;
    Sample.row "d2" diary P2 "New session" "" "" []
      "2023-12-30T00:00:00.000Z" (Some "2024-01-29T00:00:00.000Z") ].

(** * Properties *)

(** ** Running the methods of the store *)

Ltac run := unfold mbind, Run_bind, mret, Run_ret, throw; cbn.

Lemma bind_run {A B} (m : Run A) (f : A → Run B) (w : World.t) :
  (m ≫= f) w = match m w with
               | Returned a w' => f a w'
               | Thrown w' => Thrown w'
               end.
Proof. reflexivity. Qed.

Lemma now_iso_run h w : now_iso h w = Returned (reading h w) (tick_clock w).
Proof. reflexivity. Qed.

Lemma db_insert_run h input w :
  db_insert h input w =
  match IndexDB.insert (reading h w) (uuidv4 h (World.uuid_draws w)) input
          (World.db w) with
  | Some (memory, d') =>
      Returned memory (World.with_db d' (tick_uuid (tick_clock w)))
  | None => Thrown (tick_uuid (tick_clock w))
  end.
Proof.
  unfold db_insert, now_iso, now_ms, draw_uuid, get_db, put_db. run.
  unfold reading. by destruct (IndexDB.insert _ _ _ _) as [[memory d']|].
Qed.

Lemma db_search_run h query limit w :
  db_search h query limit w =
  match IndexDB.search h query limit (World.db w) with
  | Some results => Returned results w
  | None => Thrown w
  end.
Proof.
  unfold db_search, get_db. run. by destruct (IndexDB.search _ _ _ _).
Qed.


Lemma db_delete_run i w :
  db_delete i w =
  Returned (IndexDB.delete i (World.db w)).1
    (World.with_db (IndexDB.delete i (World.db w)).2 w).
Proof. reflexivity. Qed.

Lemma db_recordMetric_run h ev payload w :
  db_recordMetric h ev payload w =
  Returned tt
    (World.with_db (IndexDB.recordMetric (reading h w) ev payload (World.db w))
       (tick_clock w)).
Proof. reflexivity. Qed.

Lemma db_getExpired_run h w :
  db_getExpired h w =
  Returned (IndexDB.getExpired (reading h w) (World.db w)) (tick_clock w).
Proof. reflexivity. Qed.

(** ** The store *)

Lemma insert_Some now uuid input d memory d' :
  IndexDB.insert now uuid input d = Some (memory, d') →
  IndexDB.memories d' = IndexDB.memories d ++ [memory]
  ∧ IndexDB.metrics d' = IndexDB.metrics d
  ∧ id memory = uuid ∧ uuid ∉ IndexDB.ids d
  ∧ type memory = MemoryInput.type input
  ∧ priority memory = MemoryInput.priority input
  ∧ tags memory = default [] (MemoryInput.tags input)
  ∧ source_ids memory = default [] (MemoryInput.source_ids input)
  ∧ expires_at memory = MemoryInput.expires_at input.
Proof.
  unfold IndexDB.insert. case_decide as Hfresh; [done|].
  intros [= <- <-]. by cbn.
Qed.

(** C10. A record returned by [insert] has [created_at = updated_at]: the
    method reads the clock once and uses that reading for both columns, and
    the row appended to the table is the record returned.  The call throws
    only when the identifier drawn is already a key of the table. *)
Theorem insert_created_at_is_updated_at (h : Host) (input : MemoryInput.t)
  (w : World.t) :
  match db_insert h input w with
  | Returned memory w' =>
      created_at memory = updated_at memory
      ∧ created_at memory = toISOString h (Date_now h (World.clock_reads w))
      ∧ World.clock_reads w' = S (World.clock_reads w)
      ∧ IndexDB.memories (World.db w')
        = IndexDB.memories (World.db w) ++ [memory]
  | Thrown _ => uuidv4 h (World.uuid_draws w) ∈ IndexDB.ids (World.db w)
  end.
Proof.
  rewrite db_insert_run. unfold IndexDB.insert.
  case_decide; cbn; [done|]. by repeat split.
Qed.

(** C8. [update(id, fields)] returns [true] exactly when a row has that
    [id]; it keeps the number and order of the rows and the metrics; a row
    with another [id] is unchanged; in a row with that [id] the columns
    [id], [type], [agent_id], [source_ids] and [created_at] are unchanged,
    [updated_at] is the clock reading, and each of the six updatable
    columns takes the listed value when it is listed and keeps its own
    otherwise.  In particular, when only [priority] is listed, [expires_at]
    is not recomputed. *)
Theorem update_touches_listed_fields_only (now i : string) (fields : Fields.t)
  (db : IndexDB.t) :
  let changed := (IndexDB.update now i fields db).1 in
  let db' := (IndexDB.update now i fields db).2 in
  (changed = true ↔ ∃ row, row ∈ IndexDB.memories db ∧ id row = i)
  ∧ (changed = false ↔ ∀ row, row ∈ IndexDB.memories db → id row ≠ i)
  ∧ length (IndexDB.memories db') = length (IndexDB.memories db)
  ∧ IndexDB.metrics db' = IndexDB.metrics db
  ∧ ∀ (k : nat) (row : Memory),
      IndexDB.memories db !! k = Some row →
      ∃ row', IndexDB.memories db' !! k = Some row'
        ∧ (id row ≠ i → row' = row)
        ∧ (id row = i →
           id row' = id row ∧ type row' = type row
           ∧ agent_id row' = agent_id row
           ∧ source_ids row' = source_ids row
           ∧ created_at row' = created_at row
           ∧ updated_at row' = now
           ∧ title row' = default (title row) (Fields.title fields)
           ∧ summary row' = default (summary row) (Fields.summary fields)
           ∧ content row' = default (content row) (Fields.content fields)
           ∧ tags row' = default (tags row) (Fields.tags fields)
           ∧ priority row' = default (priority row) (Fields.priority fields)
           ∧ expires_at row'
             = default (expires_at row) (Fields.expires_at fields)
           ∧ (∀ p, fields = {| Fields.title := None; Fields.summary := None;
                               Fields.content := None; Fields.tags := None;
                               Fields.priority := Some p;
                               Fields.expires_at := None |} →
              priority row' = p ∧ expires_at row' = expires_at row
              ∧ title row' = title row ∧ summary row' = summary row
              ∧ content row' = content row ∧ tags row' = tags row)).
Proof.
  cbn. unfold IndexDB.ids. repeat split.
  - intros Hc%bool_decide_eq_true. apply list_elem_of_fmap in Hc as (row & -> & ?).
    by exists row.
  - intros (row & Hin & Heq). subst i. apply bool_decide_eq_true.
    by apply list_elem_of_fmap_2.
  - intros Hc%bool_decide_eq_false row Hin Heq. subst i. apply Hc.
    by apply list_elem_of_fmap_2.
  - intros Hall. apply bool_decide_eq_false.
    intros (row & -> & Hin)%list_elem_of_fmap. by apply (Hall row).
  - by rewrite length_fmap.
  - intros k row Hk. rewrite list_lookup_fmap, Hk. cbn.
    eexists; split; [done|]. destruct (decide (id row = i)) as [Heq|Hne].
    + split; [done|]. intros _. cbn. repeat split. all: intros; subst fields; done.
    + by split.
Qed.

(** ** Tiering *)

Lemma running_estimates_app start results extra :
  running_estimates start (results ++ extra)
  = running_estimates start results
    ++ running_estimates (start + total_estimate results) extra.
Proof.
  revert start. induction results as [|r results IH]; intros start; cbn.
  - by rewrite Z.add_0_r.
  - by rewrite IH, Z.add_assoc.
Qed.

Lemma total_estimate_app results extra :
  total_estimate (results ++ extra)
  = total_estimate results + total_estimate extra.
Proof.
  induction results as [|r results IH]; cbn; [done|]. rewrite IH. lia.
Qed.

Lemma buildL0_stream_within_budget budget ms results tokenEstimate :
  within_budget budget results tokenEstimate →
  within_budget budget (buildL0_stream budget ms results tokenEstimate).1
    (buildL0_stream budget ms results tokenEstimate).2.
Proof.
  revert results tokenEstimate.
  induction ms as [|m ms IH]; intros results tokenEstimate Hinv; cbn; [done|].
  case_decide as Hover; [done|]. apply IH.
  destruct Hinv as [-> Hall]. split.
  - rewrite total_estimate_app. cbn. lia.
  - rewrite running_estimates_app. apply Forall_app. split; [done|].
    cbn. repeat constructor. lia.
Qed.

Lemma within_budget_last budget results tokenEstimate :
  within_budget budget results tokenEstimate →
  results = [] ∨ total_estimate results ≤ budget.
Proof.
  intros [_ Hall]. destruct results as [|r results _] using rev_ind; [by left|].
  right. rewrite running_estimates_app in Hall.
  apply Forall_app in Hall as [_ Hall]. cbn in Hall.
  apply Forall_cons in Hall as [Hlast _].
  rewrite total_estimate_app. cbn. lia.
Qed.

Lemma buildL0_stream_rendered budget ms results tokenEstimate :
  Forall (λ r, ∃ m, r = toTiered m (title m +:+ ": " +:+ summary m)) results →
  Forall (λ r, ∃ m, r = toTiered m (title m +:+ ": " +:+ summary m))
    (buildL0_stream budget ms results tokenEstimate).1.
Proof.
  revert results tokenEstimate.
  induction ms as [|m ms IH]; intros results tokenEstimate Hall; cbn; [done|].
  case_decide; [done|]. apply IH, Forall_app. split; [done|].
  repeat constructor. by exists m.
Qed.

(** C3. [buildL0] respects the token budget: after each entry it emits,
    the cumulative sum of [ceil(length(text) / 4)] over the entries emitted
    so far is at most [tokens.l0_budget], across the three streams, which
    share one running estimate; each entry's text is [<title>: <summary>].
    So the sum over the whole list is at most the budget whenever anything
    is emitted, and is the empty sum otherwise. *)
Theorem buildL0_within_budget (db : IndexDB.t) (config : MichiMemConfig) :
  Forall (λ e, e ≤ tokens_l0_budget config)
    (running_estimates 0 (buildL0 db config))
  ∧ (buildL0 db config = []
     ∨ total_estimate (buildL0 db config) ≤ tokens_l0_budget config)
  ∧ total_estimate (buildL0 db config) ≤ Z.max 0 (tokens_l0_budget config)
  ∧ Forall (λ r, ∃ m, r = toTiered m (title m +:+ ": " +:+ summary m))
      (buildL0 db config).
Proof.
  unfold buildL0.
  set (budget := tokens_l0_budget config).
  pose proof (buildL0_stream_within_budget budget
                (IndexDB.getByPriority P0 20 db) [] 0) as H1.
  pose proof (buildL0_stream_rendered budget
                (IndexDB.getByPriority P0 20 db) [] 0) as R1.
  destruct (buildL0_stream budget (IndexDB.getByPriority P0 20 db) [] 0)
    as [results1 est1]; cbn in H1, R1.
  pose proof (buildL0_stream_within_budget budget
                (IndexDB.getByType insight 10 db) results1 est1) as H2.
  pose proof (buildL0_stream_rendered budget
                (IndexDB.getByType insight 10 db) results1 est1) as R2.
  destruct (buildL0_stream budget (IndexDB.getByType insight 10 db)
              results1 est1) as [results2 est2]; cbn in H2, R2.
  pose proof (buildL0_stream_within_budget budget
                (IndexDB.getByType shared 5 db) results2 est2) as H3.
  pose proof (buildL0_stream_rendered budget
                (IndexDB.getByType shared 5 db) results2 est2) as R3.
  destruct (buildL0_stream budget (IndexDB.getByType shared 5 db)
              results2 est2) as [results3 est3]; cbn in H3, R3.
  assert (within_budget budget results3 est3) as Hfinal.
  { apply H3, H2, H1. by split. }
  split; [apply Hfinal|].
  pose proof (within_budget_last _ _ _ Hfinal) as Hlast.
  split; [done|]. split.
  - destruct Hlast as [->|Hle]; cbn; lia.
  - apply R3, R2, R1. constructor.
Qed.

(** ** Lifecycle *)

Lemma archiveMemory_run h mem config w :
  ∃ (archived : bool) (w' : World.t),
    archiveMemory h mem config w = Returned archived w'
    ∧ World.db w' = World.db w
    ∧ length (World.written w')
      = (length (World.written w) + if archived then 1 else 0)%nat.
Proof.
  unfold archiveMemory. destruct (mkdirSync h _).
  - rewrite bind_run, now_iso_run. destruct (writeFileSync h _ _).
    + eexists true, _. split; [reflexivity|]. cbn.
      by rewrite length_app.
    + eexists false, _. split; [reflexivity|]. cbn. split; [done|lia].
  - eexists false, _. split; [reflexivity|]. cbn. split; [done|lia].
Qed.

Lemma runLifecycle_step_run h config result mem w :
  ∃ (result' : LifecycleResult.t) (w' : World.t),
    runLifecycle_step h config result mem w = Returned result' w'
    ∧ IndexDB.memories (World.db w')
      = filter (λ row, id row ≠ id mem) (IndexDB.memories (World.db w))
    ∧ LifecycleResult.expired result' = S (LifecycleResult.expired result)
    ∧ (LifecycleResult.archived result' + length (World.written w)
       = LifecycleResult.archived result + length (World.written w'))%nat.
Proof.
  unfold runLifecycle_step.
  destruct (archiveMemory_run h mem config w) as (archived & w1 & Hrun & Hdb & Hlen).
  rewrite bind_run, Hrun, bind_run, db_delete_run, bind_run, db_recordMetric_run.
  eexists _, _. split; [reflexivity|]. cbn. rewrite Hdb.
  split; [done|]. split; [done|]. destruct archived; lia.
Qed.

Lemma filter_no_ids (rows : list Memory) :
  filter (λ row, id row ∉ id <$> []) rows = rows.
Proof.
  induction rows as [|row rows IH]; [done|].
  rewrite filter_cons, IH. rewrite decide_True; [done|]. cbn. apply not_elem_of_nil.
Qed.

Lemma filter_filter_ids (mem : Memory) (rest : list Memory) (rows : list Memory) :
  filter (λ row, id row ∉ id <$> rest) (filter (λ row, id row ≠ id mem) rows)
  = filter (λ row, id row ∉ id <$> (mem :: rest)) rows.
Proof.
  rewrite list_filter_filter. apply list_filter_iff. intros row. cbn.
  rewrite not_elem_of_cons. tauto.
Qed.

Lemma runLifecycle_loop_run h config expired result w :
  ∃ (result' : LifecycleResult.t) (w' : World.t),
    runLifecycle_loop h config expired result w = Returned result' w'
    ∧ IndexDB.memories (World.db w')
      = filter (λ row, id row ∉ id <$> expired)
          (IndexDB.memories (World.db w))
    ∧ LifecycleResult.expired result'
      = (LifecycleResult.expired result + length expired)%nat
    ∧ (LifecycleResult.archived result' + length (World.written w)
       = LifecycleResult.archived result + length (World.written w'))%nat
    ∧ (LifecycleResult.archived result ≤ LifecycleResult.archived result'
       ≤ LifecycleResult.archived result + length expired)%nat.
Proof.
  revert result w. induction expired as [|mem rest IH]; intros result w.
  - eexists _, _. split; [reflexivity|]. rewrite filter_no_ids. cbn.
    repeat split; lia.
  - destruct (runLifecycle_step_run h config result mem w)
      as (result1 & w1 & Hstep & Hrows1 & Hexp1 & Harch1).
    destruct (IH result1 w1) as (result' & w' & Hloop & Hrows & Hexp & Harch & Hbound).
    exists result', w'. cbn [runLifecycle_loop].
    rewrite bind_run, Hstep, Hloop. split; [done|].
    rewrite Hrows, Hrows1, filter_filter_ids. split; [done|].
    cbn [length]. 
    pose proof (archiveMemory_run h mem config w) as (a & wa & Ha & _ & Hlen).
    assert (LifecycleResult.archived result ≤ LifecycleResult.archived result1
            ≤ S (LifecycleResult.archived result))%nat as Hone.
    { revert Hstep. unfold runLifecycle_step.
      rewrite bind_run, Ha, bind_run, db_delete_run, bind_run, db_recordMetric_run.
      intros [= <- _]. cbn. destruct a; lia. }
    repeat split; lia.
Qed.

Lemma getExpired_ids now db :
  id <$> IndexDB.getExpired now db
  = id <$> filter (IndexDB.is_expired now) (IndexDB.memories db).
Proof.
  unfold IndexDB.getExpired. rewrite <- list_fmap_compose.
  by apply list_fmap_ext.
Qed.

(** C5. [runLifecycle] returns, and when it has returned: no row whose
    [expires_at] is before the clock reading of [getExpired] remains; every
    record [getExpired] listed is gone from the table, whether or not its
    archive file could be written; the rows that remain were there before;
    [expired] counts the records listed, [archived] counts the archive
    files written, so [archived <= expired]. *)
Theorem runLifecycle_drains_expired (h : Host) (config : MichiMemConfig)
  (w : World.t) :
  let now := reading h w in
  ∃ (result : LifecycleResult.t) (w' : World.t),
    runLifecycle h config w = Returned result w'
    ∧ (∀ row, row ∈ IndexDB.memories (World.db w') →
              ¬ IndexDB.is_expired now row)
    ∧ (∀ mem, mem ∈ IndexDB.getExpired now (World.db w) →
              id mem ∉ IndexDB.ids (World.db w'))
    ∧ (∀ row, row ∈ IndexDB.memories (World.db w') →
              row ∈ IndexDB.memories (World.db w))
    ∧ LifecycleResult.expired result
      = length (IndexDB.getExpired now (World.db w))
    ∧ (LifecycleResult.archived result + length (World.written w)
       = length (World.written w'))%nat
    ∧ (LifecycleResult.archived result ≤ LifecycleResult.expired result)%nat.
Proof.
  cbn. unfold runLifecycle. rewrite bind_run, db_getExpired_run.
  set (now := reading h w).
  set (expired := IndexDB.getExpired now (World.db w)).
  destruct (runLifecycle_loop_run h config expired
              {| LifecycleResult.expired := 0; LifecycleResult.archived := 0 |}
              (tick_clock w))
    as (result & w' & Hloop & Hrows & Hexp & Harch & Hbound).
  exists result, w'. split; [done|]. cbn in Hrows, Hexp, Harch, Hbound.
  assert (∀ row, row ∈ IndexDB.memories (World.db w') →
                 row ∈ IndexDB.memories (World.db w)
                 ∧ id row ∉ id <$> expired) as Hkept.
  { intros row. rewrite Hrows, list_elem_of_filter. tauto. }
  repeat split.
  - intros row Hin Hexpired. destruct (Hkept row Hin) as [Hold Hnot].
    apply Hnot. unfold expired. rewrite getExpired_ids.
    apply list_elem_of_fmap_2. by apply list_elem_of_filter.
  - intros mem Hmem Hid. unfold IndexDB.ids in Hid.
    apply list_elem_of_fmap in Hid as (row & Heq & Hin).
    destruct (Hkept row Hin) as [_ Hnot]. apply Hnot. rewrite <- Heq.
    by apply list_elem_of_fmap_2.
  - intros row Hin. by destruct (Hkept row Hin).
  - done.
  - lia.
  - lia.
Qed.

(** ** Clustering *)

Lemma elem_of_concat {A} (x : A) (ls : list (list A)) :
  x ∈ concat ls ↔ ∃ l, l ∈ ls ∧ x ∈ l.
Proof.
  rewrite list_elem_of_In, in_concat. split.
  - intros (l & Hl & Hx). exists l. by rewrite !list_elem_of_In.
  - intros (l & Hl & Hx). exists l. by rewrite <- !list_elem_of_In.
Qed.

Lemma NoDup_fmap_eq {A B} (f : A → B) (l : list A) (x y : A) :
  NoDup (f <$> l) → x ∈ l → y ∈ l → f x = f y → x = y.
Proof.
  induction l as [|a l IH]; cbn; [by intros _ ?%elem_of_nil|].
  rewrite NoDup_cons. intros [Hnot Hnd] Hx Hy Hf.
  apply elem_of_cons in Hx as [->|Hx], Hy as [->|Hy]; [done| | |by apply IH].
  - destruct Hnot. rewrite Hf. by apply list_elem_of_fmap_2.
  - destruct Hnot. rewrite <- Hf. by apply list_elem_of_fmap_2.
Qed.

Lemma NoDup_concat_unique {A} (ls : list (list A)) (i j : nat)
  (l1 l2 : list A) (x : A) :
  NoDup (concat ls) → ls !! i = Some l1 → ls !! j = Some l2 →
  x ∈ l1 → x ∈ l2 → i = j.
Proof.
  revert i j. induction ls as [|l ls IH]; intros i j; cbn; [done|].
  rewrite NoDup_app. intros (_ & Hdisj & Hnd) Hi Hj Hx1 Hx2.
  destruct i as [|i], j as [|j]; cbn in *.
  - done.
  - injection Hi as ->. destruct (Hdisj x Hx1).
    apply elem_of_concat. exists l2. split; [|done].
    by apply list_elem_of_lookup_2 in Hj.
  - injection Hj as ->. destruct (Hdisj x Hx2).
    apply elem_of_concat. exists l1. split; [|done].
    by apply list_elem_of_lookup_2 in Hi.
  - f_equal. by apply IH.
Qed.

(** The companions the inner loop adds to a seed's group. *)
Lemma groupByOverlap_inner_spec h memWords others group assigned :
  ∃ added : list Memory,
    groupByOverlap_inner h memWords others group assigned
    = (group ++ added, list_to_set (id <$> added) ∪ assigned)
    ∧ NoDup (id <$> added)
    ∧ (∀ x, x ∈ added →
            x ∈ others ∧ id x ∉ assigned
            ∧ overlaps memWords (extractWords h x) = true)
    ∧ (∀ x, x ∈ others → id x ∈ list_to_set (id <$> added) ∪ assigned
                         ∨ overlaps memWords (extractWords h x) = false).
Proof.
  revert group assigned.
  induction others as [|other rest IH]; intros group assigned; cbn.
  - exists []. rewrite app_nil_r. cbn. split; [f_equal; set_solver|].
    split; [constructor|]. split; intros x Hx; by apply elem_of_nil in Hx.
  - destruct (decide (id other ∈ assigned)) as [Hin|Hnot].
    { destruct (IH group assigned) as (added & -> & Hnd & Hadded & Hrest).
      exists added. split; [done|]. split; [done|]. split.
      - intros x Hx. destruct (Hadded x Hx) as (? & ? & ?).
        split; [by right|done].
      - intros x [->|Hx]%elem_of_cons; [left; set_solver|by apply Hrest]. }
    destruct (overlaps memWords (extractWords h other)) eqn:Hov.
    + destruct (IH (group ++ [other]) ({[id other]} ∪ assigned))
        as (added & -> & Hnd & Hadded & Hrest).
      exists (other :: added). rewrite <- app_assoc. cbn.
      split; [f_equal; set_solver|]. split.
      { apply NoDup_cons. split; [|done].
        intros (x & Heq & Hx)%list_elem_of_fmap.
        destruct (Hadded x Hx) as (_ & Hfresh & _). set_solver. }
      split.
      * intros x [->|Hx]%elem_of_cons; [by split; [left|]|].
        destruct (Hadded x Hx) as (? & ? & ?).
        split; [by right|]. split; [set_solver|done].
      * intros x [->|Hx]%elem_of_cons; [left; set_solver|].
        destruct (Hrest x Hx) as [?|?]; [left; set_solver|by right].
    + destruct (IH group assigned) as (added & -> & Hnd & Hadded & Hrest).
      exists added. split; [done|]. split; [done|]. split.
      * intros x Hx. destruct (Hadded x Hx) as (? & ? & ?).
        split; [by right|done].
      * intros x [->|Hx]%elem_of_cons; [by right|by apply Hrest].
Qed.

Lemma groupByOverlap_outer_spec h memories todo groups assigned :
  (∀ x, x ∈ todo → x ∈ memories) →
  grouping h memories groups assigned →
  ∃ assigned',
    grouping h memories (groupByOverlap_outer h memories todo groups assigned)
      assigned'
    ∧ assigned ⊆ assigned'
    ∧ ∀ x, x ∈ todo → id x ∈ assigned'.
Proof.
  revert groups assigned.
  induction todo as [|mem rest IH]; intros groups assigned Htodo Hinv; cbn.
  - exists assigned. split; [done|]. split; [done|].
    intros x Hx. by apply elem_of_nil in Hx.
  - assert (∀ x, x ∈ rest → x ∈ memories) as Hrest.
    { intros x Hx. apply Htodo. by right. }
    destruct (decide (id mem ∈ assigned)) as [Hin|Hnot].
    { destruct (IH groups assigned Hrest Hinv) as (assigned' & Hinv' & Hsub & Hall).
      exists assigned'. split; [done|]. split; [done|].
      intros x [->|Hx]%elem_of_cons; [set_solver|by apply Hall]. }
    destruct (groupByOverlap_inner_spec h (extractWords h mem) memories [mem]
                ({[id mem]} ∪ assigned))
      as (added & -> & Hnd & Hadded & _).
    destruct Hinv as [Hassigned Hnodup Hmembers Hseeds].
    edestruct (IH (groups ++ [[mem] ++ added])
                 (list_to_set (id <$> added) ∪ ({[id mem]} ∪ assigned)) Hrest)
      as (assigned' & Hinv' & Hsub & Hall).
    { split.
      - rewrite concat_app, fmap_app. cbn. rewrite app_nil_r.
        rewrite list_to_set_app_L, list_to_set_cons, <- Hassigned. set_solver.
      - rewrite concat_app, fmap_app. cbn. rewrite app_nil_r.
        apply NoDup_app. split; [done|]. split.
        + intros i Hi. rewrite Hassigned in Hnot.
          intros [->|Hi']%elem_of_cons; [set_solver|].
          apply list_elem_of_fmap in Hi' as (x & -> & Hx).
          destruct (Hadded x Hx) as (_ & Hfresh & _). set_solver.
        + apply NoDup_cons. split; [|done].
          intros (x & Heq & Hx)%list_elem_of_fmap.
          destruct (Hadded x Hx) as (_ & Hfresh & _). set_solver.
      - intros x. rewrite concat_app, elem_of_app. cbn. rewrite app_nil_r.
        intros [Hx|[->|Hx]%elem_of_cons]; [by apply Hmembers| |].
        + apply Htodo. by left.
        + by destruct (Hadded x Hx).
      - intros g [Hg|Hg%list_elem_of_singleton]%elem_of_app; [by apply Hseeds|].
        subst g. exists mem, added. split; [done|].
        intros x Hx. by destruct (Hadded x Hx) as (_ & _ & ?). }
    exists assigned'. split; [done|]. split; [set_solver|].
    intros x [->|Hx]%elem_of_cons; [set_solver|by apply Hall].
Qed.

Lemma groupByOverlap_grouping h memories :
  ∃ assigned,
    grouping h memories (groupByOverlap h memories) assigned
    ∧ ∀ x, x ∈ memories → id x ∈ assigned.
Proof.
  unfold groupByOverlap. destruct (decide (length memories = 0%nat)) as [Hlen|_].
  - apply nil_length_inv in Hlen. subst memories. exists ∅. split.
    + split; cbn; [set_solver|constructor| |]; intros x Hx;
        by apply elem_of_nil in Hx.
    + intros x Hx. by apply elem_of_nil in Hx.
  - destruct (groupByOverlap_outer_spec h memories memories [] ∅)
      as (assigned & Hinv & _ & Hall); [done| |by exists assigned].
    split; cbn; [set_solver|constructor| |]; intros x Hx;
      by apply elem_of_nil in Hx.
Qed.

Lemma computeOverlap_empty (a b : gset string) :
  size a = 0%nat ∨ size b = 0%nat →
  computeOverlap a b = 0%Q ∧ overlaps a b = false.
Proof.
  intros Hempty. unfold overlaps, computeOverlap.
  by rewrite decide_True.
Qed.

(** C4. [groupByOverlap] is a function of its input, and on a list of
    records with distinct ids its output is a partition of the input: the
    groups put end to end are a rearrangement of the input, so every input
    memory is in a group, and in one group only.  When a word set is empty
    the overlap is [0], below the threshold, so a memory without words has
    its group for itself: it joins no other seed's group and as a seed it
    gathers no one. *)
Theorem groupByOverlap_partition (h : Host) (memories : list Memory) :
  NoDup (id <$> memories) →
  (∀ memories', memories' = memories →
                groupByOverlap h memories' = groupByOverlap h memories)
  ∧ concat (groupByOverlap h memories) ≡ₚ memories
  ∧ (∀ m, m ∈ memories →
          ∃ (k : nat) (g : list Memory),
            groupByOverlap h memories !! k = Some g ∧ m ∈ g
            ∧ ∀ (k' : nat) (g' : list Memory),
                groupByOverlap h memories !! k' = Some g' → m ∈ g' → k' = k)
  ∧ (∀ a b : gset string,
       size a = 0%nat ∨ size b = 0%nat →
       computeOverlap a b = 0%Q ∧ overlaps a b = false)
  ∧ (∀ g m, g ∈ groupByOverlap h memories → m ∈ g →
            size (extractWords h m) = 0%nat → g = [m]).
Proof.
  intros Hids.
  destruct (groupByOverlap_grouping h memories)
    as (assigned & [Hassigned Hnodup Hmembers Hseeds] & Hall).
  assert (NoDup (concat (groupByOverlap h memories))) as Hnd
    by by eapply NoDup_fmap_1.
  assert (concat (groupByOverlap h memories) ≡ₚ memories) as Hperm.
  { apply NoDup_Permutation; [done|by eapply NoDup_fmap_1|].
    intros x. split; [apply Hmembers|]. intros Hx.
    pose proof (Hall x Hx) as Hid. rewrite Hassigned in Hid.
    apply elem_of_list_to_set, list_elem_of_fmap in Hid as (y & Heq & Hy).
    by rewrite (NoDup_fmap_eq id memories x y Hids Hx (Hmembers y Hy) Heq). }
  split; [by intros ? ->|]. split; [done|]. split; [|split].
  - intros m Hm. rewrite <- Hperm in Hm.
    apply elem_of_concat in Hm as (g & Hg & Hmg).
    apply list_elem_of_lookup in Hg as [k Hk].
    exists k, g. split; [done|]. split; [done|].
    intros k' g' Hk' Hmg'. by eapply NoDup_concat_unique.
  - apply computeOverlap_empty.
  - intros g m Hg Hm Hsize.
    destruct (Hseeds g Hg) as (seed & rest & -> & Hrest).
    apply elem_of_cons in Hm as [->|Hm].
    + destruct rest as [|x rest]; [done|]. exfalso.
      pose proof (Hrest x (list_elem_of_here x rest)) as Hov.
      by rewrite (proj2 (computeOverlap_empty _ _ (or_introl Hsize))) in Hov.
    + exfalso. pose proof (Hrest m Hm) as Hov.
      by rewrite (proj2 (computeOverlap_empty _ _ (or_intror Hsize))) in Hov.
Qed.

Example groupByOverlap_three :
  groupByOverlap Sample.host three_memories
  = [ [Sample.row "a" diary P2 "Deployment pipeline fails" "deployment notes" ""
         ["deployment"] "2024-01-01T00:00:00.000Z" None;
       Sample.row "c" diary P2 "Fixing deployment scripts" "scripts" ""
         [] "2024-01-03T00:00:00.000Z" None];
      [Sample.row "b" diary P2 "ok" "" "" [] "2024-01-02T00:00:00.000Z" None] ].
Proof. vm_compute. reflexivity. Qed.

Lemma groupByOverlap_partition_witness :
  NoDup (id <$> three_memories)
  ∧ concat (groupByOverlap Sample.host three_memories) ≡ₚ three_memories.
Proof.
  assert (NoDup (id <$> three_memories)) as Hids
    by (apply (bool_decide_unpack _); vm_compute; exact I).
  split; [done|]. apply (groupByOverlap_partition Sample.host three_memories Hids).
Defined.

(** ** Checkpoints *)

Lemma prefix_app_l (a b s : string) :
  String.prefix (a +:+ b) s = true → String.prefix a s = true.
Proof.
  revert a. induction s as [|c' s IH]; intros [|c a]; try done.
  change (String c a +:+ b) with (String c (a +:+ b)). cbn.
  destruct (Ascii.ascii_dec c c'); [apply IH|done].
Qed.

Lemma head_reverse_sorted_max (l : list string) (top : string) :
  head (reverse (merge_sort String.le l)) = Some top →
  top ∈ l ∧ ∀ f, f ∈ l → String.le f top.
Proof.
  pose proof (StronglySorted_merge_sort String.le l) as Hsorted.
  pose proof (merge_sort_Permutation String.le l) as Hperm.
  revert Hsorted Hperm. generalize (merge_sort String.le l). intros sorted.
  destruct sorted as [|x sorted _] using rev_ind; [done|].
  rewrite reverse_snoc. cbn. intros Hsorted Hperm [= <-]. split.
  - rewrite <- Hperm. apply elem_of_app. right. by left.
  - intros f. rewrite <- Hperm. intros [Hf|Hf%list_elem_of_singleton]%elem_of_app.
    + by apply (StronglySorted_app_1_elem_of _ _ _ f x Hsorted); [|left].
    + by subst f.
Qed.

Lemma head_reverse_sorted_nil (l : list string) :
  head (reverse (merge_sort String.le l)) = None → l = [].
Proof.
  pose proof (merge_sort_Permutation String.le l) as Hperm.
  destruct (merge_sort String.le l) as [|x sorted _] using rev_ind.
  - intros _. by apply Permutation_nil_l in Hperm.
  - by rewrite reverse_snoc.
Qed.

Lemma getLatestCheckpoint_unfold h config sessionId :
  getLatestCheckpoint h config sessionId =
  let checkpointDir := path_join h (data_dir config) "checkpoints" in
  if negb (existsSync h checkpointDir) then None
  else
    latest ← head (reverse (merge_sort String.le
                     (filter (λ f, Str.startsWith sessionId f = true
                                   ∧ Str.endsWith ".json" f = true)
                        (readdirSync h checkpointDir))));
    raw ← readFileSync h (path_join h checkpointDir latest);
    JSON_parse_checkpoint h raw.
Proof.
  unfold getLatestCheckpoint. cbn. destruct (negb _); [done|].
  by destruct (reverse _).
Qed.

Lemma session_files_eq h config sessionId :
  no_longer_session h config sessionId →
  filter (λ f, Str.startsWith sessionId f = true
               ∧ Str.endsWith ".json" f = true)
    (readdirSync h (path_join h (data_dir config) "checkpoints"))
  = session_files h config sessionId.
Proof.
  unfold no_longer_session, session_files.
  induction 1 as [|f fs Hf _ IH]; [done|].
  rewrite !filter_cons, IH.
  destruct (decide (Str.startsWith sessionId f = true
                    ∧ Str.endsWith ".json" f = true)) as [[H1 H2]|Hn].
  - by rewrite decide_True by (split; [by apply Hf|done]).
  - rewrite decide_False; [done|]. intros [H1 H2]. apply Hn.
    split; [|done]. by eapply prefix_app_l.
Qed.

(** C6, as the code has it.  In a checkpoint directory where no other
    session's id extends this one (every [.json] file whose name starts
    with the session id goes on with [-]), [getLatestCheckpoint] reads one
    file only, the lexicographically greatest of the session's checkpoint
    filenames: its result is what reading and parsing that file gives,
    [null] when either fails, and [null] when the directory is missing or
    holds no file of the session. *)
Theorem getLatestCheckpoint_reads_greatest_only (h : Host)
  (config : MichiMemConfig) (sessionId : string) :
  no_longer_session h config sessionId →
  let checkpointDir := path_join h (data_dir config) "checkpoints" in
  (existsSync h checkpointDir = false
   ∨ session_files h config sessionId = [] →
   getLatestCheckpoint h config sessionId = None)
  ∧ (existsSync h checkpointDir = true →
     ∀ latest : string,
       latest ∈ session_files h config sessionId →
       Forall (λ f, String.le f latest) (session_files h config sessionId) →
       getLatestCheckpoint h config sessionId
       = readFileSync h (path_join h checkpointDir latest)
           ≫= JSON_parse_checkpoint h).
Proof.
  intros Hno. cbn. rewrite getLatestCheckpoint_unfold. cbn.
  rewrite (session_files_eq _ _ _ Hno). split.
  - intros [Hmissing|Hnone].
    + by rewrite Hmissing.
    + rewrite Hnone. by destruct (negb _).
  - intros -> latest Hin Hmax. cbn.
    destruct (head _) as [top|] eqn:Hhead.
    + apply head_reverse_sorted_max in Hhead as [Htop Hle].
      rewrite Forall_forall in Hmax.
      assert (top = latest) as ->; [|done].
      apply (anti_symm String.le); [by apply Hmax|by apply Hle].
    + apply head_reverse_sorted_nil in Hhead. rewrite Hhead in Hin.
      by apply elem_of_nil in Hin.
Qed.

Lemma getLatestCheckpoint_reads_greatest_only_witness :
  no_longer_session Sample.host Sample.config "abc"
  ∧ getLatestCheckpoint Sample.host Sample.config "abc"
    = readFileSync Sample.host "/data/checkpoints/abc-1704067200500.json"
        ≫= JSON_parse_checkpoint Sample.host.
Proof.
  assert (no_longer_session Sample.host Sample.config "abc") as Hno
    by (apply (bool_decide_unpack _); vm_compute; exact I).
  split; [exact Hno|].
  apply (getLatestCheckpoint_reads_greatest_only Sample.host Sample.config
           "abc" Hno).
  - reflexivity.
  - apply (bool_decide_unpack _); vm_compute; exact I.
  - apply (bool_decide_unpack _); vm_compute; exact I.
Defined.

(** C6 as stated fails: the directory holds a checkpoint of session [abc]
    that reads and parses, and a later file of the session that does not
    parse; the result is [null]. *)
Lemma getLatestCheckpoint_ignores_earlier_parseable :
  "abc-1704067200000.json" ∈ session_files Sample.host Sample.config "abc"
  ∧ (readFileSync Sample.host "/data/checkpoints/abc-1704067200000.json"
       ≫= JSON_parse_checkpoint Sample.host) = Some Sample.checkpoint_abc
  ∧ getLatestCheckpoint Sample.host Sample.config "abc" = None.
Proof.
  split; [apply (bool_decide_unpack _); vm_compute; exact I|].
  split; vm_compute; reflexivity.
Qed.

(** ** Extraction *)

Lemma as_messages_run lines w :
  as_messages lines w
  = match messages_of lines with
    | Some messages => Returned messages w
    | None => Thrown w
    end.
Proof. unfold as_messages. by destruct (messages_of lines). Qed.

Lemma buildDiary_on_run h messages config w :
  ∃ (d : MemoryInput.t) (w' : World.t),
    buildDiary_on h messages config w = Returned d w'
    ∧ MemoryInput.type d = diary ∧ MemoryInput.priority d = P2
    ∧ World.db w' = World.db w
    ∧ World.written w' = World.written w
    ∧ is_Some (MemoryInput.expires_at d).
Proof.
  unfold buildDiary_on. rewrite bind_run.
  destruct (decide (Str.slice 0 100 _ = "")); cbn;
    (eexists _, _; split; [reflexivity|]; cbn; by eauto 10).
Qed.




(** What [extractFromTranscript] does, by the lines read. *)
Lemma extractFromTranscript_run h transcriptPath config w :
  match readMessages h transcriptPath with
  | None =>
      extractFromTranscript h transcriptPath config w
      = Returned ExtractedMemories.empty w
  | Some lines =>
      if decide (length lines < 4)%nat
      then extractFromTranscript h transcriptPath config w
           = Returned ExtractedMemories.empty w
      else
        match messages_of lines with
        | None => extractFromTranscript h transcriptPath config w = Thrown w
        | Some messages =>
            ∃ d w',
              buildDiary_on h messages config w = Returned d w'
              ∧ extractFromTranscript h transcriptPath config w
                = Returned
                    {| ExtractedMemories.diary := Some d;
                       ExtractedMemories.corrections :=
                         extractCorrections h messages;
                       ExtractedMemories.preferences :=
                         extractPreferences h messages |} w'
              ∧ MemoryInput.type d = diary ∧ MemoryInput.priority d = P2
              ∧ World.db w' = World.db w
              ∧ World.written w' = World.written w
              ∧ is_Some (MemoryInput.expires_at d)
        end
  end.
Proof.
  unfold extractFromTranscript.
  destruct (readMessages h transcriptPath) as [lines|]; [|done].
  case_decide as Hlen; [done|].
  unfold buildDiary. rewrite !bind_run, as_messages_run.
  destruct (messages_of lines) as [messages|] eqn:Hlines; [|done].
  destruct (buildDiary_on_run h messages config w)
    as (d & w' & Hrun & Hty & Hprio & Hdb & Hfiles & Hexp).
  exists d, w'. rewrite Hrun, bind_run, as_messages_run, Hlines.
  by cbn.
Qed.



(** C9. When the transcript parses to fewer than four messages, the
    output of [extractFromTranscript] is empty in its three members: the
    correction and preference patterns are not even run. *)
Theorem extractFromTranscript_short_transcript (h : Host)
  (transcriptPath : string) (config : MichiMemConfig) (w : World.t)
  (lines : list Line) :
  readMessages h transcriptPath = Some lines →
  (length lines < 4)%nat →
  extractFromTranscript h transcriptPath config w
  = Returned ExtractedMemories.empty w
  ∧ ExtractedMemories.diary ExtractedMemories.empty = None
  ∧ ExtractedMemories.corrections ExtractedMemories.empty = []
  ∧ ExtractedMemories.preferences ExtractedMemories.empty = [].
Proof.
  intros Hread Hshort. unfold extractFromTranscript.
  rewrite Hread. by rewrite decide_True.
Qed.

Lemma extractFromTranscript_short_transcript_witness :
  readMessages Sample.host "/tmp/short.jsonl"
  = Some [LMessage (Sample.message "user" Sample.tabs_text)]
  ∧ extractPreferences Sample.host [Sample.message "user" Sample.tabs_text]
    ≠ []
  ∧ extractFromTranscript Sample.host "/tmp/short.jsonl" Sample.config
      (Sample.world_of_rows [])
    = Returned ExtractedMemories.empty (Sample.world_of_rows []).
Proof.
  split; [vm_compute; reflexivity|]. split; [vm_compute; discriminate|].
  apply (extractFromTranscript_short_transcript Sample.host "/tmp/short.jsonl"
           Sample.config (Sample.world_of_rows [])
           [LMessage (Sample.message "user" Sample.tabs_text)]).
  - vm_compute; reflexivity.
  - cbn; lia.
Defined.

(** ** Searching *)

Lemma search_unfold h query limit db :
  IndexDB.search h query limit db
  = (λ selects, take limit (ranked_hits h query selects db))
      <$> fts_match h query.
Proof. unfold IndexDB.search. by destruct (fts_match h query). Qed.

Lemma ranked_hits_elem_of h query selects db r :
  r ∈ ranked_hits h query selects db ↔
  ∃ row, row ∈ IndexDB.memories db ∧ selects row = true
         ∧ r = {| SearchResult.memory := IndexDB.rowToMemory row;
                  SearchResult.rank :=
                    fts_rank h query (IndexDB.memories db) row |}.
Proof.
  unfold ranked_hits. rewrite merge_sort_Permutation, list_elem_of_fmap.
  split.
  - intros (row & -> & [Hsel Hin]%list_elem_of_filter). by exists row.
  - intros (row & Hin & Hsel & ->). exists row.
    split; [done|]. by apply list_elem_of_filter.
Qed.

Lemma ranked_hits_nil h query selects db :
  ranked_hits h query selects db = [] ↔
  Forall (λ row, selects row = false) (IndexDB.memories db).
Proof.
  rewrite Forall_forall. split.
  - intros Hnil row Hin. destruct (selects row) eqn:Hsel; [|done].
    assert ({| SearchResult.memory := IndexDB.rowToMemory row;
               SearchResult.rank := fts_rank h query (IndexDB.memories db) row |}
            ∈ ranked_hits h query selects db) as Hhit
      by (apply ranked_hits_elem_of; by exists row).
    rewrite Hnil in Hhit. by apply elem_of_nil in Hhit.
  - intros Hall. destruct (ranked_hits h query selects db) as [|r rs] eqn:Hhits;
      [done|].
    assert (r ∈ ranked_hits h query selects db) as Hr
      by (rewrite Hhits; by left).
    apply ranked_hits_elem_of in Hr as (row & Hin & Hsel & _).
    rewrite (Hall row Hin) in Hsel. done.
Qed.

(** ** The [Stop] hook *)

Lemma insert_candidates_app h before after w :
  insert_candidates h (before ++ after) w
  = (insert_candidates h before ≫= λ _, insert_candidates h after) w.
Proof.
  revert w. induction before as [|c before IH]; intros w; cbn; [done|].
  rewrite !bind_run. destruct (insert_unless_found h c w) as [[] w1|w1];
    [|done].
  apply IH.
Qed.

Lemma handleStop_run h input config w :
  HookInput.stop_hook_active input ≠ Some true →
  handleStop h input config w
  = (extractFromTranscript h (HookInput.transcript_path input) config
     ≫= λ extracted,
       (match ExtractedMemories.diary extracted with
        | Some d => db_insert h d ≫= λ _, mret tt
        | None => mret tt
        end)
       ≫= λ _,
         insert_candidates h
           (ExtractedMemories.corrections extracted
            ++ ExtractedMemories.preferences extracted)
         ≫= λ _,
           db_recordMetric h "stop_extract"
             [("session_id", JStr (HookInput.session_id input));
              ("diary",
               JBool (bool_decide
                        (is_Some (ExtractedMemories.diary extracted))));
              ("corrections",
               JNum (Z.of_nat
                       (length (ExtractedMemories.corrections extracted))));
              ("preferences",
               JNum (Z.of_nat
                       (length (ExtractedMemories.preferences extracted))))])
      w.
Proof.
  intros Hactive. unfold handleStop. rewrite decide_False by done.
  rewrite !bind_run.
  destruct (extractFromTranscript h _ config w) as [extracted w0|w0]; [|done].
  destruct (ExtractedMemories.diary extracted) as [d|]; rewrite !bind_run.
  - destruct (db_insert h d w0) as [memory w1|w1]; [|done]. cbn.
    rewrite !bind_run, insert_candidates_app, bind_run.
    by destruct (insert_candidates h _ w1) as [[] w2|w2].
  - cbn. rewrite !bind_run, insert_candidates_app, bind_run.
    by destruct (insert_candidates h _ w0) as [[] w2|w2].
Qed.

(** The existence check of one candidate: its title is handed to the
    full-text engine as a query. *)
Lemma insert_unless_found_run h candidate w :
  match fts_match h (MemoryInput.title candidate) with
  | None => insert_unless_found h candidate w = Thrown w
  | Some selects =>
      if decide (Exists (λ row, selects row = true)
                   (IndexDB.memories (World.db w)))
      then insert_unless_found h candidate w = Returned tt w
      else insert_unless_found h candidate w
           = (db_insert h candidate ≫= λ _, mret tt) w
  end.
Proof.
  unfold insert_unless_found.
  rewrite bind_run, db_search_run, search_unfold.
  destruct (fts_match h (MemoryInput.title candidate)) as [selects|]; [|done].
  cbn. destruct (decide (Exists _ _)) as [Hhit|Hnone].
  - rewrite decide_False; [done|].
    intros Hlen%nil_length_inv.
    destruct (ranked_hits h _ selects (World.db w)) as [|r rs] eqn:Hhits;
      [|done].
    apply ranked_hits_nil in Hhits. apply Exists_exists in Hhit as (row & Hin & Hsel).
    rewrite Forall_forall in Hhits. rewrite (Hhits row Hin) in Hsel. done.
  - rewrite decide_True; [done|].
    assert (ranked_hits h (MemoryInput.title candidate) selects (World.db w) = [])
      as ->; [|done].
    apply ranked_hits_nil. apply Forall_forall. intros row Hin.
    destruct (selects row) eqn:Hsel; [|done]. destruct Hnone.
    apply Exists_exists. by exists row.
Qed.

(** C1 fails on the code by a slip.  [handleStop] tests whether a record
    with the candidate's title exists by [db.search(candidate.title, 1)],
    which hands the title to the full-text engine as a query.  When the
    engine rejects the title of the first candidate, as FTS5 does for the
    colon of [Correction: ...] and [Preference: ...], the handler throws
    there: whatever the table holds, no candidate is inserted (at most
    the diary is), and no [stop_extract] metric is recorded. *)
Theorem handleStop_throws_at_first_candidate (h : Host)
  (input : HookInput.t) (config : MichiMemConfig) (w : World.t)
  (first_title : string) :
  HookInput.stop_hook_active input ≠ Some true →
  head (MemoryInput.title <$> stop_candidates h input config w)
  = Some first_title →
  fts_match h first_title = None →
  ∃ (w' : World.t) (added : list Memory),
    handleStop h input config w = Thrown w'
    ∧ IndexDB.memories (World.db w') = IndexDB.memories (World.db w) ++ added
    ∧ Forall (λ row, type row = diary) added
    ∧ (length added ≤ 1)%nat
    ∧ IndexDB.metrics (World.db w') = IndexDB.metrics (World.db w).
Proof.
  intros Hactive Hhead Hreject. rewrite (handleStop_run _ _ _ _ Hactive).
  unfold stop_candidates in Hhead. rewrite bind_run.
  pose proof (extractFromTranscript_run h (HookInput.transcript_path input)
                config w) as Hrun.
  destruct (readMessages h (HookInput.transcript_path input)) as [lines|];
    [|by rewrite Hrun in Hhead].
  case_decide as Hlen; [by rewrite Hrun in Hhead|].
  destruct (messages_of lines) as [messages|]; [|by rewrite Hrun in Hhead].
  destruct Hrun as (d & w0 & _ & Hrun & Hty & _ & Hdb & _).
  rewrite Hrun in Hhead. rewrite Hrun. cbn in Hhead. cbn.
  destruct (extractCorrections h messages ++ extractPreferences h messages)
    as [|candidate rest]; [done|].
  cbn in Hhead. injection Hhead as Htitle.
  pose proof (insert_unless_found_run h candidate) as Hcheck.
  rewrite Htitle, Hreject in Hcheck.
  rewrite !bind_run, db_insert_run.
  destruct (IndexDB.insert _ _ d (World.db w0)) as [[memory d']|] eqn:Hinsert.
  - apply insert_Some in Hinsert as (Hrows & Hmetrics & _ & _ & Hmty & _).
    cbn. rewrite !bind_run. cbn [insert_candidates].
    rewrite Hcheck. eexists _, [memory]. split; [reflexivity|].
    cbn. rewrite Hrows, Hmetrics, Hdb. split; [done|].
    split; [|done]. apply Forall_singleton. by rewrite Hmty.
  - eexists _, []. split; [reflexivity|]. cbn. rewrite Hdb, app_nil_r.
    split; [done|]. split; [constructor|]. split; [lia|done].
Qed.

(** The failing input of C1: a [Stop] event on the empty store for the
    transcript of a session of four messages, with an engine that
    rejects the colon.  The Extractor produces the preference
    [Preference: tabs over spaces always]; no record has that title, the
    table being empty; the handler throws and the table holds the diary
    alone. *)
Lemma handleStop_throws_at_first_candidate_witness :
  HookInput.stop_hook_active (Sample.stop_input "/tmp/session.jsonl")
  ≠ Some true
  ∧ head (MemoryInput.title
            <$> stop_candidates Sample.strict_host
                  (Sample.stop_input "/tmp/session.jsonl") Sample.config
                  (Sample.world_of_rows []))
    = Some "Preference: tabs over spaces always"
  ∧ fts_match Sample.strict_host "Preference: tabs over spaces always" = None
  ∧ IndexDB.memories (World.db (Sample.world_of_rows [])) = []
  ∧ ∃ (w' : World.t) (added : list Memory),
      handleStop Sample.strict_host (Sample.stop_input "/tmp/session.jsonl")
        Sample.config (Sample.world_of_rows [])
      = Thrown w'
      ∧ IndexDB.memories (World.db w')
        = IndexDB.memories (World.db (Sample.world_of_rows [])) ++ added
      ∧ Forall (λ row, type row = diary) added
      ∧ (length added ≤ 1)%nat
      ∧ IndexDB.metrics (World.db w')
        = IndexDB.metrics (World.db (Sample.world_of_rows [])).
Proof.
  assert (HookInput.stop_hook_active (Sample.stop_input "/tmp/session.jsonl")
          ≠ Some true) as Hactive by discriminate.
  assert (head (MemoryInput.title
                  <$> stop_candidates Sample.strict_host
                        (Sample.stop_input "/tmp/session.jsonl") Sample.config
                        (Sample.world_of_rows []))
          = Some "Preference: tabs over spaces always") as Hhead
    by (vm_compute; reflexivity).
  assert (fts_match Sample.strict_host "Preference: tabs over spaces always"
          = None) as Hreject by (vm_compute; reflexivity).
  split; [exact Hactive|]. split; [exact Hhead|]. split; [exact Hreject|].
  split; [reflexivity|].
  exact (handleStop_throws_at_first_candidate Sample.strict_host
           (Sample.stop_input "/tmp/session.jsonl") Sample.config
           (Sample.world_of_rows []) "Preference: tabs over spaces always"
           Hactive Hhead Hreject).
Defined.

(** The same slip with an engine that accepts the title as a list of
    words: the table holds one record, titled [Editor setup], whose
    content has the words of the title of the preference; no record has
    that title, yet the handler returns without inserting it. *)
Example handleStop_skips_candidate_without_title_match :
  ∃ (extracted : ExtractedMemories.t) (w0 w' : World.t),
    extractFromTranscript Sample.host "/tmp/session.jsonl" Sample.config
      (Sample.world_of_rows [editor_note])
    = Returned extracted w0
    ∧ MemoryInput.title <$> ExtractedMemories.preferences extracted
      = ["Preference: tabs over spaces always"]
    ∧ handleStop Sample.host (Sample.stop_input "/tmp/session.jsonl")
        Sample.config (Sample.world_of_rows [editor_note])
      = Returned tt w'
    ∧ title <$> IndexDB.memories (World.db w')
      = ["Editor setup"; "Session: I prefer tabs over spaces always"].
Proof.
  eexists _, _, _. split; [vm_compute; reflexivity|].
  split; [vm_compute; reflexivity|].
  split; vm_compute; reflexivity.
Qed.

(** ** [mem_store] *)










(** ** The store: lookups after writes *)

Lemma getById_unfold i db :
  IndexDB.getById i db
  = IndexDB.rowToMemory
      <$> (snd <$> list_find (λ row, id row = i) (IndexDB.memories db)).
Proof. reflexivity. Qed.

Lemma rowToMemory_id row : id (IndexDB.rowToMemory row) = id row.
Proof. reflexivity. Qed.

Lemma rowToMemory_idemp row :
  IndexDB.rowToMemory (IndexDB.rowToMemory row) = IndexDB.rowToMemory row.
Proof.
  unfold IndexDB.rowToMemory. cbn. f_equal.
  destruct (expires_at row) as [e|]; [|done].
  destruct (decide (e = "")); [done|]. by rewrite decide_False.
Qed.

Lemma rowToMemory_set_fields now fields row :
  IndexDB.rowToMemory (IndexDB.set_fields now fields (IndexDB.rowToMemory row))
  = IndexDB.rowToMemory (IndexDB.set_fields now fields row).
Proof.
  unfold IndexDB.rowToMemory, IndexDB.set_fields. cbn. f_equal.
  destruct (Fields.expires_at fields) as [e'|]; [done|]. cbn.
  destruct (expires_at row) as [e|]; [|done].
  destruct (decide (e = "")); [done|]. by rewrite decide_False.
Qed.

Lemma getById_None i db :
  IndexDB.getById i db = None ↔ i ∉ IndexDB.ids db.
Proof.
  rewrite getById_unfold. unfold IndexDB.ids.
  destruct (list_find _ _) as [[k row]|] eqn:Hfind; cbn.
  - apply list_find_Some in Hfind as (Hk & Hid & _).
    split; [done|]. intros Hnot. destruct Hnot. rewrite <- Hid.
    apply list_elem_of_fmap_2. by eapply list_elem_of_lookup_2.
  - split; [|done]. intros _ (row & -> & Hin)%list_elem_of_fmap.
    apply list_find_None in Hfind. rewrite Forall_forall in Hfind.
    by apply (Hfind row Hin).
Qed.

(** X1. After [insert] has returned a record, [getById] of its id gives
    that record back (with an empty [expires_at] read as [null]), and the
    lookup of every other id is as before. *)
Theorem insert_then_getById (now uuid : string) (input : MemoryInput.t)
  (db db' : IndexDB.t) (memory : Memory) :
  IndexDB.insert now uuid input db = Some (memory, db') →
  id memory = uuid
  ∧ IndexDB.getById uuid db = None
  ∧ IndexDB.getById uuid db' = Some (IndexDB.rowToMemory memory)
  ∧ (expires_at memory ≠ Some "" →
     IndexDB.getById uuid db' = Some memory)
  ∧ ∀ i, i ≠ uuid → IndexDB.getById i db' = IndexDB.getById i db.
Proof.
  unfold IndexDB.insert. destruct (decide (uuid ∈ IndexDB.ids db)) as [|Hfresh];
    [done|].
  intros [= <- <-]. cbn [id]. split; [done|].
  split; [by apply getById_None|].
  assert (∀ i, IndexDB.getById i
                 {| IndexDB.memories := IndexDB.memories db ++ [
                      {| id := uuid; type := MemoryInput.type input;
                         priority := MemoryInput.priority input;
                         title := MemoryInput.title input;
                         summary := MemoryInput.summary input;
                         content := MemoryInput.content input;
                         tags := default [] (MemoryInput.tags input);
                         agent_id := default "" (MemoryInput.agent_id input);
                         source_ids := default [] (MemoryInput.source_ids input);
                         created_at := now; updated_at := now;
                         expires_at := MemoryInput.expires_at input |}];
                    IndexDB.metrics := IndexDB.metrics db |}
               = match IndexDB.getById i db with
                 | Some m => Some m
                 | None =>
                     if decide (uuid = i)
                     then Some (IndexDB.rowToMemory
                      {| id := uuid; type := MemoryInput.type input;
                         priority := MemoryInput.priority input;
                         title := MemoryInput.title input;
                         summary := MemoryInput.summary input;
                         content := MemoryInput.content input;
                         tags := default [] (MemoryInput.tags input);
                         agent_id := default "" (MemoryInput.agent_id input);
                         source_ids := default [] (MemoryInput.source_ids input);
                         created_at := now; updated_at := now;
                         expires_at := MemoryInput.expires_at input |})
                     else None
                 end) as Hlookup.
  { intros i. rewrite !getById_unfold. cbn [IndexDB.memories].
    destruct (list_find (λ row, id row = i) (IndexDB.memories db))
      as [[k row]|] eqn:Hfind.
    - by rewrite (list_find_app_l _ _ _ _ _ Hfind).
    - rewrite (list_find_app_r _ _ _ Hfind). cbn.
      by destruct (decide (uuid = i)). }
  split; [|split].
  - rewrite Hlookup, (proj2 (getById_None uuid db) Hfresh).
    by rewrite decide_True.
  - intros Hexp. rewrite Hlookup, (proj2 (getById_None uuid db) Hfresh).
    rewrite decide_True by done. f_equal. unfold IndexDB.rowToMemory. cbn.
    f_equal. cbn in Hexp. destruct (MemoryInput.expires_at input) as [e|]; [|done].
    rewrite decide_False; [done|]. by intros ->.
  - intros i Hne. rewrite Hlookup. destruct (IndexDB.getById i db); [done|].
    by rewrite decide_False.
Qed.

Lemma insert_then_getById_witness :
  match IndexDB.insert "2024-01-01T00:00:00.000Z" "id-1" tabs_input
          {| IndexDB.memories := auth_rows; IndexDB.metrics := [] |} with
  | Some (memory, db') =>
      IndexDB.getById "id-1" db' = Some memory
      ∧ IndexDB.getById "k1" db'
        = IndexDB.getById "k1"
            {| IndexDB.memories := auth_rows; IndexDB.metrics := [] |}
  | None => False
  end.
Proof.
  destruct (IndexDB.insert _ _ _ _) as [[memory db']|] eqn:Hinsert.
  - destruct (insert_then_getById _ _ _ _ _ _ Hinsert)
      as (_ & _ & _ & Hget & Hother).
    split; [|by apply Hother]. apply Hget.
    vm_compute in Hinsert. injection Hinsert as <- _. discriminate.
  - vm_compute in Hinsert. discriminate.
Defined.

Lemma list_find_filter_ne i j (rows : list Memory) :
  j ≠ i →
  snd <$> list_find (λ row, id row = j) (filter (λ row, id row ≠ i) rows)
  = snd <$> list_find (λ row, id row = j) rows.
Proof.
  intros Hne. induction rows as [|row rows IH]; [done|].
  rewrite filter_cons. destruct (decide (id row ≠ i)) as [Hkeep|Hdrop].
  - cbn. destruct (decide (id row = j)); [done|].
    destruct (list_find _ (filter _ rows)) as [[k r]|],
             (list_find _ rows) as [[k' r']|]; cbn in *; congruence.
  - apply dec_stable in Hdrop. cbn. rewrite decide_False by congruence.
    rewrite IH. by destruct (list_find _ rows) as [[k r]|].
Qed.

(** X2. After [delete(id)], [getById(id)] is [null] and the lookup of every
    other id is as before; [delete] returns [true] exactly when the id was
    a key, and otherwise leaves the table as it was. *)
Theorem delete_then_getById (i : string) (db : IndexDB.t) :
  let changed := (IndexDB.delete i db).1 in
  let db' := (IndexDB.delete i db).2 in
  IndexDB.getById i db' = None
  ∧ (changed = true ↔ is_Some (IndexDB.getById i db))
  ∧ (changed = false → db' = db)
  ∧ (∀ j, j ≠ i → IndexDB.getById j db' = IndexDB.getById j db)
  ∧ IndexDB.metrics db' = IndexDB.metrics db.
Proof.
  unfold IndexDB.delete. cbn [fst snd]. split; [|split; [|split; [|split]]].
  - apply getById_None. unfold IndexDB.ids. cbn.
    intros (row & -> & [Hne _]%list_elem_of_filter)%list_elem_of_fmap. done.
  - rewrite bool_decide_eq_true. rewrite <- not_eq_None_Some, getById_None.
    split; [by intros ? ?|apply dec_stable].
  - intros Hfalse%bool_decide_eq_false. destruct db as [rows metrics].
    cbn in *. f_equal. unfold IndexDB.ids in Hfalse. cbn in Hfalse.
    induction rows as [|row rows IH]; [done|].
    cbn in Hfalse. apply not_elem_of_cons in Hfalse as [Hne Hrest].
    rewrite filter_cons, decide_True by congruence. f_equal. by apply IH.
  - intros j Hne. rewrite !getById_unfold. cbn.
    by rewrite list_find_filter_ne.
  - done.
Qed.

Lemma list_find_update i j now fields (rows : list Memory) :
  snd <$> list_find (λ row, id row = j)
            ((λ row, if decide (id row = i)
                     then IndexDB.set_fields now fields row else row) <$> rows)
  = (λ row, if decide (id row = i)
            then IndexDB.set_fields now fields row else row)
      <$> (snd <$> list_find (λ row, id row = j) rows).
Proof.
  induction rows as [|row rows IH]; [done|]. cbn.
  assert (id (if decide (id row = i)
              then IndexDB.set_fields now fields row else row) = id row) as Hid
    by by destruct (decide (id row = i)).
  rewrite Hid. destruct (decide (id row = j)); [done|].
  destruct (list_find _ (_ <$> rows)) as [[k r]|],
           (list_find _ rows) as [[k' r']|]; cbn in *; congruence.
Qed.

(** X3. After [update(id, fields)], [getById(id)] gives the record it gave
    before with the listed fields replaced and [updated_at] set to the
    clock reading; the lookup of every other id is as before. *)
Theorem update_then_getById (now i : string) (fields : Fields.t)
  (db : IndexDB.t) :
  let db' := (IndexDB.update now i fields db).2 in
  IndexDB.getById i db'
  = (λ memory, IndexDB.rowToMemory (IndexDB.set_fields now fields memory))
      <$> IndexDB.getById i db
  ∧ ∀ j, j ≠ i → IndexDB.getById j db' = IndexDB.getById j db.
Proof.
  unfold IndexDB.update. cbn [fst snd]. split.
  - rewrite !getById_unfold. cbn. rewrite list_find_update.
    destruct (list_find _ (IndexDB.memories db)) as [[k row]|] eqn:Hfind;
      [|done].
    cbn. apply list_find_Some in Hfind as (_ & Hid & _).
    rewrite decide_True by done. by rewrite rowToMemory_set_fields.
  - intros j Hne. rewrite !getById_unfold. cbn. rewrite list_find_update.
    destruct (list_find _ (IndexDB.memories db)) as [[k row]|] eqn:Hfind;
      [|done].
    cbn. apply list_find_Some in Hfind as (_ & Hid & _).
    rewrite decide_False; [done|]. congruence.
Qed.

Lemma ids_delete i db :
  IndexDB.ids (IndexDB.delete i db).2 = filter (λ j, j ≠ i) (IndexDB.ids db).
Proof.
  unfold IndexDB.ids, IndexDB.delete. cbn [snd IndexDB.memories].
  induction (IndexDB.memories db) as [|row rows IH]; [done|].
  rewrite fmap_cons, !filter_cons.
  destruct (decide (id row ≠ i)); [rewrite fmap_cons|]; by rewrite IH.
Qed.

(** X4. The primary key: if the ids of the rows are pairwise distinct, they
    still are after [insert] (when it returns), [update], [delete] and
    [recordMetric]; [update] and [recordMetric] keep the list of ids. *)
Theorem primary_key_preserved (now i : string) (input : MemoryInput.t)
  (fields : Fields.t) (ev : string) (payload : list (string * JSON))
  (db : IndexDB.t) :
  NoDup (IndexDB.ids db) →
  (∀ memory db', IndexDB.insert now i input db = Some (memory, db') →
                 NoDup (IndexDB.ids db')
                 ∧ IndexDB.ids db' = IndexDB.ids db ++ [i])
  ∧ IndexDB.ids (IndexDB.update now i fields db).2 = IndexDB.ids db
  ∧ NoDup (IndexDB.ids (IndexDB.delete i db).2)
  ∧ IndexDB.ids (IndexDB.delete i db).2
    = filter (λ j, j ≠ i) (IndexDB.ids db)
  ∧ IndexDB.ids (IndexDB.recordMetric now ev payload db) = IndexDB.ids db.
Proof.
  intros Hnd. split; [|split; [|split; [|split]]].
  - intros memory db'. unfold IndexDB.insert.
    destruct (decide (i ∈ IndexDB.ids db)) as [|Hfresh]; [done|].
    intros [= <- <-]. unfold IndexDB.ids in *. cbn. rewrite fmap_app. cbn.
    split; [|done]. apply NoDup_app. split; [done|]. split.
    + intros j Hj [->|Hin]%elem_of_cons; [done|]. by apply elem_of_nil in Hin.
    + apply NoDup_singleton.
  - unfold IndexDB.ids. cbn. rewrite <- list_fmap_compose.
    apply list_fmap_ext. intros k row _. cbn. by destruct (decide (id row = i)).
  - rewrite ids_delete. by apply NoDup_filter.
  - apply ids_delete.
  - done.
Qed.

Lemma primary_key_preserved_witness :
  NoDup (IndexDB.ids (World.db (Sample.world_of_rows auth_rows)))
  ∧ NoDup (IndexDB.ids
             (IndexDB.delete "k1" (World.db (Sample.world_of_rows auth_rows))).2).
Proof.
  assert (NoDup (IndexDB.ids (World.db (Sample.world_of_rows auth_rows))))
    as Hnd by (apply (bool_decide_unpack _); vm_compute; exact I).
  split; [exact Hnd|].
  apply (primary_key_preserved "" "k1" tabs_input Fields.empty "" [] _ Hnd).
Defined.

(** ** The store: queries *)

Lemma le_on_transitive {A} (f : A → string) :
  Transitive (λ a b, String.le (f a) (f b)).
Proof. intros a b c Hab Hbc. by etrans. Qed.

Lemma le_on_total {A} (f : A → string) :
  Total (λ a b, String.le (f a) (f b)).
Proof. intros a b. apply (total String.le). Qed.

#[global] Instance by_updated_desc_transitive :
  Transitive IndexDB.by_updated_desc.
Proof. intros a b c Hab Hbc. unfold IndexDB.by_updated_desc in *. by etrans. Qed.

#[global] Instance by_updated_desc_total : Total IndexDB.by_updated_desc.
Proof. intros a b. apply (total String.le). Qed.

#[global] Instance by_created_asc_transitive :
  Transitive IndexDB.by_created_asc.
Proof. intros a b c Hab Hbc. unfold IndexDB.by_created_asc in *. by etrans. Qed.

#[global] Instance by_created_asc_total : Total IndexDB.by_created_asc.
Proof. intros a b. apply (total String.le). Qed.

#[global] Instance by_rank_transitive : Transitive IndexDB.by_rank.
Proof. intros a b c. unfold IndexDB.by_rank. apply Qle_trans. Qed.

#[global] Instance by_rank_total : Total IndexDB.by_rank.
Proof.
  intros a b. unfold IndexDB.by_rank.
  destruct (Qlt_le_dec (SearchResult.rank a) (SearchResult.rank b));
    [left; by apply Qlt_le_weak|by right].
Qed.

Lemma StronglySorted_take {A} (R : relation A) (n : nat) (l : list A) :
  StronglySorted R l → StronglySorted R (take n l).
Proof.
  intros Hsorted. rewrite <- (take_drop n l) in Hsorted.
  by apply StronglySorted_app_1_l in Hsorted.
Qed.

(** The shape shared by the queries: [WHERE] a condition, [ORDER BY] a
    column, [LIMIT], each row read by [rowToMemory]. *)
Section query.
Context (R : relation Memory) `{!RelDecision R, !Transitive R, !Total R}.
Context (P : Memory → Prop) `{!∀ row, Decision (P row)}.
Context (HR : ∀ a b, R a b → R (IndexDB.rowToMemory a) (IndexDB.rowToMemory b)).

Lemma query_length limit rows :
  (length (IndexDB.rowToMemory <$> take limit (merge_sort R (filter P rows)))
   ≤ limit)%nat.
Proof. rewrite length_fmap, length_take. lia. Qed.

Lemma query_elem_of limit rows m :
  m ∈ IndexDB.rowToMemory <$> take limit (merge_sort R (filter P rows)) →
  ∃ row, row ∈ rows ∧ P row ∧ m = IndexDB.rowToMemory row.
Proof.
  intros (row & -> & Hin)%list_elem_of_fmap.
  apply subseteq_take in Hin.
  rewrite merge_sort_Permutation in Hin.
  apply list_elem_of_filter in Hin as [HP Hin]. by exists row.
Qed.

Lemma query_sorted limit rows :
  StronglySorted R
    (IndexDB.rowToMemory <$> take limit (merge_sort R (filter P rows))).
Proof.
  apply (StronglySorted_fmap IndexDB.rowToMemory R R); [exact HR|].
  apply StronglySorted_take. by apply StronglySorted_merge_sort.
Qed.

Lemma query_all limit rows :
  (length (filter P rows) ≤ limit)%nat →
  IndexDB.rowToMemory <$> take limit (merge_sort R (filter P rows))
  ≡ₚ IndexDB.rowToMemory <$> filter P rows.
Proof.
  intros Hlen. rewrite take_ge.
  - by rewrite merge_sort_Permutation.
  - by rewrite merge_sort_Permutation.
Qed.

End query.

(** X5. [getByType(type, limit)] and [getByPriority(p, limit)] return at
    most [limit] records, each a row of the table of that type (priority),
    ordered by [updated_at] from the latest to the earliest; when the table
    has no more than [limit] such rows, they return all of them. *)
Theorem getByType_getByPriority_sorted (ty : MemoryType) (p : Priority)
  (limit : nat) (db : IndexDB.t) :
  ((length (IndexDB.getByType ty limit db) ≤ limit)%nat
   ∧ Forall (λ m, type m = ty
                  ∧ ∃ row, row ∈ IndexDB.memories db
                           ∧ m = IndexDB.rowToMemory row)
       (IndexDB.getByType ty limit db)
   ∧ StronglySorted (λ a b, String.le (updated_at b) (updated_at a))
       (IndexDB.getByType ty limit db)
   ∧ ((length (filter (λ row, type row = ty) (IndexDB.memories db)) ≤ limit)%nat →
      IndexDB.getByType ty limit db
      ≡ₚ IndexDB.rowToMemory
           <$> filter (λ row, type row = ty) (IndexDB.memories db)))
  ∧ ((length (IndexDB.getByPriority p limit db) ≤ limit)%nat
     ∧ Forall (λ m, priority m = p
                    ∧ ∃ row, row ∈ IndexDB.memories db
                             ∧ m = IndexDB.rowToMemory row)
         (IndexDB.getByPriority p limit db)
     ∧ StronglySorted (λ a b, String.le (updated_at b) (updated_at a))
         (IndexDB.getByPriority p limit db)
     ∧ ((length (filter (λ row, priority row = p) (IndexDB.memories db))
         ≤ limit)%nat →
        IndexDB.getByPriority p limit db
        ≡ₚ IndexDB.rowToMemory
             <$> filter (λ row, priority row = p) (IndexDB.memories db))).
Proof.
  unfold IndexDB.getByType, IndexDB.getByPriority. split.
  - split; [apply query_length|]. split; [|split].
    + apply Forall_forall. intros m Hm.
      apply query_elem_of in Hm as (row & Hin & Hty & ->). split; [done|].
      by exists row.
    + apply (query_sorted IndexDB.by_updated_desc). intros a b Hab. exact Hab.
    + apply query_all.
  - split; [apply query_length|]. split; [|split].
    + apply Forall_forall. intros m Hm.
      apply query_elem_of in Hm as (row & Hin & Hty & ->). split; [done|].
      by exists row.
    + apply (query_sorted IndexDB.by_updated_desc). intros a b Hab. exact Hab.
    + apply query_all.
Qed.

Lemma insight_source_ids_elem_of db i :
  i ∈ IndexDB.insight_source_ids db ↔
  ∃ row, row ∈ IndexDB.memories db ∧ type row = insight ∧ i ∈ source_ids row.
Proof.
  unfold IndexDB.insight_source_ids. rewrite elem_of_concat. split.
  - intros (l & (row & -> & [Hty Hin]%list_elem_of_filter)%list_elem_of_fmap & Hi).
    by exists row.
  - intros (row & Hin & Hty & Hi). exists (source_ids row).
    split; [|done]. apply list_elem_of_fmap_2. by apply list_elem_of_filter.
Qed.

(** X6. [getUnprocessedDiaries(limit)] returns at most [limit] records,
    each a diary of the table whose id no insight names in its
    [source_ids], ordered by [created_at] from the earliest; a diary that
    an insight names is never returned; the [source_ids] of records that
    are not insights are not looked at. *)
Theorem getUnprocessedDiaries_unnamed_diaries (limit : nat) (db : IndexDB.t) :
  (length (IndexDB.getUnprocessedDiaries limit db) ≤ limit)%nat
  ∧ Forall (λ m, type m = diary
                 ∧ (∃ row, row ∈ IndexDB.memories db
                           ∧ m = IndexDB.rowToMemory row)
                 ∧ ∀ ins, ins ∈ IndexDB.memories db → type ins = insight →
                          id m ∉ source_ids ins)
      (IndexDB.getUnprocessedDiaries limit db)
  ∧ StronglySorted (λ a b, String.le (created_at a) (created_at b))
      (IndexDB.getUnprocessedDiaries limit db)
  ∧ (∀ d, d ∈ IndexDB.memories db → type d = diary →
          (∀ ins, ins ∈ IndexDB.memories db → type ins = insight →
                  id d ∉ source_ids ins) →
          IndexDB.rowToMemory d
          ∈ IndexDB.getUnprocessedDiaries (length (IndexDB.memories db)) db).
Proof.
  unfold IndexDB.getUnprocessedDiaries.
  split; [apply query_length|]. split; [|split].
  - apply Forall_forall. intros m Hm.
    apply query_elem_of in Hm as (row & Hin & [Hty Hnot] & ->).
    split; [done|]. split; [by exists row|].
    intros ins Hins Hinsight Hnamed. apply Hnot.
    apply insight_source_ids_elem_of. by exists ins.
  - apply (query_sorted IndexDB.by_created_asc). intros a b Hab. exact Hab.
  - intros d Hd Hty Hnot.
    rewrite (query_all IndexDB.by_created_asc); [|apply length_filter].
    apply list_elem_of_fmap_2, list_elem_of_filter. split; [|done].
    split; [done|]. intros (ins & Hins & Hinsight & Hnamed)%insight_source_ids_elem_of.
    by apply (Hnot ins).
Qed.

(** X7. [search(query, limit)] throws exactly when the engine rejects the
    query.  Otherwise it returns at most [limit] hits, each of them a row
    the engine selects, with its rank, in ascending order of rank; a
    selected row that is left out ranks no better than any hit; the list is
    empty exactly when [limit] is [0] or no row is selected. *)
Theorem search_best_ranked_first (h : Host) (query : string) (limit : nat)
  (db : IndexDB.t) :
  match IndexDB.search h query limit db with
  | None => fts_match h query = None
  | Some hits =>
      ∃ selects,
        fts_match h query = Some selects
        ∧ (length hits ≤ limit)%nat
        ∧ Forall (λ r, ∃ row, row ∈ IndexDB.memories db ∧ selects row = true
                              ∧ SearchResult.memory r = IndexDB.rowToMemory row
                              ∧ SearchResult.rank r
                                = fts_rank h query (IndexDB.memories db) row)
            hits
        ∧ StronglySorted (λ a b, (SearchResult.rank a <= SearchResult.rank b)%Q)
            hits
        ∧ (∀ row, row ∈ IndexDB.memories db → selects row = true →
                  {| SearchResult.memory := IndexDB.rowToMemory row;
                     SearchResult.rank :=
                       fts_rank h query (IndexDB.memories db) row |} ∈ hits
                  ∨ Forall (λ r, (SearchResult.rank r
                                  <= fts_rank h query (IndexDB.memories db) row)%Q)
                      hits)
        ∧ (hits = [] ↔
           limit = 0%nat
           ∨ Forall (λ row, selects row = false) (IndexDB.memories db))
  end.
Proof.
  rewrite search_unfold. destruct (fts_match h query) as [selects|]; [|done].
  cbn. exists selects. split; [done|].
  pose proof (StronglySorted_merge_sort IndexDB.by_rank
                ((λ row, {| SearchResult.memory := IndexDB.rowToMemory row;
                            SearchResult.rank :=
                              fts_rank h query (IndexDB.memories db) row |})
                   <$> filter (λ row, selects row = true) (IndexDB.memories db)))
    as Hsorted.
  fold (ranked_hits h query selects db) in Hsorted.
  split; [rewrite length_take; lia|]. split; [|split; [|split]].
  - apply Forall_forall. intros r Hr%subseteq_take.
    apply ranked_hits_elem_of in Hr as (row & Hin & Hsel & ->). by exists row.
  - by apply StronglySorted_take.
  - intros row Hin Hsel.
    assert ({| SearchResult.memory := IndexDB.rowToMemory row;
               SearchResult.rank := fts_rank h query (IndexDB.memories db) row |}
            ∈ ranked_hits h query selects db) as Hhit
      by (apply ranked_hits_elem_of; by exists row).
    rewrite <- (take_drop limit (ranked_hits h query selects db)) in Hhit, Hsorted.
    apply elem_of_app in Hhit as [Hhit|Hrest]; [by left|]. right.
    apply Forall_forall. intros r Hr.
    by apply (StronglySorted_app_1_elem_of _ _ _ r _ Hsorted Hr Hrest).
  - rewrite <- (ranked_hits_nil h query).
    destruct limit as [|limit]; [cbn; split; [intros _; by left|done]|].
    destruct (ranked_hits h query selects db) as [|r rs]; cbn.
    + split; [intros _; by right|done].
    + split; [done|]. by intros [?|?].
Qed.

(** ** The store: statistics *)

Lemma group_counts_lookup {K} `{EqDecision K} (key : Memory → K)
  (name : K → string) `{!Inj (=) (=) name} (rows : list Memory)
  (s : string) (n : nat) :
  IndexDB.group_counts key name rows !! s = Some n ↔
  ∃ k, s = name k ∧ n = length (filter (λ row, key row = k) rows)
       ∧ (0 < n)%nat.
Proof.
  unfold IndexDB.group_counts. rewrite <- elem_of_list_to_map.
  - rewrite list_elem_of_fmap. split.
    + intros (k & [= -> ->] & Hk). exists k. split; [done|]. split; [done|].
      apply elem_of_remove_dups, list_elem_of_fmap in Hk as (row & -> & Hrow).
      assert (row ∈ filter (λ row', key row' = key row) rows) as Hin
        by by apply list_elem_of_filter.
      destruct (filter _ rows); [by apply elem_of_nil in Hin|cbn; lia].
    + intros (k & -> & -> & Hpos). exists k. split; [done|].
      apply elem_of_remove_dups.
      destruct (filter (λ row, key row = k) rows) as [|row rest] eqn:Hf;
        [cbn in Hpos; lia|].
      assert (row ∈ filter (λ row, key row = k) rows) as Hin
        by (rewrite Hf; by left).
      apply list_elem_of_filter in Hin as [<- Hin].
      by apply list_elem_of_fmap_2.
  - rewrite <- list_fmap_compose.
    apply (NoDup_fmap_2 (name : K → string)), NoDup_remove_dups.
Qed.

Lemma count_by_type (rows : list Memory) :
  length rows
  = (length (filter (λ row, type row = diary) rows)
     + length (filter (λ row, type row = insight) rows)
     + length (filter (λ row, type row = knowledge) rows)
     + length (filter (λ row, type row = shared) rows))%nat.
Proof.
  induction rows as [|row rows IH]; [done|].
  rewrite !filter_cons. cbn [length]. rewrite IH.
  destruct (type row); repeat case_decide; try done; cbn [length]; lia.
Qed.

Lemma count_by_priority (rows : list Memory) :
  length rows
  = (length (filter (λ row, priority row = P0) rows)
     + length (filter (λ row, priority row = P1) rows)
     + length (filter (λ row, priority row = P2) rows))%nat.
Proof.
  induction rows as [|row rows IH]; [done|].
  rewrite !filter_cons. cbn [length]. rewrite IH.
  destruct (priority row); repeat case_decide; try done; cbn [length]; lia.
Qed.

#[global] Instance type_name_inj : Inj (=) (=) type_name.
Proof. intros [] []; cbn; congruence. Qed.

#[global] Instance priority_label_inj :
  Inj (=) (=) (λ p, "P" +:+ pretty (priority_number p)).
Proof. intros [] []; vm_compute; congruence. Qed.

Lemma group_counts_default {K} `{EqDecision K} (key : Memory → K)
  (name : K → string) `{!Inj (=) (=) name} (rows : list Memory) (k : K) :
  default 0%nat (IndexDB.group_counts key name rows !! name k)
  = length (filter (λ row, key row = k) rows).
Proof.
  destruct (IndexDB.group_counts key name rows !! name k) as [n|] eqn:Hlook.
  - apply group_counts_lookup in Hlook as (k' & Hk & -> & _); [|done].
    apply (inj name) in Hk. by subst k'.
  - cbn. destruct (length (filter (λ row, key row = k) rows)) as [|n] eqn:Hn;
      [done|].
    assert (IndexDB.group_counts key name rows !! name k = Some (S n)) as Hsome.
    { apply group_counts_lookup; [done|]. exists k. rewrite Hn.
      split; [done|]. split; [done|lia]. }
    congruence.
Qed.

(** X8. In the result of [stats()], [by_type] and [by_priority] have an
    entry exactly for the types and priorities some row has, holding the
    number of such rows (never [0]); the entries of each add up to
    [total], a missing entry counting for nothing; [expired] is at most
    [total]. *)
Theorem stats_counts_add_up (now : string) (db : IndexDB.t) :
  let s := IndexDB.stats now db in
  IndexDB.total s = length (IndexDB.memories db)
  ∧ (∀ key n, IndexDB.by_type s !! key = Some n ↔
              ∃ ty, key = type_name ty ∧ (0 < n)%nat
                    ∧ n = length (filter (λ row, type row = ty)
                                    (IndexDB.memories db)))
  ∧ (∀ key n, IndexDB.by_priority s !! key = Some n ↔
              ∃ p, key = "P" +:+ pretty (priority_number p) ∧ (0 < n)%nat
                   ∧ n = length (filter (λ row, priority row = p)
                                   (IndexDB.memories db)))
  ∧ IndexDB.total s
    = (default 0 (IndexDB.by_type s !! "diary")
       + default 0 (IndexDB.by_type s !! "insight")
       + default 0 (IndexDB.by_type s !! "knowledge")
       + default 0 (IndexDB.by_type s !! "shared"))%nat
  ∧ IndexDB.total s
    = (default 0 (IndexDB.by_priority s !! "P0")
       + default 0 (IndexDB.by_priority s !! "P1")
       + default 0 (IndexDB.by_priority s !! "P2"))%nat
  ∧ (IndexDB.expired s ≤ IndexDB.total s)%nat
  ∧ IndexDB.expired s = length (IndexDB.getExpired now db).
Proof.
  cbn. split; [done|]. split; [|split; [|split; [|split; [|split]]]].
  - intros key n. rewrite group_counts_lookup; [|apply _]. naive_solver.
  - intros key n. rewrite group_counts_lookup; [|apply _]. naive_solver.
  - rewrite (group_counts_default type type_name _ diary),
      (group_counts_default type type_name _ insight),
      (group_counts_default type type_name _ knowledge),
      (group_counts_default type type_name _ shared).
    apply count_by_type.
  - pose proof (group_counts_default priority
                  (λ p, "P" +:+ pretty (priority_number p))
                  (IndexDB.memories db)) as Hcount.
    assert (∀ p label,
              label = "P" +:+ pretty (priority_number p) →
              default 0%nat
                (IndexDB.group_counts priority
                   (λ p, "P" +:+ pretty (priority_number p))
                   (IndexDB.memories db) !! label)
              = length (filter (λ row, priority row = p) (IndexDB.memories db)))
      as Hlabel.
    { intros p label ->. apply Hcount. }
    rewrite (Hlabel P0 "P0"), (Hlabel P1 "P1"), (Hlabel P2 "P2")
      by (vm_compute; reflexivity).
    apply count_by_priority.
  - apply length_filter.
  - unfold IndexDB.getExpired. by rewrite length_fmap.
Qed.

(** ** Tiering: greedy prefixes *)

Lemma greedy_prefix_nil entry budget start : greedy_prefix entry budget start [] 0.
Proof. split; [done|]. split; [constructor|]. by intros m. Qed.

Lemma greedy_prefix_stop entry budget start m ms :
  start + estimateTokens (TieredResult.text (entry m)) > budget →
  greedy_prefix entry budget start (m :: ms) 0.
Proof.
  intros Hover. split; [cbn; lia|]. split; [constructor|].
  intros m' [= <-]. cbn. lia.
Qed.

Lemma greedy_prefix_step entry budget start m ms k :
  ¬ start + estimateTokens (TieredResult.text (entry m)) > budget →
  greedy_prefix entry budget
    (start + estimateTokens (TieredResult.text (entry m))) ms k →
  greedy_prefix entry budget start (m :: ms) (S k).
Proof.
  intros Hfits (Hk & Hall & Hnext). split; [cbn; lia|]. split.
  - cbn. constructor; [lia|done].
  - intros m' Hm'. cbn in Hm'. cbn. specialize (Hnext m' Hm'). lia.
Qed.

Lemma buildL1_loop_prefix budget ms results tokenEstimate :
  ∃ k, buildL1_loop budget ms results tokenEstimate
       = results ++ (L1_entry <$> take k ms)
       ∧ greedy_prefix L1_entry budget tokenEstimate ms k.
Proof.
  revert results tokenEstimate.
  induction ms as [|m ms IH]; intros results tokenEstimate.
  - exists 0%nat. cbn. rewrite app_nil_r. split; [done|apply greedy_prefix_nil].
  - cbn [buildL1_loop]. cbv zeta. case_decide as Hover.
    + exists 0%nat. cbn. rewrite app_nil_r. split; [done|].
      by apply greedy_prefix_stop.
    + destruct (IH (results ++ [toTiered m (buildL1_paragraph m)])
                  (tokenEstimate + estimateTokens (buildL1_paragraph m)))
        as (k & -> & Hgreedy).
      exists (S k). rewrite <- app_assoc. split; [done|].
      by apply greedy_prefix_step.
Qed.

Lemma buildL0_stream_prefix budget ms results tokenEstimate :
  ∃ k, buildL0_stream budget ms results tokenEstimate
       = (results ++ (L0_entry <$> take k ms),
          tokenEstimate + total_estimate (L0_entry <$> take k ms))
       ∧ greedy_prefix L0_entry budget tokenEstimate ms k.
Proof.
  revert results tokenEstimate.
  induction ms as [|m ms IH]; intros results tokenEstimate.
  - exists 0%nat. cbn. rewrite app_nil_r, Z.add_0_r.
    split; [done|apply greedy_prefix_nil].
  - cbn [buildL0_stream]. cbv zeta. case_decide as Hover.
    + exists 0%nat. cbn. rewrite app_nil_r, Z.add_0_r. split; [done|].
      by apply greedy_prefix_stop.
    + destruct (IH (results ++ [toTiered m (title m +:+ ": " +:+ summary m)])
                  (tokenEstimate
                   + estimateTokens (title m +:+ ": " +:+ summary m)))
        as (k & -> & Hgreedy).
      exists (S k). rewrite <- app_assoc. split.
      * cbn. f_equal. lia.
      * by apply greedy_prefix_step.
Qed.

(** X9. [buildL1] emits the paragraphs of a prefix of its input, in order:
    it stops at the first memory whose paragraph would take the running
    estimate over [tokens.l1_budget] and emits nothing after it; the
    running estimate never exceeds the budget. *)
Theorem buildL1_greedy_prefix (memories : list Memory)
  (config : MichiMemConfig) :
  ∃ k : nat,
    buildL1 memories config = L1_entry <$> take k memories
    ∧ (k ≤ length memories)%nat
    ∧ Forall (λ e, e ≤ tokens_l1_budget config)
        (running_estimates 0 (buildL1 memories config))
    ∧ ∀ m, memories !! k = Some m →
           total_estimate (buildL1 memories config)
           + estimateTokens (buildL1_paragraph m) > tokens_l1_budget config.
Proof.
  unfold buildL1.
  destruct (buildL1_loop_prefix (tokens_l1_budget config) memories [] 0)
    as (k & -> & Hk & Hall & Hnext).
  exists k. cbn. split; [done|]. split; [done|]. split; [done|].
  intros m Hm. specialize (Hnext m Hm). cbn in Hnext. lia.
Qed.

(** X10. [buildL0] emits, in this order, the entries of a prefix of the 20
    latest priority-0 records, of a prefix of the 10 latest insights and of
    a prefix of the 5 latest shared records; each stream stops at its first
    record that does not fit the estimate reached, and the streams after
    it are still tried; so at most 35 entries are emitted. *)
Theorem buildL0_three_prefixes (db : IndexDB.t) (config : MichiMemConfig) :
  let budget := tokens_l0_budget config in
  let knowledge := IndexDB.getByPriority P0 20 db in
  let insights := IndexDB.getByType insight 10 db in
  let shared_ := IndexDB.getByType shared 5 db in
  ∃ k1 k2 k3 : nat,
    buildL0 db config
    = (L0_entry <$> take k1 knowledge) ++ (L0_entry <$> take k2 insights)
      ++ (L0_entry <$> take k3 shared_)
    ∧ greedy_prefix L0_entry budget 0 knowledge k1
    ∧ greedy_prefix L0_entry budget
        (total_estimate (L0_entry <$> take k1 knowledge)) insights k2
    ∧ greedy_prefix L0_entry budget
        (total_estimate (L0_entry <$> take k1 knowledge)
         + total_estimate (L0_entry <$> take k2 insights)) shared_ k3
    ∧ (length (buildL0 db config) ≤ 35)%nat.
Proof.
  cbv zeta. unfold buildL0.
  destruct (buildL0_stream_prefix (tokens_l0_budget config)
              (IndexDB.getByPriority P0 20 db) [] 0) as (k1 & -> & H1).
  destruct (buildL0_stream_prefix (tokens_l0_budget config)
              (IndexDB.getByType insight 10 db)
              ([] ++ (L0_entry <$> take k1 (IndexDB.getByPriority P0 20 db)))
              (0 + total_estimate
                     (L0_entry <$> take k1 (IndexDB.getByPriority P0 20 db))))
    as (k2 & -> & H2).
  destruct (buildL0_stream_prefix (tokens_l0_budget config)
              (IndexDB.getByType shared 5 db)
              (([] ++ (L0_entry <$> take k1 (IndexDB.getByPriority P0 20 db)))
               ++ (L0_entry <$> take k2 (IndexDB.getByType insight 10 db)))
              (0 + total_estimate
                     (L0_entry <$> take k1 (IndexDB.getByPriority P0 20 db))
               + total_estimate
                   (L0_entry <$> take k2 (IndexDB.getByType insight 10 db))))
    as (k3 & -> & H3).
  exists k1, k2, k3. rewrite Z.add_0_l in H2, H3. cbn [app].
  split; [by rewrite <- app_assoc|]. split; [done|]. split; [done|].
  split; [done|].
  rewrite !length_app, !length_fmap, !length_take.
  assert (length (IndexDB.getByPriority P0 20 db) ≤ 20)%nat
    by (unfold IndexDB.getByPriority; rewrite length_fmap, length_take; lia).
  assert (length (IndexDB.getByType insight 10 db) ≤ 10)%nat
    by (unfold IndexDB.getByType; rewrite length_fmap, length_take; lia).
  assert (length (IndexDB.getByType shared 5 db) ≤ 5)%nat
    by (unfold IndexDB.getByType; rewrite length_fmap, length_take; lia).
  lia.
Qed.

(** ** Tiering: the injected context *)

Lemma join_cons_not_empty (sep first : string) (rest : list string) :
  first ≠ "" → Str.join sep (first :: rest) ≠ "".
Proof.
  intros Hne. unfold Str.join. destruct first as [|c first]; [done|].
  destruct rest; cbn; discriminate.
Qed.

Lemma getByPriority_priority p limit db m :
  m ∈ IndexDB.getByPriority p limit db → priority m = p.
Proof.
  unfold IndexDB.getByPriority. intros Hm.
  by apply query_elem_of in Hm as (row & _ & Hp & ->).
Qed.

Lemma getByType_type ty limit db m :
  m ∈ IndexDB.getByType ty limit db → type m = ty.
Proof.
  unfold IndexDB.getByType. intros Hm.
  by apply query_elem_of in Hm as (row & _ & Hp & ->).
Qed.

Lemma buildL0_stream_members budget ms results tokenEstimate r :
  r ∈ (buildL0_stream budget ms results tokenEstimate).1 →
  r ∈ results ∨ ∃ m, m ∈ ms ∧ r = L0_entry m.
Proof.
  destruct (buildL0_stream_prefix budget ms results tokenEstimate)
    as (k & -> & _).
  cbn. intros [Hr|Hr]%elem_of_app; [by left|right].
  apply list_elem_of_fmap in Hr as (m & -> & Hm%subseteq_take). by exists m.
Qed.

Lemma buildL0_members db config r :
  r ∈ buildL0 db config →
  ∃ m, r = L0_entry m
       ∧ (m ∈ IndexDB.getByPriority P0 20 db
          ∨ m ∈ IndexDB.getByType insight 10 db
          ∨ m ∈ IndexDB.getByType shared 5 db).
Proof.
  unfold buildL0.
  pose proof (buildL0_stream_members (tokens_l0_budget config)
                (IndexDB.getByPriority P0 20 db) [] 0) as H1.
  destruct (buildL0_stream _ (IndexDB.getByPriority P0 20 db) [] 0)
    as [results1 est1].
  pose proof (buildL0_stream_members (tokens_l0_budget config)
                (IndexDB.getByType insight 10 db) results1 est1) as H2.
  destruct (buildL0_stream _ (IndexDB.getByType insight 10 db) results1 est1)
    as [results2 est2].
  pose proof (buildL0_stream_members (tokens_l0_budget config)
                (IndexDB.getByType shared 5 db) results2 est2) as H3.
  destruct (buildL0_stream _ (IndexDB.getByType shared 5 db) results2 est2)
    as [results3 est3].
  cbn in *. intros Hr.
  destruct (H3 r Hr) as [Hr2|(m & Hm & ->)]; [|exists m; auto].
  destruct (H2 r Hr2) as [Hr1|(m & Hm & ->)]; [|exists m; auto].
  destruct (H1 r Hr1) as [Hnil|(m & Hm & ->)]; [|exists m; auto].
  by apply elem_of_nil in Hnil.
Qed.

Lemma buildL0Context_lines_bullet (items : list TieredResult.t)
  (r : TieredResult.t) :
  r ∈ items →
  TieredResult.priority r = 0 ∨ TieredResult.type r = "insight"
  ∨ TieredResult.type r = "shared" →
  "- " +:+ TieredResult.text r ∈ buildL0Context_lines items.
Proof.
  intros Hr Hgroup. unfold buildL0Context_lines.
  assert (∀ (P : TieredResult.t → Prop) `{!∀ i, Decision (P i)} (heading : string),
            P r →
            "- " +:+ TieredResult.text r
            ∈ (if decide (0 < length (filter P items))%nat
               then heading :: ((λ i, "- " +:+ TieredResult.text i)
                                  <$> filter P items)
               else [])) as Hsection.
  { intros P ? heading HP.
    assert (r ∈ filter P items) as Hin by by apply list_elem_of_filter.
    rewrite decide_True.
    - right. by apply (list_elem_of_fmap_2 (λ i, "- " +:+ TieredResult.text i)).
    - destruct (filter P items); [by apply elem_of_nil in Hin|cbn; lia]. }
  rewrite !elem_of_app. destruct Hgroup as [Hp|[Hi|Hs]].
  - left. by apply Hsection.
  - right. left. by apply Hsection.
  - right. right. by apply Hsection.
Qed.

(** X11. [buildL0Context] is the empty string exactly when [buildL0] emits
    nothing; every entry [buildL0] emits has priority 0 or is an insight or
    a shared record, so each is rendered as a bullet of at least one of the
    three sections. *)
Theorem buildL0Context_renders_every_entry (db : IndexDB.t)
  (config : MichiMemConfig) :
  (buildL0Context db config = "" ↔ buildL0 db config = [])
  ∧ Forall (λ r, TieredResult.priority r = 0
                 ∨ TieredResult.type r = "insight"
                 ∨ TieredResult.type r = "shared")
      (buildL0 db config)
  ∧ Forall (λ r, "- " +:+ TieredResult.text r
                 ∈ buildL0Context_lines (buildL0 db config))
      (buildL0 db config).
Proof.
  assert (Forall (λ r, TieredResult.priority r = 0
                       ∨ TieredResult.type r = "insight"
                       ∨ TieredResult.type r = "shared")
            (buildL0 db config)) as Hgroups.
  { apply Forall_forall. intros r Hr.
    apply buildL0_members in Hr as (m & -> & [Hm|[Hm|Hm]]).
    - left. apply getByPriority_priority in Hm. cbn. by rewrite Hm.
    - right. left. apply getByType_type in Hm. cbn. by rewrite Hm.
    - right. right. apply getByType_type in Hm. cbn. by rewrite Hm. }
  split; [|split; [done|]].
  - unfold buildL0Context. destruct (decide (length (buildL0 db config) = 0%nat))
      as [Hlen|Hlen].
    + split; [intros _; by apply nil_length_inv|done].
    + split.
      * intros Hempty. by apply join_cons_not_empty in Hempty.
      * intros Hnil. by rewrite Hnil in Hlen.
  - rewrite Forall_forall in Hgroups. apply Forall_forall. intros r Hr.
    apply buildL0Context_lines_bullet; [done|by apply Hgroups].
Qed.

(** ** Extraction: candidates *)

Lemma dedup_from_spec h seen memories :
  NoDup (toLowerCase h ∘ MemoryInput.title <$> dedup_from h seen memories)
  ∧ dedup_from h seen memories `sublist_of` memories
  ∧ (∀ m, m ∈ dedup_from h seen memories →
          toLowerCase h (MemoryInput.title m) ∉ seen)
  ∧ (∀ m, m ∈ memories →
          toLowerCase h (MemoryInput.title m) ∈ seen
          ∨ toLowerCase h (MemoryInput.title m)
            ∈ toLowerCase h ∘ MemoryInput.title <$> dedup_from h seen memories).
Proof.
  revert seen. induction memories as [|m rest IH]; intros seen; cbn.
  - split; [constructor|]. split; [done|].
    split; intros m Hm; by apply elem_of_nil in Hm.
  - destruct (IH seen) as (Hnd & Hsub & Hfresh & Hcover).
    destruct (IH ({[toLowerCase h (MemoryInput.title m)]} ∪ seen))
      as (Hnd' & Hsub' & Hfresh' & Hcover').
    case_decide as Hseen.
    + split; [done|]. split; [by apply sublist_cons|]. split; [done|].
      intros m' [->|Hm']%elem_of_cons; [by left|by apply Hcover].
    + split; [|split; [by apply sublist_skip|split]].
      * cbn. apply NoDup_cons. split; [|done].
        intros (m' & Heq & Hm')%list_elem_of_fmap. cbn in Heq.
        specialize (Hfresh' m' Hm'). set_solver.
      * intros m' [->|Hm']%elem_of_cons; [done|].
        specialize (Hfresh' m' Hm'). set_solver.
      * intros m' [->|Hm']%elem_of_cons; [right; cbn; by left|].
        destruct (Hcover' m' Hm') as [Hin|Hin]; [|right; cbn; by right].
        apply elem_of_union in Hin as [Hin%elem_of_singleton|Hin]; [|by left].
        right. cbn. rewrite Hin. by left.
Qed.

Lemma dedup_from_fixed h seen memories :
  NoDup (toLowerCase h ∘ MemoryInput.title <$> memories) →
  (∀ m, m ∈ memories → toLowerCase h (MemoryInput.title m) ∉ seen) →
  dedup_from h seen memories = memories.
Proof.
  revert seen. induction memories as [|m rest IH]; intros seen Hnd Hfresh;
    [done|].
  cbn in *. apply NoDup_cons in Hnd as [Hhead Hnd].
  rewrite decide_False by (apply Hfresh; by left). f_equal.
  apply IH; [done|]. intros m' Hm'.
  apply not_elem_of_union. split; [|apply Hfresh; by right].
  intros Heq%elem_of_singleton. apply Hhead. rewrite <- Heq.
  by apply (list_elem_of_fmap_2 (toLowerCase h ∘ MemoryInput.title)).
Qed.

Lemma dedup_from_snoc h seen before m :
  dedup_from h seen (before ++ [m])
  = dedup_from h seen before
    ++ (if decide (toLowerCase h (MemoryInput.title m) ∈ seen
                   ∨ toLowerCase h (MemoryInput.title m)
                     ∈ toLowerCase h ∘ MemoryInput.title <$> before)
        then [] else [m]).
Proof.
  revert seen. induction before as [|a before IH]; intros seen; cbn.
  - destruct (decide (_ ∈ seen)) as [Hin|Hnot].
    + by rewrite decide_True by by left.
    + rewrite decide_False; [done|]. intros [?|Hnil]; [done|].
      by apply elem_of_nil in Hnil.
  - destruct (decide (toLowerCase h (MemoryInput.title a) ∈ seen))
      as [Hseen|Hfresh].
    + rewrite IH. f_equal. apply decide_ext. rewrite elem_of_cons.
      split; [tauto|]. intros [?|[Heq|?]]; [tauto| |tauto].
      left. by rewrite Heq.
    + rewrite IH. cbn. f_equal. f_equal. apply decide_ext.
      rewrite elem_of_cons, elem_of_union, elem_of_singleton. tauto.
Qed.

(** X12. [dedup] keeps, in their order, the first record of each title
    compared in lower case: no two records of its result have the same
    lower-cased title, every title of the input is still present in that
    sense, the first record of the input is kept, and applying [dedup]
    again changes nothing.  A record appended to the input is kept
    exactly when no record before it has its lower-cased title, and what
    is kept of the records before it does not change. *)
Theorem dedup_keeps_first_of_each_title (h : Host)
  (memories : list MemoryInput.t) :
  NoDup (toLowerCase h ∘ MemoryInput.title <$> dedup h memories)
  ∧ dedup h memories `sublist_of` memories
  ∧ (∀ m, m ∈ memories →
          toLowerCase h (MemoryInput.title m)
          ∈ toLowerCase h ∘ MemoryInput.title <$> dedup h memories)
  ∧ head (dedup h memories) = head memories
  ∧ dedup h (dedup h memories) = dedup h memories
  ∧ (∀ m, dedup h (memories ++ [m])
          = dedup h memories
            ++ (if decide (toLowerCase h (MemoryInput.title m)
                           ∈ toLowerCase h ∘ MemoryInput.title <$> memories)
                then [] else [m])).
Proof.
  unfold dedup.
  destruct (dedup_from_spec h ∅ memories) as (Hnd & Hsub & Hfresh & Hcover).
  split; [done|]. split; [done|]. split; [|split; [|split]].
  - intros m Hm. destruct (Hcover m Hm) as [Hin|Hin]; [|done].
    by apply not_elem_of_empty in Hin.
  - destruct memories as [|m rest]; [done|]. cbn.
    by rewrite decide_False by apply not_elem_of_empty.
  - apply dedup_from_fixed; [done|]. intros m _. apply not_elem_of_empty.
  - intros m. rewrite dedup_from_snoc. f_equal. apply decide_ext.
    split; [|tauto]. intros [Hin|?]; [|done].
    by apply not_elem_of_empty in Hin.
Qed.

Lemma substring_0_length (n : nat) (s : string) :
  String.length (String.substring 0 n s) = Nat.min n (String.length s).
Proof.
  revert n. induction s as [|c s IH]; intros [|n]; cbn; try done.
  by rewrite IH.
Qed.

Lemma slice_0_length (n : nat) (s : string) :
  String.length (Str.slice 0 n s) = Nat.min n (String.length s).
Proof. unfold Str.slice. rewrite Nat.sub_0_r. apply substring_0_length. Qed.


Lemma correction_of_shape text ty m c :
  correction_of text ty m = Some c →
  candidate_shape "Correction: " 15 c
  ∧ MemoryInput.tags c = Some ["correction"; ty]
  ∧ MemoryInput.title c
    = "Correction: " +:+ Str.slice 0 60 (Str.trim (RegExpMatch.group1 m))
  ∧ MemoryInput.summary c = Str.slice 0 150 (Str.trim (RegExpMatch.group1 m)).
Proof.
  unfold correction_of. case_decide as Hlen; [done|]. intros [= <-].
  split; [|done]. repeat split; cbn.
  - eexists. split; [reflexivity|]. rewrite slice_0_length. lia.
  - rewrite slice_0_length. lia.
  - rewrite slice_0_length. lia.
Qed.

Lemma preference_of_shape text m c :
  preference_of text m = Some c →
  candidate_shape "Preference: " 10 c
  ∧ MemoryInput.tags c = Some ["preference"]
  ∧ MemoryInput.title c
    = "Preference: " +:+ Str.slice 0 60 (Str.trim (RegExpMatch.group1 m))
  ∧ MemoryInput.summary c = Str.slice 0 150 (Str.trim (RegExpMatch.group1 m)).
Proof.
  unfold preference_of. case_decide as Hlen; [done|]. intros [= <-].
  split; [|done]. repeat split; cbn.
  - eexists. split; [reflexivity|]. rewrite slice_0_length. lia.
  - rewrite slice_0_length. lia.
  - rewrite slice_0_length. lia.
Qed.

Lemma extractCorrections_members h messages c :
  c ∈ extractCorrections h messages →
  candidate_shape "Correction: " 15 c
  ∧ (MemoryInput.tags c = Some ["correction"; "correction"]
     ∨ MemoryInput.tags c = Some ["correction"; "negative_preference"])
  ∧ cut_from_match h (fst <$> correction_patterns) "Correction: " messages c.
Proof.
  unfold extractCorrections, dedup. intros Hc.
  destruct (dedup_from_spec h ∅
              (concat
                 ((λ msg,
                    let text := extractText (TranscriptMessage.content msg) in
                    concat
                      ((λ '(regex, ty),
                         omap (correction_of text ty) (regex_exec_all h regex text))
                         <$> correction_patterns))
                    <$> user_messages messages))) as (_ & Hsub & _).
  apply (elem_of_sublist _ _ _ Hc) in Hsub. clear Hc. rename Hsub into Hc.
  apply elem_of_concat in Hc as (l & (msg & -> & Hmsg)%list_elem_of_fmap & Hc).
  apply list_elem_of_filter in Hmsg as [Hrole Hmsg].
  cbv zeta in Hc.
  apply elem_of_concat in Hc as (l & ([regex ty] & -> & Hpat)%list_elem_of_fmap & Hc).
  apply list_elem_of_omap in Hc as (m & Hm & Hc).
  apply correction_of_shape in Hc as (Hshape & Htags & Htitle & Hsummary).
  split; [done|]. split.
  - unfold correction_patterns in Hpat.
    apply elem_of_cons in Hpat as [[= _ ->]|Hpat]; [by left|].
    apply elem_of_cons in Hpat as [[= _ ->]|Hpat]; [by right|].
    by apply elem_of_nil in Hpat.
  - exists msg, regex, m. do 2 (split; [done|]).
    split; [by apply (list_elem_of_fmap_2 fst _ (regex, ty))|done].
Qed.

Lemma extractPreferences_members h messages c :
  c ∈ extractPreferences h messages →
  candidate_shape "Preference: " 10 c
  ∧ MemoryInput.tags c = Some ["preference"]
  ∧ cut_from_match h preference_patterns "Preference: " messages c.
Proof.
  unfold extractPreferences, dedup. intros Hc.
  destruct (dedup_from_spec h ∅
              (concat
                 ((λ msg,
                    let text := extractText (TranscriptMessage.content msg) in
                    concat
                      ((λ pattern,
                         omap (preference_of text) (regex_exec_all h pattern text))
                         <$> preference_patterns))
                    <$> user_messages messages))) as (_ & Hsub & _).
  apply (elem_of_sublist _ _ _ Hc) in Hsub. clear Hc. rename Hsub into Hc.
  apply elem_of_concat in Hc as (l & (msg & -> & Hmsg)%list_elem_of_fmap & Hc).
  apply list_elem_of_filter in Hmsg as [Hrole Hmsg].
  cbv zeta in Hc.
  apply elem_of_concat in Hc as (l & (pattern & -> & Hpat)%list_elem_of_fmap & Hc).
  apply list_elem_of_omap in Hc as (m & Hm & Hc).
  apply preference_of_shape in Hc as (Hshape & Htags & Htitle & Hsummary).
  do 2 (split; [done|]). by exists msg, pattern, m.
Qed.

(** X13. Every correction and every preference the extractor returns is a
    knowledge record of priority 0 without expiry, titled [Correction: ]
    or [Preference: ] followed by 15 (resp. 10) to 60 characters of the
    match, with a summary of at most 150 characters and the tags of its
    kind; title and summary are the first 60 and the first 150 characters
    of the trimmed first group of a match of one of the patterns on the
    text of a user message; within each list no two titles are equal in
    lower case. *)
Theorem extracted_candidates_shape (h : Host)
  (messages : list TranscriptMessage.t) :
  Forall (λ c, candidate_shape "Correction: " 15 c
               ∧ (MemoryInput.tags c = Some ["correction"; "correction"]
                  ∨ MemoryInput.tags c
                    = Some ["correction"; "negative_preference"])
               ∧ cut_from_match h (fst <$> correction_patterns)
                   "Correction: " messages c)
    (extractCorrections h messages)
  ∧ NoDup (toLowerCase h ∘ MemoryInput.title
             <$> extractCorrections h messages)
  ∧ Forall (λ c, candidate_shape "Preference: " 10 c
                 ∧ MemoryInput.tags c = Some ["preference"]
                 ∧ cut_from_match h preference_patterns "Preference: "
                     messages c)
      (extractPreferences h messages)
  ∧ NoDup (toLowerCase h ∘ MemoryInput.title
             <$> extractPreferences h messages).
Proof.
  split; [|split; [|split]].
  - apply Forall_forall. intros c. apply extractCorrections_members.
  - apply (dedup_from_spec h ∅).
  - apply Forall_forall. intros c. apply extractPreferences_members.
  - apply (dedup_from_spec h ∅).
Qed.

(** ** Sets read back as arrays *)

Lemma set_of_list_spec (seen : gset string) (l : list string) :
  NoDup (Str.set_of_list seen l)
  ∧ ∀ x, x ∈ Str.set_of_list seen l ↔ x ∈ l ∧ x ∉ seen.
Proof.
  revert seen. induction l as [|a l IH]; intros seen; cbn.
  - split; [constructor|]. intros x. rewrite elem_of_nil. tauto.
  - destruct (IH seen) as [Hnd Hin].
    destruct (IH ({[a]} ∪ seen)) as [Hnd' Hin'].
    case_decide as Hseen.
    + split; [done|]. intros x. rewrite Hin, elem_of_cons.
      split; [tauto|]. intros [[->|Hx] Hnot]; tauto.
    + split.
      * apply NoDup_cons. split; [|done]. rewrite Hin'. set_solver.
      * intros x. rewrite !elem_of_cons, Hin'.
        destruct (decide (x = a)) as [->|Hne]; [tauto|]. set_solver.
Qed.

Lemma NoDup_take {A} (n : nat) (l : list A) : NoDup l → NoDup (take n l).
Proof. intros Hnd. eapply sublist_NoDup; [done|apply sublist_take]. Qed.

(** ** The diary *)







Lemma messages_of_fmap (messages : list TranscriptMessage.t) :
  messages_of (LMessage <$> messages) = Some messages.
Proof.
  unfold messages_of. apply mapM_Some.
  induction messages as [|m messages IH]; cbn; by constructor.
Qed.

Lemma messages_of_null (lines : list Line) :
  LNull ∈ lines → messages_of lines = None.
Proof.
  intros Hnull. unfold messages_of. apply mapM_None, Exists_exists.
  by exists LNull.
Qed.


(** ** Runs that only append *)

Lemma appends_only_ret {A} P (a : A) : appends_only P (mret a).
Proof. intros w. exists []. cbn. by rewrite app_nil_r. Qed.

Lemma appends_only_throw {A} P : appends_only P (@throw A).
Proof. intros w. exists []. cbn. by rewrite app_nil_r. Qed.

Lemma appends_only_bind {A B} P (m : Run A) (f : A → Run B) :
  appends_only P m → (∀ a, appends_only P (f a)) →
  appends_only P (m ≫= f).
Proof.
  intros Hm Hf w. rewrite bind_run.
  destruct (Hm w) as (added1 & Hrows1 & HP1 & Hfiles1).
  destruct (m w) as [a w1|w1]; cbn in *.
  - destruct (Hf a w1) as (added2 & Hrows2 & HP2 & Hfiles2).
    exists (added1 ++ added2). rewrite Hrows2, Hrows1, Hfiles2, Hfiles1.
    split; [by rewrite app_assoc|]. split; [by apply Forall_app|done].
  - by exists added1.
Qed.

Lemma appends_only_now_ms P h : appends_only P (now_ms h).
Proof. intros w. exists []. cbn. by rewrite app_nil_r. Qed.

Lemma appends_only_now_iso P h : appends_only P (now_iso h).
Proof. intros w. exists []. cbn. by rewrite app_nil_r. Qed.

Lemma appends_only_get_db P : appends_only P get_db.
Proof. intros w. exists []. cbn. by rewrite app_nil_r. Qed.

Lemma appends_only_db_search P h query limit :
  appends_only P (db_search h query limit).
Proof.
  intros w. exists []. rewrite db_search_run.
  destruct (IndexDB.search _ _ _ _); cbn; by rewrite app_nil_r.
Qed.

Lemma appends_only_db_recordMetric P h ev payload :
  appends_only P (db_recordMetric h ev payload).
Proof. intros w. exists []. cbn. by rewrite app_nil_r. Qed.

Lemma appends_only_db_insert (P : Memory → Prop) h input :
  (∀ row, type row = MemoryInput.type input →
          priority row = MemoryInput.priority input →
          tags row = default [] (MemoryInput.tags input) →
          source_ids row = default [] (MemoryInput.source_ids input) →
          expires_at row = MemoryInput.expires_at input → P row) →
  appends_only P (db_insert h input).
Proof.
  intros HP w. rewrite db_insert_run.
  destruct (IndexDB.insert _ _ _ _) as [[memory d']|] eqn:Hinsert; cbn.
  - apply insert_Some in Hinsert
      as (Hrows & _ & _ & _ & Hty & Hprio & Htags & Hsrc & Hexp).
    exists [memory]. split; [done|]. split; [|done].
    apply Forall_singleton. by apply HP.
  - exists []. by rewrite app_nil_r.
Qed.

Lemma appends_only_insert_candidates P h candidates :
  Forall (λ c, appends_only P (db_insert h c)) candidates →
  appends_only P (insert_candidates h candidates).
Proof.
  induction 1 as [|c rest Hc _ IH]; cbn; [apply appends_only_ret|].
  apply appends_only_bind; [|done]. unfold insert_unless_found.
  apply appends_only_bind; [apply appends_only_db_search|].
  intros existing. case_decide; [|apply appends_only_ret].
  apply appends_only_bind; [done|]. intros _. apply appends_only_ret.
Qed.

Lemma extractFromTranscript_outcome h transcriptPath config w :
  World.db (world_of (extractFromTranscript h transcriptPath config w))
  = World.db w
  ∧ World.written (world_of (extractFromTranscript h transcriptPath config w))
    = World.written w
  ∧ ∀ extracted w',
      extractFromTranscript h transcriptPath config w = Returned extracted w' →
      (∀ d, ExtractedMemories.diary extracted = Some d →
            MemoryInput.type d = diary ∧ MemoryInput.priority d = P2
            ∧ is_Some (MemoryInput.expires_at d))
      ∧ Forall (candidate_shape "Correction: " 15)
          (ExtractedMemories.corrections extracted)
      ∧ Forall (candidate_shape "Preference: " 10)
          (ExtractedMemories.preferences extracted).
Proof.
  pose proof (extractFromTranscript_run h transcriptPath config w) as Hrun.
  destruct (readMessages h transcriptPath) as [lines|].
  2:{ rewrite Hrun. cbn. do 2 (split; [done|]). by intros ? ? [= <- _]. }
  case_decide as Hlen.
  { rewrite Hrun. cbn. do 2 (split; [done|]). by intros ? ? [= <- _]. }
  destruct (messages_of lines) as [messages|].
  2:{ rewrite Hrun. cbn. by do 2 (split; [done|]). }
  destruct Hrun as (d & w' & _ & -> & Hty & Hprio & Hdb & Hfiles & Hexp).
  cbn. do 2 (split; [done|]). intros ? ? [= <- _]. cbn.
  split; [by intros ? [= <-]|]. split.
  - apply Forall_forall. intros c Hc.
    by apply extractCorrections_members in Hc as [? _].
  - apply Forall_forall. intros c Hc.
    by apply extractPreferences_members in Hc as [? _].
Qed.

(** X15. Whatever its outcome, the [Stop] hook leaves every stored row in
    place and writes no file: the table after it is the table before it
    followed by the rows it inserted, each of them a diary of priority 2
    with an expiry or a knowledge record of priority 0 without one.  With
    [stop_hook_active] set it does nothing at all. *)
Theorem handleStop_only_appends (h : Host) (input : HookInput.t)
  (config : MichiMemConfig) (w : World.t) :
  (∃ added,
     IndexDB.memories (World.db (world_of (handleStop h input config w)))
     = IndexDB.memories (World.db w) ++ added
     ∧ Forall stop_row added)
  ∧ World.written (world_of (handleStop h input config w)) = World.written w
  ∧ (HookInput.stop_hook_active input = Some true →
     handleStop h input config w = Returned tt w).
Proof.
  assert (∀ label least c, candidate_shape label least c →
                           appends_only stop_row (db_insert h c)) as Hcand.
  { intros label least c (Hty & Hprio & Hexp & _). apply appends_only_db_insert.
    intros row Hrty Hrprio _ _ Hrexp. right. repeat split; congruence. }
  unfold handleStop. case_decide as Hactive.
  { split; [|done]. exists []. cbn. split; [by rewrite app_nil_r|done]. }
  destruct (extractFromTranscript_outcome h (HookInput.transcript_path input)
              config w) as (Hdb & Hfiles & Hret).
  rewrite bind_run.
  destruct (extractFromTranscript h (HookInput.transcript_path input) config w)
    as [extracted w1|w1]; cbn in Hdb, Hfiles.
  2:{ cbn. rewrite Hdb, Hfiles. split; [|done]. exists [].
      split; [by rewrite app_nil_r|done]. }
  destruct (Hret extracted w1 eq_refl) as (Hdiary & Hcor & Hpref).
  match goal with
  | |- context [world_of (?m w1)] =>
      assert (appends_only stop_row m) as Hrest
  end.
  { apply appends_only_bind.
    { destruct (ExtractedMemories.diary extracted) as [d|];
        [|apply appends_only_ret].
      destruct (Hdiary d eq_refl) as (Hty & Hprio & Hexp).
      apply appends_only_bind; [|intros _; apply appends_only_ret].
      apply appends_only_db_insert. intros row Hrty Hrprio _ _ Hrexp.
      left. split; [congruence|]. split; [congruence|]. by rewrite Hrexp. }
    intros _. apply appends_only_bind.
    { apply appends_only_insert_candidates.
      eapply Forall_impl; [exact Hcor|]. intros c. apply Hcand. }
    intros _. apply appends_only_bind.
    { apply appends_only_insert_candidates.
      eapply Forall_impl; [exact Hpref|]. intros c. apply Hcand. }
    intros _. apply appends_only_db_recordMetric. }
  destruct (Hrest w1) as (added & Hrows & HP & Hwritten).
  rewrite Hdb in Hrows. rewrite Hfiles in Hwritten.
  split; [by exists added|]. split; [done|]. by intros ?.
Qed.

(** ** Compounding *)

Lemma promoted_skip threshold g rest :
  Z.of_nat (length g) < threshold ∨ g = [] →
  promoted threshold (g :: rest) = promoted threshold rest.
Proof.
  intros Hskip. unfold promoted. rewrite filter_cons.
  rewrite decide_False; [done|]. intros [Hlen Hne]. by destruct Hskip.
Qed.

Lemma promoted_keep threshold g rest :
  ¬ Z.of_nat (length g) < threshold → g ≠ [] →
  promoted threshold (g :: rest) = g :: promoted threshold rest.
Proof.
  intros Hlen Hne. unfold promoted. rewrite filter_cons.
  by rewrite decide_True.
Qed.

Lemma compoundDiaries_loop_run h config groups created w :
  ∃ added,
    IndexDB.memories
      (World.db (world_of (compoundDiaries_loop h config groups created w)))
    = IndexDB.memories (World.db w) ++ added
    ∧ IndexDB.metrics
        (World.db (world_of (compoundDiaries_loop h config groups created w)))
      = IndexDB.metrics (World.db w)
    ∧ World.written (world_of (compoundDiaries_loop h config groups created w))
      = World.written w
    ∧ Forall2 (λ row g, insight_row g row) added
        (take (length added)
           (promoted (compounding_diary_threshold config) groups))
    ∧ ∀ res w',
        compoundDiaries_loop h config groups created w = Returned res w' →
        length added
        = length (promoted (compounding_diary_threshold config) groups)
        ∧ res = created ++ (created_of <$> added).
Proof.
  revert created w. induction groups as [|g rest IH]; intros created w.
  { exists []. cbn. rewrite !app_nil_r.
    do 3 (split; [done|]). split; [constructor|].
    by intros res w' [= <- _]. }
  cbn [compoundDiaries_loop]. case_decide as Hlen.
  { rewrite promoted_skip by by left. apply IH. }
  destruct (synthesizeInsight g) as [synth|] eqn:Hsynth.
  2:{ destruct g; [|done]. rewrite promoted_skip by by right. apply IH. }
  assert (g ≠ []) as Hne by (by intros ->).
  rewrite (promoted_keep _ _ _ Hlen Hne).
  rewrite bind_run.
  change (now_ms h w)
    with (Returned (Date_now h (World.clock_reads w)) (tick_clock w)).
  cbv beta iota. rewrite bind_run, db_insert_run.
  destruct (IndexDB.insert _ _ _ _) as [[memory d']|] eqn:Hinsert.
  - apply insert_Some in Hinsert
      as (Hrows & Hmetrics & _ & _ & Hty & Hprio & Htags & Hsrc & Hexp).
    cbn in Hrows, Hmetrics, Hty, Hprio, Htags, Hsrc, Hexp.
    match goal with
    | |- context [compoundDiaries_loop h config rest ?c ?w2] =>
        destruct (IH c w2) as (added & Hadded & Hm & Hfiles & Hall & Hret)
    end.
    cbn in Hadded, Hm, Hfiles.
    exists (memory :: added). rewrite Hadded, Hm, Hfiles, Hrows, Hmetrics.
    rewrite <- app_assoc. do 3 (split; [done|]). split.
    + cbn. constructor; [|done]. unfold insight_row.
      rewrite Hty, Hprio, Hexp, Hsrc. do 4 (split; [done|]).
      by exists synth.
    + intros res w' Hres. apply Hret in Hres as [Hcount ->]. split.
      * cbn. by f_equal.
      * rewrite <- app_assoc. cbn. do 2 f_equal. unfold created_of.
        by rewrite Hsrc, length_fmap.
  - exists []. cbn. rewrite app_nil_r. do 3 (split; [done|]).
    split; [constructor|done].
Qed.

Lemma compoundInsights_loop_run h config groups created w :
  ∃ added,
    IndexDB.memories
      (World.db (world_of (compoundInsights_loop h config groups created w)))
    = IndexDB.memories (World.db w) ++ added
    ∧ IndexDB.metrics
        (World.db (world_of (compoundInsights_loop h config groups created w)))
      = IndexDB.metrics (World.db w)
    ∧ World.written (world_of (compoundInsights_loop h config groups created w))
      = World.written w
    ∧ Forall2 (λ row g, knowledge_row g row) added
        (take (length added)
           (promoted (compounding_insight_threshold config) groups))
    ∧ ∀ res w',
        compoundInsights_loop h config groups created w = Returned res w' →
        length added
        = length (promoted (compounding_insight_threshold config) groups)
        ∧ res = created ++ added.
Proof.
  revert created w. induction groups as [|g rest IH]; intros created w.
  { exists []. cbn. rewrite !app_nil_r.
    do 3 (split; [done|]). split; [constructor|].
    by intros res w' [= <- _]. }
  cbn [compoundInsights_loop]. case_decide as Hlen.
  { rewrite promoted_skip by by left. apply IH. }
  destruct (synthesizeKnowledge g) as [synth|] eqn:Hsynth.
  2:{ destruct g; [|done]. rewrite promoted_skip by by right. apply IH. }
  assert (g ≠ []) as Hne by (by intros ->).
  rewrite (promoted_keep _ _ _ Hlen Hne).
  rewrite bind_run, db_insert_run.
  destruct (IndexDB.insert _ _ _ _) as [[memory d']|] eqn:Hinsert.
  - apply insert_Some in Hinsert
      as (Hrows & Hmetrics & _ & _ & Hty & Hprio & Htags & Hsrc & Hexp).
    cbn in Hrows, Hmetrics, Hty, Hprio, Htags, Hsrc, Hexp.
    match goal with
    | |- context [compoundInsights_loop h config rest ?c ?w2] =>
        destruct (IH c w2) as (added & Hadded & Hm & Hfiles & Hall & Hret)
    end.
    cbn in Hadded, Hm, Hfiles.
    exists (memory :: added). rewrite Hadded, Hm, Hfiles, Hrows, Hmetrics.
    rewrite <- app_assoc. do 3 (split; [done|]). split.
    + cbn. constructor; [|done]. unfold knowledge_row.
      rewrite Hty, Hprio, Hexp, Hsrc. do 4 (split; [done|]).
      by exists synth.
    + intros res w' Hres. apply Hret in Hres as [Hcount ->]. split.
      * cbn. by f_equal.
      * by rewrite <- app_assoc.
  - exists []. cbn. rewrite app_nil_r. do 3 (split; [done|]).
    split; [constructor|done].
Qed.

Lemma promoted_take_spec threshold groups k :
  take k (promoted threshold groups) `sublist_of` groups
  ∧ Forall (λ g, ¬ Z.of_nat (length g) < threshold ∧ g ≠ [])
      (take k (promoted threshold groups)).
Proof.
  split.
  - etrans; [apply sublist_take|]. apply sublist_filter.
  - apply Forall_take, Forall_forall. intros g Hg.
    by apply list_elem_of_filter in Hg as [? _].
Qed.

Lemma compoundDiariesToInsights_run h config w :
  ∃ added gs,
    IndexDB.memories
      (World.db (world_of (compoundDiariesToInsights h config w)))
    = IndexDB.memories (World.db w) ++ added
    ∧ IndexDB.metrics
        (World.db (world_of (compoundDiariesToInsights h config w)))
      = IndexDB.metrics (World.db w)
    ∧ World.written (world_of (compoundDiariesToInsights h config w))
      = World.written w
    ∧ Forall2 (λ row g, insight_row g row) added gs
    ∧ gs `sublist_of`
        groupByOverlap h (IndexDB.getUnprocessedDiaries 50 (World.db w))
    ∧ Forall (λ g, ¬ Z.of_nat (length g) < compounding_diary_threshold config
                   ∧ g ≠ []) gs
    ∧ ∀ res w',
        compoundDiariesToInsights h config w = Returned res w' →
        res = created_of <$> added.
Proof.
  unfold compoundDiariesToInsights. rewrite bind_run.
  change (get_db w) with (Returned (World.db w) w). cbv beta iota zeta.
  case_decide as Hfew.
  { exists [], []. cbn. rewrite app_nil_r. do 3 (split; [done|]).
    split; [constructor|]. split; [apply sublist_nil_l|].
    split; [constructor|]. by intros res w' [= <- _]. }
  destruct (compoundDiaries_loop_run h config
              (groupByOverlap h (IndexDB.getUnprocessedDiaries 50 (World.db w)))
              [] w) as (added & Hrows & Hmetrics & Hfiles & Hall & Hret).
  destruct (promoted_take_spec (compounding_diary_threshold config)
              (groupByOverlap h (IndexDB.getUnprocessedDiaries 50 (World.db w)))
              (length added)) as [Hsub Hbig].
  eexists added, _. do 3 (split; [done|]). split; [exact Hall|].
  split; [done|]. split; [done|].
  intros res w' Hres. by apply Hret in Hres as [_ ->].
Qed.

Lemma compoundInsightsToKnowledge_run h config w :
  ∃ added gs,
    IndexDB.memories
      (World.db (world_of (compoundInsightsToKnowledge h config w)))
    = IndexDB.memories (World.db w) ++ added
    ∧ IndexDB.metrics
        (World.db (world_of (compoundInsightsToKnowledge h config w)))
      = IndexDB.metrics (World.db w)
    ∧ World.written (world_of (compoundInsightsToKnowledge h config w))
      = World.written w
    ∧ Forall2 (λ row g, knowledge_row g row) added gs
    ∧ gs `sublist_of`
        groupByOverlap h (IndexDB.getByType insight 50 (World.db w))
    ∧ Forall (λ g, ¬ Z.of_nat (length g) < compounding_insight_threshold config
                   ∧ g ≠ []) gs
    ∧ ∀ res w',
        compoundInsightsToKnowledge h config w = Returned res w' →
        res = added.
Proof.
  unfold compoundInsightsToKnowledge. rewrite bind_run.
  change (get_db w) with (Returned (World.db w) w). cbv beta iota zeta.
  case_decide as Hfew.
  { exists [], []. cbn. rewrite app_nil_r. do 3 (split; [done|]).
    split; [constructor|]. split; [apply sublist_nil_l|].
    split; [constructor|]. by intros res w' [= <- _]. }
  destruct (compoundInsights_loop_run h config
              (groupByOverlap h (IndexDB.getByType insight 50 (World.db w)))
              [] w) as (added & Hrows & Hmetrics & Hfiles & Hall & Hret).
  destruct (promoted_take_spec (compounding_insight_threshold config)
              (groupByOverlap h (IndexDB.getByType insight 50 (World.db w)))
              (length added)) as [Hsub Hbig].
  eexists added, _. do 3 (split; [done|]). split; [exact Hall|].
  split; [done|]. split; [done|].
  intros res w' Hres. by apply Hret in Hres as [_ ->].
Qed.

Lemma sublist_concat {A} (ls1 ls2 : list (list A)) :
  ls1 `sublist_of` ls2 → concat ls1 `sublist_of` concat ls2.
Proof.
  induction 1 as [|l ls1 ls2 _ IH|l ls1 ls2 _ IH]; cbn.
  - done.
  - by apply sublist_app.
  - by apply sublist_inserts_l.
Qed.

Lemma concat_fmap_fmap {A B} (f : A → B) (ls : list (list A)) :
  concat ((λ l : list A, f <$> l) <$> ls) = f <$> concat ls.
Proof.
  induction ls as [|l ls IH]; cbn; [done|]. by rewrite fmap_app, IH.
Qed.

Lemma sources_of_groups (R : list Memory → Memory → Prop) added gs :
  (∀ g row, R g row → source_ids row = id <$> g) →
  Forall2 (λ row g, R g row) added gs →
  concat (source_ids <$> added) = id <$> concat gs.
Proof.
  intros HR Hall. rewrite <- concat_fmap_fmap. f_equal.
  induction Hall as [|row g added gs Hrow _ IH]; cbn; [done|].
  by rewrite (HR _ _ Hrow), IH.
Qed.

Lemma sources_NoDup h (R : list Memory → Memory → Prop) added gs memories :
  (∀ g row, R g row → source_ids row = id <$> g) →
  Forall2 (λ row g, R g row) added gs →
  gs `sublist_of` groupByOverlap h memories →
  NoDup (concat (source_ids <$> added)).
Proof.
  intros HR Hall Hsub. rewrite (sources_of_groups R added gs HR Hall).
  destruct (groupByOverlap_grouping h memories) as (assigned & Hgrouping & _).
  eapply sublist_NoDup; [apply (grouping_NoDup _ _ _ _ Hgrouping)|].
  by apply fmap_sublist, sublist_concat.
Qed.

Lemma group_sources_members h g gs memories i :
  gs `sublist_of` groupByOverlap h memories → g ∈ gs → i ∈ id <$> g →
  i ∈ id <$> memories.
Proof.
  intros Hsub Hg (x & -> & Hx)%list_elem_of_fmap.
  destruct (groupByOverlap_grouping h memories) as (assigned & Hgrouping & _).
  apply list_elem_of_fmap_2, (grouping_members _ _ _ _ Hgrouping).
  apply elem_of_concat. exists g. split; [|done].
  by eapply elem_of_sublist.
Qed.

Lemma group_threshold (g : list Memory) (threshold : Z) :
  ¬ Z.of_nat (length g) < threshold →
  threshold ≤ Z.of_nat (length (id <$> g)).
Proof. rewrite length_fmap. lia. Qed.

Lemma synthesizeInsight_tags g s :
  synthesizeInsight g = Some s →
  ∃ topics,
    SynthesizedMemory.tags s = topics ++ ["auto-insight"]
    ∧ (length topics ≤ 5)%nat ∧ NoDup topics
    ∧ ∀ t, t ∈ topics → ∃ m, m ∈ g ∧ t ∈ tags m.
Proof.
  destruct g as [|first rest]; [done|]. intros [= <-]. cbn [SynthesizedMemory.tags].
  eexists. split; [reflexivity|].
  destruct (set_of_list_spec ∅ (concat (tags <$> first :: rest))) as [Hnd Hin].
  split; [rewrite length_take; lia|]. split; [by apply NoDup_take|].
  intros t Ht%subseteq_take. apply Hin in Ht as [Ht _].
  apply elem_of_concat in Ht as (l & (m & -> & Hm)%list_elem_of_fmap & Ht).
  by exists m.
Qed.

Lemma synthesizeKnowledge_tags g s :
  synthesizeKnowledge g = Some s →
  ∃ topics,
    SynthesizedMemory.tags s = topics ++ ["auto-knowledge"]
    ∧ (length topics ≤ 5)%nat ∧ NoDup topics
    ∧ "auto-insight" ∉ topics
    ∧ ∀ t, t ∈ topics → ∃ m, m ∈ g ∧ t ∈ tags m.
Proof.
  destruct g as [|first rest]; [done|]. intros [= <-]. cbn [SynthesizedMemory.tags].
  eexists. split; [reflexivity|].
  destruct (set_of_list_spec ∅ (concat (tags <$> first :: rest))) as [Hnd Hin].
  split; [rewrite length_take; lia|].
  split; [by apply NoDup_take, NoDup_filter|]. split.
  - intros Ht%subseteq_take. by apply list_elem_of_filter in Ht as [? _].
  - intros t Ht%subseteq_take. apply list_elem_of_filter in Ht as [_ Ht].
    apply Hin in Ht as [Ht _].
    apply elem_of_concat in Ht as (l & (m & -> & Hm)%list_elem_of_fmap & Ht).
    by exists m.
Qed.

(** X16. [synthesizeInsight] and [synthesizeKnowledge] return [null] for
    the empty list only.  The tags of the record they synthesize are at
    most five pairwise distinct tags of the given memories followed by
    [auto-insight], resp. [auto-knowledge]; a knowledge record never
    carries the tag [auto-insight] of the insights it is promoted from. *)
Theorem synthesized_tags (memories : list Memory) :
  (synthesizeInsight memories = None ↔ memories = [])
  ∧ (synthesizeKnowledge memories = None ↔ memories = [])
  ∧ (∀ s, synthesizeInsight memories = Some s →
          ∃ topics,
            SynthesizedMemory.tags s = topics ++ ["auto-insight"]
            ∧ (length topics ≤ 5)%nat ∧ NoDup topics
            ∧ ∀ t, t ∈ topics → ∃ m, m ∈ memories ∧ t ∈ tags m)
  ∧ (∀ s, synthesizeKnowledge memories = Some s →
          "auto-insight" ∉ SynthesizedMemory.tags s
          ∧ ∃ topics,
              SynthesizedMemory.tags s = topics ++ ["auto-knowledge"]
              ∧ (length topics ≤ 5)%nat ∧ NoDup topics
              ∧ ∀ t, t ∈ topics → ∃ m, m ∈ memories ∧ t ∈ tags m).
Proof.
  split; [by destruct memories|]. split; [by destruct memories|].
  split; [apply synthesizeInsight_tags|].
  intros s (topics & Htags & Hlen & Hnd & Hauto & Hfrom)%synthesizeKnowledge_tags.
  split; [|by exists topics].
  rewrite Htags. intros [Hin|Hin]%elem_of_app; [done|].
  by apply list_elem_of_singleton in Hin.
Qed.

(** X17. Whatever its outcome, [compoundDiariesToInsights] only appends
    rows, each an insight of priority 1 with an expiry whose [source_ids]
    are the ids of at least [diary_threshold] diaries that
    [getUnprocessedDiaries(50)] listed before the call; no diary is named
    by two of these rows, and none of the named diaries is listed as
    unprocessed afterwards.  What it returns is one entry per appended
    row, with the row's id and the number of its sources. *)
Theorem compoundDiariesToInsights_names_sources (h : Host)
  (config : MichiMemConfig) (w : World.t) :
  ∃ added,
    IndexDB.memories
      (World.db (world_of (compoundDiariesToInsights h config w)))
    = IndexDB.memories (World.db w) ++ added
    ∧ Forall (λ row,
        type row = insight ∧ priority row = P1 ∧ is_Some (expires_at row)
        ∧ source_ids row ≠ []
        ∧ compounding_diary_threshold config
          ≤ Z.of_nat (length (source_ids row))
        ∧ ∀ i, i ∈ source_ids row →
               i ∈ id <$> IndexDB.getUnprocessedDiaries 50 (World.db w)
               ∧ ∀ limit,
                   i ∉ id <$> IndexDB.getUnprocessedDiaries limit
                                (World.db
                                   (world_of
                                      (compoundDiariesToInsights h config w))))
        added
    ∧ NoDup (concat (source_ids <$> added))
    ∧ ∀ created w',
        compoundDiariesToInsights h config w = Returned created w' →
        created = created_of <$> added.
Proof.
  destruct (compoundDiariesToInsights_run h config w)
    as (added & gs & Hrows & _ & _ & Hall & Hsub & Hbig & Hret).
  exists added. split; [done|]. split; [|split; [|done]].
  - apply Forall_forall. intros row Hrow.
    pose proof Hrow as [k Hk]%list_elem_of_lookup_1.
    destruct (Forall2_lookup_l _ _ _ _ _ Hall Hk)
      as (g & Hg & Hty & Hprio & Hexp & Hsrc & _).
    apply list_elem_of_lookup_2 in Hg.
    rewrite Forall_forall in Hbig. destruct (Hbig g Hg) as [Hlen Hne].
    do 3 (split; [done|]). rewrite Hsrc.
    split; [by destruct g|]. split; [by apply group_threshold|].
    intros i Hi. split; [by eapply group_sources_members|].
    intros limit (m & -> & Hm)%list_elem_of_fmap.
    unfold IndexDB.getUnprocessedDiaries in Hm.
    apply query_elem_of in Hm as (row' & _ & [_ Hnot] & ->).
    apply Hnot. apply insight_source_ids_elem_of. exists row.
    rewrite Hrows. split; [by apply elem_of_app; right|].
    split; [done|]. by rewrite Hsrc.
  - eapply (sources_NoDup h (λ g row, insight_row g row)); [|done|done].
    by intros g row (_ & _ & _ & Hsrc & _).
Qed.

Lemma filter_app_none {A} (P : A → Prop) `{!∀ x, Decision (P x)}
  (l extra : list A) :
  Forall (λ x, ¬ P x) extra → filter P (l ++ extra) = filter P l.
Proof.
  intros Hnone. rewrite filter_app.
  replace (filter P extra) with (@nil A); [by rewrite app_nil_r|].
  symmetry. induction Hnone as [|x extra Hx _ IH]; [done|].
  rewrite filter_cons. by rewrite decide_False.
Qed.

(** X18. Whatever its outcome, [compoundInsightsToKnowledge] only appends
    rows, each a knowledge record of priority 0 without expiry and
    without the tag [auto-insight], whose [source_ids] are the ids of at
    least [insight_threshold] insights that [getByType("insight", 50)]
    listed before the call, no insight being named twice; it returns the
    rows it appended.  The insights are not marked: every
    [getByType("insight", n)] gives afterwards what it gave before. *)
Theorem compoundInsightsToKnowledge_keeps_insights (h : Host)
  (config : MichiMemConfig) (w : World.t) :
  ∃ added,
    IndexDB.memories
      (World.db (world_of (compoundInsightsToKnowledge h config w)))
    = IndexDB.memories (World.db w) ++ added
    ∧ Forall (λ row,
        type row = knowledge ∧ priority row = P0 ∧ expires_at row = None
        ∧ "auto-insight" ∉ tags row
        ∧ compounding_insight_threshold config
          ≤ Z.of_nat (length (source_ids row))
        ∧ ∀ i, i ∈ source_ids row →
               i ∈ id <$> IndexDB.getByType insight 50 (World.db w))
        added
    ∧ NoDup (concat (source_ids <$> added))
    ∧ (∀ created w',
         compoundInsightsToKnowledge h config w = Returned created w' →
         created = added)
    ∧ ∀ n, IndexDB.getByType insight n
             (World.db (world_of (compoundInsightsToKnowledge h config w)))
           = IndexDB.getByType insight n (World.db w).
Proof.
  destruct (compoundInsightsToKnowledge_run h config w)
    as (added & gs & Hrows & _ & _ & Hall & Hsub & Hbig & Hret).
  assert (Forall (λ row, type row = knowledge) added) as Hknow.
  { apply Forall_forall. intros row [k Hk]%list_elem_of_lookup_1.
    by destruct (Forall2_lookup_l _ _ _ _ _ Hall Hk) as (g & _ & Hty & _). }
  exists added. split; [done|]. split; [|split; [|split; [done|]]].
  - apply Forall_forall. intros row Hrow.
    pose proof Hrow as [k Hk]%list_elem_of_lookup_1.
    destruct (Forall2_lookup_l _ _ _ _ _ Hall Hk)
      as (g & Hg & Hty & Hprio & Hexp & Hsrc & s & Hsynth & Htags).
    apply list_elem_of_lookup_2 in Hg.
    rewrite Forall_forall in Hbig. destruct (Hbig g Hg) as [Hlen Hne].
    do 3 (split; [done|]). rewrite Hsrc. split; [|split].
    + apply synthesizeKnowledge_tags in Hsynth
        as (topics & Hs & _ & _ & Hauto & _).
      rewrite Htags, Hs. intros [Hin|Hin]%elem_of_app; [done|].
      by apply list_elem_of_singleton in Hin.
    + by apply group_threshold.
    + intros i Hi. by eapply group_sources_members.
  - eapply (sources_NoDup h (λ g row, knowledge_row g row)); [|done|done].
    by intros g row (_ & _ & _ & Hsrc & _).
  - intros n. unfold IndexDB.getByType. rewrite Hrows.
    rewrite filter_app_none; [done|].
    eapply Forall_impl; [exact Hknow|]. intros row ->. done.
Qed.

Lemma sourceCount_sum (added : list Memory) (start : nat) :
  foldl (λ sum i, (sum + CreatedInsight.sourceCount i)%nat) start
    (created_of <$> added)
  = (start + length (concat (source_ids <$> added)))%nat.
Proof.
  revert start. induction added as [|row added IH]; intros start; cbn.
  - lia.
  - rewrite IH, length_app. lia.
Qed.

(** X19. Whatever its outcome, [runCompounding] leaves every stored row in
    place and writes no file: it appends insights of priority 1 with an
    expiry, then knowledge records of priority 0 without one.  When it
    returns, [insights_created] and [knowledge_created] count these rows,
    [diaries_processed] is the number of source ids of the insights, and
    exactly one metric, of event [compounding], has been recorded; when
    an insert throws, no metric is recorded. *)
Theorem runCompounding_reports_appended_rows (h : Host)
  (config : MichiMemConfig) (w : World.t) :
  ∃ insights knowledge_rows,
    IndexDB.memories (World.db (world_of (runCompounding h config w)))
    = IndexDB.memories (World.db w) ++ insights ++ knowledge_rows
    ∧ Forall (λ row, type row = insight ∧ priority row = P1
                     ∧ is_Some (expires_at row)) insights
    ∧ Forall (λ row, type row = knowledge ∧ priority row = P0
                     ∧ expires_at row = None) knowledge_rows
    ∧ World.written (world_of (runCompounding h config w)) = World.written w
    ∧ match runCompounding h config w with
      | Returned result w' =>
          CompoundingResult.insights_created result = length insights
          ∧ CompoundingResult.knowledge_created result
            = length knowledge_rows
          ∧ CompoundingResult.diaries_processed result
            = length (concat (source_ids <$> insights))
          ∧ ∃ metric,
              IndexDB.metrics (World.db w')
              = IndexDB.metrics (World.db w) ++ [metric]
              ∧ event metric = "compounding"
      | Thrown w' => IndexDB.metrics (World.db w') = IndexDB.metrics (World.db w)
      end.
Proof.
  unfold runCompounding. rewrite bind_run.
  destruct (compoundDiariesToInsights_run h config w)
    as (insights & gs1 & Hrows1 & Hmetrics1 & Hfiles1 & Hall1 & _ & _ & Hret1).
  assert (Forall (λ row, type row = insight ∧ priority row = P1
                         ∧ is_Some (expires_at row)) insights) as Hins.
  { apply Forall_forall. intros row [k Hk]%list_elem_of_lookup_1.
    by destruct (Forall2_lookup_l _ _ _ _ _ Hall1 Hk)
      as (g & _ & Hty & Hprio & Hexp & _). }
  destruct (compoundDiariesToInsights h config w) as [created w1|w1].
  2:{ exists insights, []. cbn in *. rewrite app_nil_r. by do 4 (split; [done|]). }
  cbn in Hrows1, Hmetrics1, Hfiles1. rewrite (Hret1 created w1 eq_refl).
  rewrite bind_run.
  destruct (compoundInsightsToKnowledge_run h config w1)
    as (knowledge_rows & gs2 & Hrows2 & Hmetrics2 & Hfiles2 & Hall2 & _ & _
        & Hret2).
  assert (Forall (λ row, type row = knowledge ∧ priority row = P0
                         ∧ expires_at row = None) knowledge_rows) as Hknow.
  { apply Forall_forall. intros row [k Hk]%list_elem_of_lookup_1.
    by destruct (Forall2_lookup_l _ _ _ _ _ Hall2 Hk)
      as (g & _ & Hty & Hprio & Hexp & _). }
  exists insights, knowledge_rows.
  destruct (compoundInsightsToKnowledge h config w1) as [promoted_rows w2|w2];
    cbn in Hrows2, Hmetrics2, Hfiles2.
  2:{ cbn. rewrite Hrows2, Hrows1, Hfiles2, Hfiles1, Hmetrics2, Hmetrics1.
      by rewrite app_assoc. }
  rewrite (Hret2 promoted_rows w2 eq_refl).
  cbv zeta. rewrite bind_run, db_recordMetric_run. cbn.
  rewrite Hrows2, Hrows1, Hfiles2, Hfiles1, Hmetrics2, Hmetrics1.
  split; [by rewrite app_assoc|]. do 3 (split; [done|]).
  split; [by rewrite length_fmap|]. split; [done|]. split.
  - by rewrite sourceCount_sum.
  - by eexists.
Qed.

(** ** Writing a checkpoint *)

Lemma append_assoc (a b c : string) : (a +:+ b) +:+ c = a +:+ (b +:+ c).
Proof.
  induction a as [|x a IH]; [done|].
  change (String x a +:+ b) with (String x (a +:+ b)).
  change (String x (a +:+ b) +:+ c) with (String x ((a +:+ b) +:+ c)).
  change (String x a +:+ (b +:+ c)) with (String x (a +:+ (b +:+ c))).
  by rewrite IH.
Qed.

Lemma rev_app_append (a b : string) :
  String.rev_app a b = String.rev a +:+ b.
Proof.
  revert b. induction a as [|x a IH]; intros b; [done|].
  unfold String.rev. cbn. rewrite (IH (String x b)), (IH (String x "")).
  by rewrite append_assoc.
Qed.

Lemma rev_append (a b : string) :
  String.rev (a +:+ b) = String.rev b +:+ String.rev a.
Proof.
  induction a as [|x a IH].
  - change ("" +:+ b) with b. unfold String.rev at 3. cbn.
    induction (String.rev b) as [|y r IHr]; [done|].
    change (String y r +:+ "") with (String y (r +:+ "")). by rewrite <- IHr.
  - change (String x a +:+ b) with (String x (a +:+ b)).
    unfold String.rev at 1 3. cbn.
    rewrite !rev_app_append, IH. by rewrite append_assoc.
Qed.

Lemma prefix_append (a b : string) : String.prefix a (a +:+ b) = true.
Proof.
  induction a as [|x a IH]; [by destruct b|].
  change (String x a +:+ b) with (String x (a +:+ b)). cbn.
  by destruct (Ascii.ascii_dec x x).
Qed.

Lemma startsWith_append (a b : string) : Str.startsWith a (a +:+ b) = true.
Proof. apply prefix_append. Qed.

Lemma endsWith_append (a b : string) : Str.endsWith b (a +:+ b) = true.
Proof. unfold Str.endsWith. rewrite rev_append. apply prefix_append. Qed.

Lemma length_last_n {A} (n : nat) (l : list A) :
  (length (drop (length l - n) l) ≤ n)%nat.
Proof. rewrite length_drop. lia. Qed.

(** X20. The checkpoint [createCheckpoint] serializes is bounded: at most
    5 decisions, at most 10 pairwise distinct modified files, at most 5
    corrections, a task of at most 200 characters that is empty or taken
    from a user message of more than 10 characters, and a context summary
    of at most 500 characters; the session id and the timestamp are the
    ones given. *)
Theorem checkpoint_fields_bounded (h : Host) (sessionId timestamp : string)
  (messages : list TranscriptMessage.t) :
  let c := Checkpoint.checkpoint_of h sessionId timestamp messages in
  CheckpointData.session_id c = sessionId
  ∧ CheckpointData.timestamp c = timestamp
  ∧ (length (CheckpointData.decisions c) ≤ 5)%nat
  ∧ (length (CheckpointData.files_modified c) ≤ 10)%nat
  ∧ NoDup (CheckpointData.files_modified c)
  ∧ (length (CheckpointData.corrections c) ≤ 5)%nat
  ∧ (String.length (CheckpointData.current_task c) ≤ 200)%nat
  ∧ (CheckpointData.current_task c = ""
     ∨ ∃ msg, msg ∈ messages ∧ TranscriptMessage.role msg = "user"
              ∧ (10 < String.length
                        (extractText (TranscriptMessage.content msg)))%nat
              ∧ CheckpointData.current_task c
                = Str.slice 0 200
                    (extractText (TranscriptMessage.content msg)))
  ∧ (String.length (CheckpointData.context_summary c) ≤ 500)%nat.
Proof.
  cbn. split; [done|]. split; [done|].
  split; [apply length_last_n|]. split; [apply length_last_n|].
  split.
  { unfold Checkpoint.extractFilesModified. cbv zeta.
    eapply sublist_NoDup; [apply set_of_list_spec|apply sublist_drop]. }
  split; [apply length_last_n|].
  unfold Checkpoint.extractCurrentTask, Checkpoint.buildContextSummary.
  cbv zeta. split; [|split].
  - destruct (list_find _ _) as [[k text]|]; [|cbn; lia].
    rewrite slice_0_length. lia.
  - destruct (list_find _ _) as [[k text]|] eqn:Hfind; [|by left]. right.
    apply list_find_Some in Hfind as (Hk & Hlong & _).
    apply list_elem_of_lookup_2, list_elem_of_fmap in Hk as (msg & -> & Hmsg).
    apply elem_of_reverse, subseteq_drop in Hmsg.
    unfold user_messages in Hmsg.
    apply list_elem_of_filter in Hmsg as [Hrole Hmsg]. by exists msg.
  - rewrite slice_0_length. lia.
Qed.

(** What [createCheckpoint] does, by the lines read and the answers of
    the file system. *)
Lemma createCheckpoint_run h stringify config sessionId transcriptPath w :
  match readMessages h transcriptPath with
  | None =>
      Checkpoint.createCheckpoint h stringify config sessionId transcriptPath w
      = Returned None w
  | Some lines =>
      match messages_of lines with
      | None =>
          Checkpoint.createCheckpoint h stringify config sessionId
            transcriptPath w = Thrown (tick_clock w)
      | Some messages =>
          let dir := path_join h (data_dir config) "checkpoints" in
          let filepath :=
            path_join h dir
              (sessionId +:+ "-"
               +:+ pretty (Date_now h (S (World.clock_reads w)))
               +:+ ".json") in
          let text :=
            stringify
              (Checkpoint.checkpoint_of h sessionId (reading h w) messages) in
          if mkdirSync h dir then
            if writeFileSync h filepath text then
              ∃ w',
                Checkpoint.createCheckpoint h stringify config sessionId
                  transcriptPath w = Returned (Some filepath) w'
                ∧ World.db w' = World.db w
                ∧ World.written w' = World.written w ++ [(filepath, text)]
                ∧ World.clock_reads w' = S (S (World.clock_reads w))
            else
              Checkpoint.createCheckpoint h stringify config sessionId
                transcriptPath w = Thrown (tick_clock (tick_clock w))
          else
            Checkpoint.createCheckpoint h stringify config sessionId
              transcriptPath w = Thrown (tick_clock w)
      end
  end.
Proof.
  unfold Checkpoint.createCheckpoint.
  destruct (readMessages h transcriptPath) as [lines|]; [|done].
  rewrite bind_run, now_iso_run, bind_run, as_messages_run.
  destruct (messages_of lines) as [messages|]; [|done].
  cbv zeta beta iota.
  destruct (mkdirSync h _); [|done].
  rewrite bind_run. cbn.
  destruct (writeFileSync h _ _); cbn; [|done]. by eexists.
Qed.

(** X21. [createCheckpoint] returns [null] and does nothing, not even read
    the clock, when the transcript cannot be read or parsed.  On a parsed
    transcript with a [null] line it throws after one clock reading.
    Otherwise it never touches the store, and either throws without a
    file written, or writes exactly one file and returns its path: the
    file holds the serialized checkpoint stamped with a first clock
    reading, and it is named [<sessionId>-<ms>.json] from a second
    reading, a name that [getLatestCheckpoint] accepts for the session. *)
Theorem createCheckpoint_outcome (h : Host)
  (stringify : CheckpointData.t → string) (config : MichiMemConfig)
  (sessionId transcriptPath : string) (w : World.t) :
  let o := Checkpoint.createCheckpoint h stringify config sessionId
             transcriptPath w in
  World.db (world_of o) = World.db w
  ∧ match readMessages h transcriptPath with
    | None => o = Returned None w
    | Some lines =>
        (LNull ∈ lines → o = Thrown (tick_clock w))
        ∧ ∀ messages : list TranscriptMessage.t,
            lines = LMessage <$> messages →
            match o with
            | Thrown w' => World.written w' = World.written w
            | Returned None _ => False
            | Returned (Some filepath) w' =>
                let name :=
                  sessionId +:+ "-"
                  +:+ pretty (Date_now h (S (World.clock_reads w)))
                  +:+ ".json" in
                filepath
                = path_join h (path_join h (data_dir config) "checkpoints")
                    name
                ∧ Str.startsWith sessionId name = true
                ∧ Str.endsWith ".json" name = true
                ∧ World.written w'
                  = World.written w
                    ++ [(filepath,
                         stringify
                           (Checkpoint.checkpoint_of h sessionId (reading h w)
                              messages))]
                ∧ World.clock_reads w' = S (S (World.clock_reads w))
            end
    end.
Proof.
  cbv zeta.
  pose proof (createCheckpoint_run h stringify config sessionId
                transcriptPath w) as Hrun.
  destruct (readMessages h transcriptPath) as [lines|];
    [|by rewrite Hrun].
  split; [|split].
  - destruct (messages_of lines) as [messages|]; [|by rewrite Hrun].
    cbv zeta in Hrun. destruct (mkdirSync h _); [|by rewrite Hrun].
    destruct (writeFileSync h _ _); [|by rewrite Hrun].
    by destruct Hrun as (w' & -> & Hdb & _).
  - intros Hnull. by rewrite (messages_of_null _ Hnull) in Hrun.
  - intros messages ->. rewrite messages_of_fmap in Hrun. cbv zeta in Hrun.
    destruct (mkdirSync h _); [|by rewrite Hrun].
    destruct (writeFileSync h _ _); [|by rewrite Hrun].
    destruct Hrun as (w' & -> & _ & Hfiles & Hclock).
    split; [done|]. split; [apply startsWith_append|].
    split; [|done].
    rewrite <- !append_assoc. apply endsWith_append.
Qed.

(** X22. The [PreCompact] hook never touches the stored memories.  When
    the transcript cannot be read or parsed it writes no file and records
    one metric, of event [precompact], with [checkpoint_created] false.
    On a parsed transcript it throws, with no metric recorded and no file
    written, when a line is [null], when the checkpoint directory cannot
    be made, or when the checkpoint file cannot be written; in the one
    remaining case it writes the checkpoint file and records one metric
    with [checkpoint_created] true. *)
Theorem handlePreCompact_records_checkpoint (h : Host)
  (stringify : CheckpointData.t → string) (input : HookInput.t)
  (config : MichiMemConfig) (w : World.t) :
  let o := handlePreCompact h stringify input config w in
  let sessionId := HookInput.session_id input in
  let dir := path_join h (data_dir config) "checkpoints" in
  let filepath :=
    path_join h dir
      (sessionId +:+ "-" +:+ pretty (Date_now h (S (World.clock_reads w)))
       +:+ ".json") in
  IndexDB.memories (World.db (world_of o)) = IndexDB.memories (World.db w)
  ∧ match readMessages h (HookInput.transcript_path input) with
    | None =>
        ∃ w', o = Returned tt w'
              ∧ World.written w' = World.written w
              ∧ precompact_recorded sessionId false w w'
    | Some lines =>
        (LNull ∈ lines →
         ∃ w', o = Thrown w'
               ∧ World.written w' = World.written w
               ∧ IndexDB.metrics (World.db w') = IndexDB.metrics (World.db w))
        ∧ ∀ messages : list TranscriptMessage.t,
            lines = LMessage <$> messages →
            let text :=
              stringify
                (Checkpoint.checkpoint_of h sessionId (reading h w)
                   messages) in
            if (mkdirSync h dir && writeFileSync h filepath text)%bool
            then
              ∃ w', o = Returned tt w'
                    ∧ World.written w' = World.written w ++ [(filepath, text)]
                    ∧ precompact_recorded sessionId true w w'
            else
              ∃ w', o = Thrown w'
                    ∧ World.written w' = World.written w
                    ∧ IndexDB.metrics (World.db w')
                      = IndexDB.metrics (World.db w)
    end.
Proof.
  cbv zeta. unfold handlePreCompact. rewrite bind_run.
  pose proof (createCheckpoint_run h stringify config
                (HookInput.session_id input)
                (HookInput.transcript_path input) w) as Hrun.
  assert (∀ (created : bool) payload w1,
            World.db w1 = World.db w →
            ("checkpoint_created", JBool created) ∈ payload →
            ("session_id", JStr (HookInput.session_id input)) ∈ payload →
            precompact_recorded (HookInput.session_id input) created w
              (World.with_db
                 (IndexDB.recordMetric (reading h w1) "precompact" payload
                    (World.db w1)) (tick_clock w1))) as Hrecorded.
  { intros created payload w1 Hdb Hcreated Hsession. eexists.
    cbn. rewrite Hdb. split; [reflexivity|]. by cbn. }
  assert (∀ created : bool,
            ("checkpoint_created", JBool created)
            ∈ [("session_id", JStr (HookInput.session_id input))]
              ++ match HookInput.trigger input with
                 | Some t => [("trigger", JStr t)]
                 | None => []
                 end
              ++ [("checkpoint_created", JBool created)]) as Hcreated.
  { intros created.
    destruct (HookInput.trigger input); cbn; repeat (first [by left|right]). }
  destruct (readMessages h (HookInput.transcript_path input)) as [lines|].
  - split; [|split].
    + destruct (messages_of lines) as [messages|]; [|by rewrite Hrun].
      cbv zeta in Hrun. destruct (mkdirSync h _); [|by rewrite Hrun].
      destruct (writeFileSync h _ _); [|by rewrite Hrun].
      destruct Hrun as (w' & -> & Hdb & _). rewrite db_recordMetric_run.
      cbn. by rewrite Hdb.
    + intros Hnull. rewrite (messages_of_null _ Hnull) in Hrun.
      rewrite Hrun. by eexists.
    + intros messages ->. rewrite messages_of_fmap in Hrun. cbv zeta in Hrun.
      destruct (mkdirSync h _); cbn; [|rewrite Hrun; by eexists].
      destruct (writeFileSync h _ _); [|rewrite Hrun; by eexists].
      destruct Hrun as (w' & -> & Hdb & Hfiles & _).
      rewrite db_recordMetric_run. eexists. split; [reflexivity|].
      split; [done|]. apply Hrecorded; [done|apply Hcreated|by left].
  - rewrite Hrun, db_recordMetric_run. split; [done|].
    eexists. split; [reflexivity|]. split; [done|].
    apply Hrecorded; [done|apply Hcreated|by left].
Qed.

(** ** The tools [mem_search] and [mem_recall] *)

Lemma join_cons_prefix (sep first : string) (rest : list string) :
  String.prefix first (Str.join sep (first :: rest)) = true.
Proof.
  unfold Str.join. destruct rest as [|next rest]; cbn.
  - induction first as [|c first IH]; [done|]. cbn.
    by destruct (Ascii.ascii_dec c c).
  - apply prefix_append.
Qed.

(** X23. [mem_search] never changes the stored memories.  When the engine
    rejects the query it throws after one clock reading, with no metric
    recorded.  Otherwise it returns a reply that is not an error, after
    recording exactly one metric of event [search] with the number of
    hits and the time between its two clock readings; the reply is
    [No memories found.] exactly when the search has no hit. *)
Theorem mem_search_reply (h : Host) (query : string) (limit : nat)
  (w : World.t) :
  IndexDB.memories (World.db (world_of (mem_search h query limit w)))
  = IndexDB.memories (World.db w)
  ∧ match IndexDB.search h query limit (World.db w) with
    | None => mem_search h query limit w = Thrown (tick_clock w)
    | Some hits =>
        ∃ reply w',
          mem_search h query limit w = Returned reply w'
          ∧ ToolReply.isError reply = false
          ∧ (ToolReply.text reply = "No memories found." ↔ hits = [])
          ∧ IndexDB.metrics (World.db w')
            = IndexDB.metrics (World.db w)
              ++ [{| event := "search";
                     data :=
                       [("query", JStr query);
                        ("results", JNum (Z.of_nat (length hits)));
                        ("latency_ms",
                         JNum (Date_now h (S (World.clock_reads w))
                               - Date_now h (World.clock_reads w)))];
                     metric_created_at :=
                       toISOString h
                         (Date_now h (S (S (World.clock_reads w)))) |}]
    end.
Proof.
  unfold mem_search. rewrite bind_run.
  change (now_ms h w)
    with (Returned (Date_now h (World.clock_reads w)) (tick_clock w)).
  cbv beta iota. rewrite bind_run, db_search_run.
  change (World.db (tick_clock w)) with (World.db w).
  destruct (IndexDB.search h query limit (World.db w)) as [hits|]; [|done].
  rewrite bind_run.
  change (now_ms h (tick_clock w))
    with (Returned (Date_now h (S (World.clock_reads w)))
            (tick_clock (tick_clock w))).
  cbv beta iota. rewrite bind_run, db_recordMetric_run. cbv beta iota.
  destruct hits as [|r hits].
  - rewrite decide_True by done. cbn. split; [done|].
    eexists _, _. split; [reflexivity|]. by cbn.
  - rewrite decide_False by done. cbn. split; [done|].
    eexists _, _. split; [reflexivity|]. cbn. split; [done|].
    split; [|done]. split; [|done].
    intros Htext. destruct (_ <$> hits) in Htext; discriminate Htext.
Qed.

Lemma mem_recall_text_prefix (memory : Memory) :
  Str.startsWith ("# " +:+ title memory) (mem_recall_text memory) = true.
Proof.
  unfold mem_recall_text. cbn [app]. rewrite filter_cons.
  rewrite decide_True by done. apply join_cons_prefix.
Qed.

(** X24. [mem_recall] never changes the stored memories.  Its reply is an
    error exactly when no row has the id, and then nothing at all
    changes; otherwise exactly one metric, of event [recall], is recorded
    and the reply starts with the line [# <title>] of the record
    [getById] returns. *)
Theorem mem_recall_reply (h : Host) (i : string) (w : World.t) :
  IndexDB.memories (World.db (world_of (mem_recall h i w)))
  = IndexDB.memories (World.db w)
  ∧ ∃ reply w',
      mem_recall h i w = Returned reply w'
      ∧ (ToolReply.isError reply = true ↔ i ∉ IndexDB.ids (World.db w))
      ∧ (ToolReply.isError reply = true →
         w' = w ∧ ToolReply.text reply = "Memory not found: " +:+ i)
      ∧ (ToolReply.isError reply = false →
         ∃ memory,
           IndexDB.getById i (World.db w) = Some memory
           ∧ Str.startsWith ("# " +:+ title memory) (ToolReply.text reply)
             = true
           ∧ IndexDB.metrics (World.db w')
             = IndexDB.metrics (World.db w)
               ++ [{| event := "recall"; data := [("id", JStr i)];
                      metric_created_at := reading h w |}]).
Proof.
  unfold mem_recall. rewrite bind_run.
  change (get_db w) with (Returned (World.db w) w). cbv beta iota.
  pose proof (getById_None i (World.db w)) as Hnone.
  destruct (IndexDB.getById i (World.db w)) as [memory|].
  - rewrite bind_run, db_recordMetric_run. cbn. split; [done|].
    eexists _, _. split; [reflexivity|]. cbn. split; [|split; [done|]].
    + split; [done|]. intros Hnot. by apply Hnone in Hnot.
    + intros _. exists memory. split; [done|]. split; [|done].
      apply mem_recall_text_prefix.
  - cbn. split; [done|]. eexists _, _. split; [reflexivity|]. cbn.
    split; [|split; [done|done]]. split; [intros _; by apply Hnone|done].
Qed.

(** ** [mem_store]: the expiry of a new record *)



(** ** Lifecycle: what is kept *)

Lemma filter_ext_elem_of {A} (P Q : A → Prop) `{!∀ x, Decision (P x)}
  `{!∀ x, Decision (Q x)} (l : list A) :
  (∀ x, x ∈ l → P x ↔ Q x) → filter P l = filter Q l.
Proof.
  induction l as [|a l IH]; intros Hiff; [done|].
  rewrite !filter_cons.
  rewrite IH by (intros x Hx; apply Hiff; by right).
  destruct (decide (P a)) as [HP|HP], (decide (Q a)) as [HQ|HQ]; try done.
  - destruct HQ. apply Hiff; [by left|done].
  - destruct HP. apply Hiff; [by left|done].
Qed.

(** X26. On a table whose ids are pairwise distinct, [runLifecycle]
    returns and leaves exactly the rows that are not expired at the clock
    reading of [getExpired], in their order: nothing else is deleted and
    no row is changed. *)
Theorem runLifecycle_keeps_unexpired (h : Host) (config : MichiMemConfig)
  (w : World.t) :
  NoDup (IndexDB.ids (World.db w)) →
  ∃ (result : LifecycleResult.t) (w' : World.t),
    runLifecycle h config w = Returned result w'
    ∧ IndexDB.memories (World.db w')
      = filter (λ row, ¬ IndexDB.is_expired (reading h w) row)
          (IndexDB.memories (World.db w)).
Proof.
  intros Hnd. unfold runLifecycle. rewrite bind_run, db_getExpired_run.
  destruct (runLifecycle_loop_run h config
              (IndexDB.getExpired (reading h w) (World.db w))
              {| LifecycleResult.expired := 0; LifecycleResult.archived := 0 |}
              (tick_clock w))
    as (result & w' & Hloop & Hrows & _).
  exists result, w'. split; [done|]. rewrite Hrows. cbn.
  apply filter_ext_elem_of. intros row Hrow. rewrite getExpired_ids.
  split.
  - intros Hnot Hexpired. apply Hnot.
    apply list_elem_of_fmap_2. by apply list_elem_of_filter.
  - intros Hfresh (row' & Hid & [Hexpired Hin]%list_elem_of_filter)%list_elem_of_fmap.
    apply Hfresh.
    by rewrite (NoDup_fmap_eq id _ row row' Hnd Hrow Hin Hid).
Qed.

Lemma runLifecycle_keeps_unexpired_witness :
  NoDup (IndexDB.ids (World.db (Sample.world_of_rows stale_and_fresh)))
  ∧ ∃ (result : LifecycleResult.t) (w' : World.t),
      runLifecycle Sample.host Sample.config
        (Sample.world_of_rows stale_and_fresh) = Returned result w'
      ∧ IndexDB.memories (World.db w')
        = filter (λ row, ¬ IndexDB.is_expired
                             (reading Sample.host
                                (Sample.world_of_rows stale_and_fresh)) row)
            (IndexDB.memories (World.db (Sample.world_of_rows stale_and_fresh))).
Proof.
  assert (NoDup (IndexDB.ids (World.db (Sample.world_of_rows stale_and_fresh))))
    as Hnd by (apply (bool_decide_unpack _); vm_compute; exact I).
  split; [exact Hnd|].
  exact (runLifecycle_keeps_unexpired Sample.host Sample.config
           (Sample.world_of_rows stale_and_fresh) Hnd).
Defined.
